(** * GPU architecture simulator: memory hierarchy, texture cache, instrumentation

    A shallow embedding of [src/memory_hierarchy.cpp], [src/texture_cache.cpp]
    and [src/performance_monitor.cpp], followed by the properties of the
    specification that were checked against it.

    Conventions of the embedding:
    - [uint64_t] / [size_t] values are [Z] with the wrap-around written as
      [wrap64]; [uint32_t] values use [wrap32].
    - a [void*] buffer together with its [size] argument is a [list byte];
      [size] is the length of the list.
    - [double] is IEEE binary64 and [float] is IEEE binary32, both through the
      Standard Library's [spec_float] operations.
    - every member function takes the object and returns the updated object
      next to its C++ result. *)

From Stdlib Require Import ZArith List Lia Bool String.
From Stdlib Require Import Strings.Byte.
From Stdlib Require Import Floats.SpecFloat.
From stdpp Require Import base gmap strings list.

Open Scope Z_scope.

(** ** Machine integers and floating point *)

Definition wrap64 (z : Z) : Z := z mod 2 ^ 64.
Definition wrap32 (z : Z) : Z := z mod 2 ^ 32.

(** [static_cast<double>(n)] and [static_cast<float>(n)] of an integer: the
    nearest representable value, ties to even. *)
Definition b64_of_Z (z : Z) : spec_float := binary_normalize 53 1024 z 0 false.
Definition b32_of_Z (z : Z) : spec_float := binary_normalize 24 128 z 0 false.

Definition b64_add : spec_float -> spec_float -> spec_float := SFadd 53 1024.
Definition b64_mul : spec_float -> spec_float -> spec_float := SFmul 53 1024.
Definition b64_div : spec_float -> spec_float -> spec_float := SFdiv 53 1024.
Definition b32_add : spec_float -> spec_float -> spec_float := SFadd 24 128.
Definition b32_sub : spec_float -> spec_float -> spec_float := SFsub 24 128.
Definition b32_mul : spec_float -> spec_float -> spec_float := SFmul 24 128.
Definition b32_div : spec_float -> spec_float -> spec_float := SFdiv 24 128.

(** A decimal literal such as [0.7] or [0.1f]: the value nearest to
    [num / den]. Division is correctly rounded and both operands are exact. *)
Definition b64_lit (num den : Z) : spec_float := b64_div (b64_of_Z num) (b64_of_Z den).
Definition b32_lit (num den : Z) : spec_float := b32_div (b32_of_Z num) (b32_of_Z den).

(** [static_cast<uint64_t>(x)] of a finite non-negative [double]: truncation. *)
Definition SF_trunc (f : spec_float) : Z :=
  match f with
  | S754_finite s m e =>
      let v := if 0 <=? e then Z.pos m * 2 ^ e else Z.pos m / 2 ^ (- e) in
      if s then - v else v
  | _ => 0
  end.

(** [std::min(a, b)] and [std::max(a, b)] on floats, as the library defines
    them through [<]. *)
Definition SF_min (a b : spec_float) : spec_float := if SFltb b a then b else a.
Definition SF_max (a b : spec_float) : spec_float := if SFltb a b then b else a.

(** [memcpy(dst + pos, src, |src|)] into a buffer held as a list. *)
Definition memcpy_into (dst : list byte) (pos : nat) (src : list byte) : list byte :=
  take pos dst ++ src ++ drop (pos + length src) dst.

(** [std::min_element(first, last, comp)] as the index of the chosen element:
    the first element is the candidate, and a later element replaces the
    candidate when [comp element candidate] holds. *)
Fixpoint min_element_from {A : Type} (comp : A -> A -> bool)
    (best_i : nat) (best : A) (i : nat) (l : list A) : nat :=
  match l with
  | [] => best_i
  | x :: rest =>
      if comp x best then min_element_from comp i x (S i) rest
      else min_element_from comp best_i best (S i) rest
  end.

Definition min_element {A : Type} (comp : A -> A -> bool) (l : list A) : option nat :=
  match l with
  | [] => None
  | x :: rest => Some (min_element_from comp 0%nat x 1%nat rest)
  end.

(** ** GPUCache: set-associative cache with LRU replacement *)

Module GPUCache.

Record CacheLine := mkCacheLine {
  address : Z;
  data : list byte;
  valid : bool;
  dirty : bool;
  access_time : Z
}.

(** [CacheLine(addr, size)]: zero-filled payload, not valid, not dirty. *)
Definition CacheLine_new (addr size : Z) : CacheLine :=
  mkCacheLine addr (replicate (Z.to_nat size) x00) false false 0.

Definition set_data (d : list byte) (l : CacheLine) : CacheLine :=
  mkCacheLine (address l) d (valid l) (dirty l) (access_time l).
Definition set_valid (v : bool) (l : CacheLine) : CacheLine :=
  mkCacheLine (address l) (data l) v (dirty l) (access_time l).
Definition set_dirty (v : bool) (l : CacheLine) : CacheLine :=
  mkCacheLine (address l) (data l) (valid l) v (access_time l).
Definition set_access_time (n : Z) (l : CacheLine) : CacheLine :=
  mkCacheLine (address l) (data l) (valid l) (dirty l) n.

Record t := mk {
  cache_size_ : Z;
  line_size_ : Z;
  associativity_ : Z;
  num_sets_ : Z;
  cache_sets_ : list (list (option CacheLine));
  hit_count_ : Z;
  miss_count_ : Z;
  access_count_ : Z
}.

Definition set_cache_sets (s : list (list (option CacheLine))) (c : t) : t :=
  mk (cache_size_ c) (line_size_ c) (associativity_ c) (num_sets_ c) s
     (hit_count_ c) (miss_count_ c) (access_count_ c).
Definition set_hit_count (n : Z) (c : t) : t :=
  mk (cache_size_ c) (line_size_ c) (associativity_ c) (num_sets_ c) (cache_sets_ c)
     n (miss_count_ c) (access_count_ c).
Definition set_miss_count (n : Z) (c : t) : t :=
  mk (cache_size_ c) (line_size_ c) (associativity_ c) (num_sets_ c) (cache_sets_ c)
     (hit_count_ c) n (access_count_ c).
Definition set_access_count (n : Z) (c : t) : t :=
  mk (cache_size_ c) (line_size_ c) (associativity_ c) (num_sets_ c) (cache_sets_ c)
     (hit_count_ c) (miss_count_ c) n.

(** The constructor. [cache_size / (line_size * associativity)] divides by
    zero in C++ when the product is zero; [Z] division gives zero sets there. *)
Definition new (cache_size line_size associativity : Z) : t :=
  let num_sets := cache_size / wrap64 (line_size * associativity) in
  mk cache_size line_size associativity num_sets
     (replicate (Z.to_nat num_sets) (replicate (Z.to_nat associativity) None))
     0 0 0.

Definition get_set_index (c : t) (a : Z) : Z :=
  (a / line_size_ c) mod num_sets_ c.

Definition get_tag (c : t) (a : Z) : Z :=
  a / wrap64 (line_size_ c * num_sets_ c).

(** [address & ~(line_size_ - 1)] on 64-bit unsigned values. *)
Definition line_base (c : t) (a : Z) : Z :=
  Z.land a (wrap64 (Z.lnot (wrap64 (line_size_ c - 1)))).

(** A [CacheLine*] is the position (set, way) of the slot that owns the line. *)
Definition loc : Type := nat * nat.

Definition line_at (c : t) (l : loc) : option CacheLine :=
  match cache_sets_ c !! fst l with
  | Some set => match set !! snd l with Some slot => slot | None => None end
  | None => None
  end.

Definition store_line (c : t) (l : loc) (line : CacheLine) : t :=
  set_cache_sets
    (alter (fun set => <[snd l := Some line]> set) (fst l) (cache_sets_ c)) c.

(** The loop of [find_line]: the first slot that is non-null, valid and holds
    the wanted base address. *)
Fixpoint find_way (set : list (option CacheLine)) (base : Z) : option nat :=
  match set with
  | [] => None
  | slot :: rest =>
      let hit := match slot with
                 | Some line => valid line && (address line =? base)
                 | None => false
                 end in
      if hit then Some 0%nat else S <$> find_way rest base
  end.

(** [find_line]: a found line is stamped with the current [access_count_]. *)
Definition find_line (c : t) (a : Z) : option loc * t :=
  let si := Z.to_nat (get_set_index c a) in
  match cache_sets_ c !! si with
  | None => (None, c)
  | Some set =>
      match find_way set (line_base c a) with
      | None => (None, c)
      | Some w =>
          match line_at c (si, w) with
          | Some line =>
              (Some (si, w), store_line c (si, w) (set_access_time (access_count_ c) line))
          | None => (None, c)
          end
      end
  end.

(** The first loop of [allocate_line]: the first null or invalid slot. *)
Fixpoint find_free (set : list (option CacheLine)) : option nat :=
  match set with
  | [] => None
  | slot :: rest =>
      let free := match slot with
                  | Some line => negb (valid line)
                  | None => true
                  end in
      if free then Some 0%nat else S <$> find_free rest
  end.

(** The comparison handed to [std::min_element] in [allocate_line]. *)
Definition lru_less (a b : option CacheLine) : bool :=
  match a with
  | None => true
  | Some la =>
      if negb (valid la) then true
      else match b with
           | None => false
           | Some lb => if negb (valid lb) then false
                        else access_time la <? access_time lb
           end
  end.

(** [allocate_line]: the new line is valid, zero-filled and stamped. With an
    empty set (associativity 0) the C++ code dereferences [end()]; the model
    returns no line. *)
Definition allocate_line (c : t) (a : Z) : option loc * t :=
  let si := Z.to_nat (get_set_index c a) in
  let fresh :=
    set_access_time (access_count_ c)
      (set_valid true (CacheLine_new (line_base c a) (line_size_ c))) in
  match cache_sets_ c !! si with
  | None => (None, c)
  | Some set =>
      match find_free set with
      | Some w => (Some (si, w), store_line c (si, w) fresh)
      | None =>
          match min_element lru_less set with
          | Some w => (Some (si, w), store_line c (si, w) fresh)
          | None => (None, c)
          end
      end
  end.

(** [std::min(size, line_size_ - offset)] with [offset = address % line_size_]. *)
Definition copy_size (c : t) (a : Z) (size : Z) : Z :=
  Z.min size (wrap64 (line_size_ c - a mod line_size_ c)).

(** [read]: on a hit only [copy_size] bytes reach the front of the buffer;
    the rest of the buffer keeps what it held. *)
Definition read (c : t) (a : Z) (buf : list byte) : t * bool * list byte :=
  let c := set_access_count (wrap64 (access_count_ c + 1)) c in
  let '(found, c) := find_line c a in
  match found with
  | Some l =>
      let c := set_hit_count (wrap64 (hit_count_ c + 1)) c in
      match line_at c l with
      | Some line =>
          let offset := Z.to_nat (a mod line_size_ c) in
          let n := Z.to_nat (copy_size c a (Z.of_nat (length buf))) in
          (c, true, memcpy_into buf 0 (take n (drop offset (data line))))
      | None => (c, true, buf)
      end
  | None => (set_miss_count (wrap64 (miss_count_ c + 1)) c, false, buf)
  end.

(** [write]: write-allocate without fill, then copy the clipped data. *)
Definition write (c : t) (a : Z) (d : list byte) : t * bool :=
  let c := set_access_count (wrap64 (access_count_ c + 1)) c in
  let '(found, c) := find_line c a in
  let '(target, c) :=
    match found with
    | None =>
        let '(l, c) := allocate_line c a in
        (l, set_miss_count (wrap64 (miss_count_ c + 1)) c)
    | Some l => (Some l, set_hit_count (wrap64 (hit_count_ c + 1)) c)
    end in
  match target with
  | Some l =>
      match line_at c l with
      | Some line =>
          let offset := Z.to_nat (a mod line_size_ c) in
          let n := Z.to_nat (copy_size c a (Z.of_nat (length d))) in
          (store_line c l
             (set_dirty true (set_data (memcpy_into (data line) offset (take n d)) line)),
           true)
      | None => (c, true)
      end
  | None => (c, true)
  end.

Definition invalidate (c : t) (a : Z) : t :=
  let '(found, c) := find_line c a in
  match found with
  | Some l =>
      match line_at c l with
      | Some line => store_line c l (set_dirty false (set_valid false line))
      | None => c
      end
  | None => c
  end.

Definition flush (c : t) : t :=
  set_cache_sets
    (map (map (fun slot : option CacheLine =>
                 match slot with
                 | Some line => Some (set_dirty false (set_valid false line))
                 | None => None
                 end))
         (cache_sets_ c)) c.

Definition get_hit_count (c : t) : Z := hit_count_ c.
Definition get_miss_count (c : t) : Z := miss_count_ c.

(** [get_hit_rate]: hits over accesses as [double], zero before any access. *)
Definition get_hit_rate (c : t) : spec_float :=
  if access_count_ c =? 0 then S754_zero false
  else b64_div (b64_of_Z (hit_count_ c)) (b64_of_Z (access_count_ c)).

(** The operations of the public interface, for statements over sequences. *)
Inductive op :=
| Read (a : Z) (buf : list byte)
| Write (a : Z) (d : list byte)
| Invalidate (a : Z)
| Flush.

Definition step (c : t) (o : op) : t :=
  match o with
  | Read a buf => fst (fst (read c a buf))
  | Write a d => fst (write c a d)
  | Invalidate a => invalidate c a
  | Flush => flush c
  end.

Definition run (c : t) (ops : list op) : t := fold_left step ops c.

End GPUCache.

(** ** MemoryHierarchy: L1 and L2 over VRAM, with a bump allocator *)

Module MemoryHierarchy.

(** [vram_] is a zero-initialised [std::vector<uint8_t>] of [vram_size] bytes.
    It is kept sparse: an address that is absent from the map holds [x00]. *)
Record t := mk {
  l1_cache_ : GPUCache.t;
  l2_cache_ : GPUCache.t;
  vram_ : gmap Z byte;
  next_allocation_address_ : Z;
  allocations_ : gmap Z Z
}.

Definition set_l1_cache (c : GPUCache.t) (m : t) : t :=
  mk c (l2_cache_ m) (vram_ m) (next_allocation_address_ m) (allocations_ m).
Definition set_l2_cache (c : GPUCache.t) (m : t) : t :=
  mk (l1_cache_ m) c (vram_ m) (next_allocation_address_ m) (allocations_ m).
Definition set_vram (v : gmap Z byte) (m : t) : t :=
  mk (l1_cache_ m) (l2_cache_ m) v (next_allocation_address_ m) (allocations_ m).
Definition set_next_allocation_address (a : Z) (m : t) : t :=
  mk (l1_cache_ m) (l2_cache_ m) (vram_ m) a (allocations_ m).
Definition set_allocations (al : gmap Z Z) (m : t) : t :=
  mk (l1_cache_ m) (l2_cache_ m) (vram_ m) (next_allocation_address_ m) al.

(** [vram_.size()]: 4 GiB. *)
Definition vram_size : Z := 4 * 1024 * 1024 * 1024.

Definition L1_LATENCY : Z := 1.
Definition L2_LATENCY : Z := 10.
Definition VRAM_LATENCY : Z := 100.

Definition new : t :=
  mk (GPUCache.new (32 * 1024) 64 4)
     (GPUCache.new (512 * 1024) 128 8)
     ∅ 0x10000000 ∅.

(** [memcpy(data, vram_.data() + address, size)]. *)
Fixpoint vram_load (v : gmap Z byte) (a : Z) (n : nat) : list byte :=
  match n with
  | O => []
  | S n' => default x00 (v !! a) :: vram_load v (a + 1) n'
  end.

(** [memcpy(vram_.data() + address, data, size)]. *)
Fixpoint vram_store (v : gmap Z byte) (a : Z) (d : list byte) : gmap Z byte :=
  match d with
  | [] => v
  | b :: rest => vram_store (<[a := b]> v) (a + 1) rest
  end.

(** [read]: L1, then L2 (installing into L1), then VRAM (installing into L2
    and L1). The bounds test [address + size <= vram_.size()] is evaluated on
    64-bit unsigned values. *)
Definition read (m : t) (a : Z) (buf : list byte) : t * bool * list byte :=
  let '(l1, hit1, buf1) := GPUCache.read (l1_cache_ m) a buf in
  let m := set_l1_cache l1 m in
  if hit1 then (m, true, buf1)
  else
    let '(l2, hit2, buf2) := GPUCache.read (l2_cache_ m) a buf1 in
    let m := set_l2_cache l2 m in
    if hit2 then
      (set_l1_cache (fst (GPUCache.write (l1_cache_ m) a buf2)) m, true, buf2)
    else if wrap64 (a + Z.of_nat (length buf2)) <=? vram_size then
      let buf3 := vram_load (vram_ m) a (length buf2) in
      let m := set_l2_cache (fst (GPUCache.write (l2_cache_ m) a buf3)) m in
      let m := set_l1_cache (fst (GPUCache.write (l1_cache_ m) a buf3)) m in
      (m, true, buf3)
    else (m, false, buf2).

(** [write]: through L1 and L2 first, then VRAM when the bounds test passes. *)
Definition write (m : t) (a : Z) (d : list byte) : t * bool :=
  let m := set_l1_cache (fst (GPUCache.write (l1_cache_ m) a d)) m in
  let m := set_l2_cache (fst (GPUCache.write (l2_cache_ m) a d)) m in
  if wrap64 (a + Z.of_nat (length d)) <=? vram_size then
    (set_vram (vram_store (vram_ m) a d) m, true)
  else (m, false).

(** [allocate]: the result [0] is the failure sentinel. *)
Definition allocate (m : t) (size : Z) : t * Z :=
  let address := next_allocation_address_ m in
  let size := Z.land (wrap64 (size + 15)) (wrap64 (Z.lnot 15)) in
  if wrap64 (address + size) >? vram_size then (m, 0)
  else
    (set_next_allocation_address (wrap64 (next_allocation_address_ m + size))
       (set_allocations (<[address := size]> (allocations_ m)) m),
     address).

(** The body of the loop of [deallocate], run [n] times from [addr]. *)
Fixpoint invalidate_range (m : t) (addr : Z) (n : nat) : t :=
  match n with
  | O => m
  | S n' =>
      let m := set_l1_cache (GPUCache.invalidate (l1_cache_ m) addr) m in
      let m := set_l2_cache (GPUCache.invalidate (l2_cache_ m) addr) m in
      invalidate_range m (wrap64 (addr + 64)) n'
  end.

(** [deallocate]. The loop [for (addr = address; addr < address + size;
    addr += 64)] runs [ceil((limit - address) / 64)] times when
    [address < limit], with [limit = address + size] on 64-bit values, and not
    at all otherwise. Every recorded pair comes from [allocate], which keeps
    [limit <= vram_size], so [addr] does not wrap inside the loop. *)
Definition deallocate (m : t) (a : Z) : t :=
  match allocations_ m !! a with
  | None => m
  | Some size =>
      let limit := wrap64 (a + size) in
      let n := if a <? limit then Z.to_nat ((limit - a + 63) / 64) else O in
      set_allocations (delete a (allocations_ m)) (invalidate_range m a n)
  end.

Definition flush_all_caches (m : t) : t :=
  set_l2_cache (GPUCache.flush (l2_cache_ m))
    (set_l1_cache (GPUCache.flush (l1_cache_ m)) m).

Record MemoryStats := mkMemoryStats {
  l1_hits : Z;
  l1_misses : Z;
  l2_hits : Z;
  l2_misses : Z;
  vram_accesses : Z;
  avg_access_latency : spec_float
}.

(** [get_statistics]: the counters of the two caches, the L2 misses again as
    the number of VRAM accesses, and the latency averaged over the L1
    accesses in [double]. *)
Definition get_statistics (m : t) : MemoryStats :=
  let l1_hits := GPUCache.get_hit_count (l1_cache_ m) in
  let l1_misses := GPUCache.get_miss_count (l1_cache_ m) in
  let l2_hits := GPUCache.get_hit_count (l2_cache_ m) in
  let l2_misses := GPUCache.get_miss_count (l2_cache_ m) in
  let vram_accesses := l2_misses in
  let total_accesses := wrap64 (l1_hits + l1_misses) in
  let contribution (n latency : Z) : spec_float :=
    b64_mul (b64_div (b64_of_Z n) (b64_of_Z total_accesses)) (b64_of_Z latency) in
  mkMemoryStats l1_hits l1_misses l2_hits l2_misses vram_accesses
    (if 0 <? total_accesses then
       b64_add (b64_add (contribution l1_hits L1_LATENCY)
                        (contribution l2_hits L2_LATENCY))
               (contribution vram_accesses VRAM_LATENCY)
     else S754_zero false).

(** The operations of the public interface, for statements over sequences. *)
Inductive op :=
| Read (a : Z) (buf : list byte)
| Write (a : Z) (d : list byte)
| Allocate (size : Z)
| Deallocate (a : Z)
| FlushAllCaches.

Definition step (m : t) (o : op) : t :=
  match o with
  | Read a buf => fst (fst (read m a buf))
  | Write a d => fst (write m a d)
  | Allocate size => fst (allocate m size)
  | Deallocate a => deallocate m a
  | FlushAllCaches => flush_all_caches m
  end.

Definition run (m : t) (ops : list op) : t := fold_left step ops m.

End MemoryHierarchy.

(** ** PerformanceMonitor: counters, timers, cache recordings and alerts *)

Module PerformanceMonitor.

(** A [time_point] is the clock reading in nanoseconds. Every function that
    calls [high_resolution_clock::now()] takes the reading as [now]. *)
Record t := mk {
  start_times_ : gmap string Z;
  timing_history_ : gmap string (list spec_float);
  counters_ : gmap string Z;
  bandwidth_bytes_ : gmap string Z;
  bandwidth_start_times_ : gmap string Z;
  cache_hits_ : gmap string Z;
  cache_misses_ : gmap string Z;
  frame_times_ : list spec_float;
  triangle_counts_ : list Z;
  fragment_counts_ : list Z;
  performance_thresholds_ : gmap string spec_float;
  real_time_monitoring_ : bool;
  max_history_size_ : Z
}.

Definition new : t := mk ∅ ∅ ∅ ∅ ∅ ∅ ∅ [] [] [] ∅ false 1000.

Definition set_start_times (x : gmap string Z) (p : t) : t :=
  mk x (timing_history_ p) (counters_ p) (bandwidth_bytes_ p) (bandwidth_start_times_ p)
     (cache_hits_ p) (cache_misses_ p) (frame_times_ p) (triangle_counts_ p)
     (fragment_counts_ p) (performance_thresholds_ p) (real_time_monitoring_ p)
     (max_history_size_ p).
Definition set_timing_history (x : gmap string (list spec_float)) (p : t) : t :=
  mk (start_times_ p) x (counters_ p) (bandwidth_bytes_ p) (bandwidth_start_times_ p)
     (cache_hits_ p) (cache_misses_ p) (frame_times_ p) (triangle_counts_ p)
     (fragment_counts_ p) (performance_thresholds_ p) (real_time_monitoring_ p)
     (max_history_size_ p).
Definition set_counters (x : gmap string Z) (p : t) : t :=
  mk (start_times_ p) (timing_history_ p) x (bandwidth_bytes_ p) (bandwidth_start_times_ p)
     (cache_hits_ p) (cache_misses_ p) (frame_times_ p) (triangle_counts_ p)
     (fragment_counts_ p) (performance_thresholds_ p) (real_time_monitoring_ p)
     (max_history_size_ p).
Definition set_bandwidth (bytes starts : gmap string Z) (p : t) : t :=
  mk (start_times_ p) (timing_history_ p) (counters_ p) bytes starts
     (cache_hits_ p) (cache_misses_ p) (frame_times_ p) (triangle_counts_ p)
     (fragment_counts_ p) (performance_thresholds_ p) (real_time_monitoring_ p)
     (max_history_size_ p).
Definition set_cache_hits (x : gmap string Z) (p : t) : t :=
  mk (start_times_ p) (timing_history_ p) (counters_ p) (bandwidth_bytes_ p)
     (bandwidth_start_times_ p) x (cache_misses_ p) (frame_times_ p) (triangle_counts_ p)
     (fragment_counts_ p) (performance_thresholds_ p) (real_time_monitoring_ p)
     (max_history_size_ p).
Definition set_cache_misses (x : gmap string Z) (p : t) : t :=
  mk (start_times_ p) (timing_history_ p) (counters_ p) (bandwidth_bytes_ p)
     (bandwidth_start_times_ p) (cache_hits_ p) x (frame_times_ p) (triangle_counts_ p)
     (fragment_counts_ p) (performance_thresholds_ p) (real_time_monitoring_ p)
     (max_history_size_ p).
Definition set_frames (ft : list spec_float) (tr fr : list Z) (p : t) : t :=
  mk (start_times_ p) (timing_history_ p) (counters_ p) (bandwidth_bytes_ p)
     (bandwidth_start_times_ p) (cache_hits_ p) (cache_misses_ p) ft tr fr
     (performance_thresholds_ p) (real_time_monitoring_ p) (max_history_size_ p).
Definition set_performance_thresholds (x : gmap string spec_float) (p : t) : t :=
  mk (start_times_ p) (timing_history_ p) (counters_ p) (bandwidth_bytes_ p)
     (bandwidth_start_times_ p) (cache_hits_ p) (cache_misses_ p) (frame_times_ p)
     (triangle_counts_ p) (fragment_counts_ p) x (real_time_monitoring_ p)
     (max_history_size_ p).

(** [v.erase(v.begin())] when the history is full, then [push_back]. *)
Definition push_bounded {A : Type} (cap : Z) (x : A) (v : list A) : list A :=
  (if cap <=? Z.of_nat (length v) then drop 1 v else v) ++ [x].

Definition start_timer (now : Z) (event : string) (p : t) : t :=
  set_start_times (<[event := now]> (start_times_ p)) p.

(** [end_timer]: the elapsed time is [duration<double, std::milli>] of the
    difference of two readings: the nanosecond count as a [double], divided
    by [1e6]. *)
Definition end_timer (now : Z) (event : string) (p : t) : t :=
  match start_times_ p !! event with
  | Some started =>
      let duration := b64_div (b64_of_Z (now - started)) (b64_of_Z 1000000) in
      let history := default [] (timing_history_ p !! event) in
      set_start_times (delete event (start_times_ p))
        (set_timing_history
           (<[event := push_bounded (max_history_size_ p) duration history]>
              (timing_history_ p)) p)
  | None => p
  end.

(** [std::accumulate(values, 0.0) / values.size()], zero for an empty vector. *)
Definition calculate_average (values : list spec_float) : spec_float :=
  match values with
  | [] => S754_zero false
  | _ => b64_div (fold_left b64_add values (S754_zero false))
                 (b64_of_Z (Z.of_nat (length values)))
  end.

Definition get_elapsed_time_ms (p : t) (event : string) : spec_float :=
  match timing_history_ p !! event with
  | Some (x :: rest) => calculate_average (x :: rest)
  | _ => S754_zero false
  end.

Definition increment_counter (counter : string) (value : Z) (p : t) : t :=
  set_counters
    (<[counter := wrap64 (default 0 (counters_ p !! counter) + value)]> (counters_ p)) p.

Definition set_counter (counter : string) (value : Z) (p : t) : t :=
  set_counters (<[counter := value]> (counters_ p)) p.

Definition get_counter (p : t) (counter : string) : Z :=
  default 0 (counters_ p !! counter).

Definition record_bandwidth_usage (now : Z) (component : string) (bytes : Z) (p : t) : t :=
  let starts :=
    match bandwidth_start_times_ p !! component with
    | None => <[component := now]> (bandwidth_start_times_ p)
    | Some _ => bandwidth_start_times_ p
    end in
  set_bandwidth
    (<[component := wrap64 (default 0 (bandwidth_bytes_ p !! component) + bytes)]>
       (bandwidth_bytes_ p))
    starts p.

Definition record_cache_access (cache : string) (hit : bool) (p : t) : t :=
  if hit then
    set_cache_hits
      (<[cache := wrap64 (default 0 (cache_hits_ p !! cache) + 1)]> (cache_hits_ p)) p
  else
    set_cache_misses
      (<[cache := wrap64 (default 0 (cache_misses_ p !! cache) + 1)]> (cache_misses_ p)) p.

Definition record_frame_metrics (frame_time_ms : spec_float) (triangles fragments : Z)
    (p : t) : t :=
  let full := max_history_size_ p <=? Z.of_nat (length (frame_times_ p)) in
  let cut {A : Type} (v : list A) : list A := if full then drop 1 v else v in
  set_frames (cut (frame_times_ p) ++ [frame_time_ms])
             (cut (triangle_counts_ p) ++ [triangles])
             (cut (fragment_counts_ p) ++ [fragments]) p.

(** The cache part of [generate_report]: one rate per cache that has a hit
    recorded, left out when the cache has no access. *)
Definition cache_hit_rates (p : t) : gmap string spec_float :=
  map_imap
    (fun (cache : string) (hits : Z) =>
       let misses := default 0 (cache_misses_ p !! cache) in
       let total_accesses := wrap64 (hits + misses) in
       if 0 <? total_accesses
       then Some (b64_div (b64_of_Z hits) (b64_of_Z total_accesses))
       else None)
    (cache_hits_ p).

Definition set_performance_threshold (metric : string) (threshold : spec_float) (p : t) : t :=
  set_performance_thresholds (<[metric := threshold]> (performance_thresholds_ p)) p.

(** An alert is kept as the parts its message is built from: the formatting
    by [std::to_string] is a function of these parts.
    [FrameTimeExceeded current threshold] stands for
    "Frame time exceeded threshold: <current> ms > <threshold> ms" and
    [HitRateBelow cache percent limit] for
    "<cache> hit rate below threshold: <percent>% < <limit>%". *)
Inductive alert :=
| FrameTimeExceeded (current_frame_time threshold : spec_float)
| HitRateBelow (cache_name : string) (hit_rate_percent threshold_percent : spec_float).

(** [metric.substr(0, metric.find("_hit_rate"))]; [find] gives [npos] when the
    text is absent, and [substr(0, npos)] is the whole string. *)
Definition cache_name_of (metric : string) : string :=
  match index 0 "_hit_rate" metric with
  | Some n => substring 0 n metric
  | None => metric
  end.

(** The body of the loop of [check_performance_alerts] for one threshold. *)
Definition check_one (p : t) (metric : string) (threshold : spec_float) : option alert :=
  if String.eqb metric "frame_time_ms" && negb (bool_decide (frame_times_ p = []))
  then
    let current_frame_time := List.last (frame_times_ p) (S754_zero false) in
    if SFltb threshold current_frame_time
    then Some (FrameTimeExceeded current_frame_time threshold)
    else None
  else
    match index 0 "hit_rate" metric with
    | Some _ =>
        let cache_name := cache_name_of metric in
        match cache_hits_ p !! cache_name, cache_misses_ p !! cache_name with
        | Some hits, Some misses =>
            let total := wrap64 (hits + misses) in
            if 0 <? total then
              let hit_rate := b64_div (b64_of_Z hits) (b64_of_Z total) in
              if SFltb hit_rate threshold
              then Some (HitRateBelow cache_name
                           (b64_mul hit_rate (b64_of_Z 100))
                           (b64_mul threshold (b64_of_Z 100)))
              else None
            else None
        | _, _ => None
        end
    | None => None
    end.

(** [check_performance_alerts]: the thresholds are visited in the order of
    [map_to_list] (the order of an [unordered_map] is not specified). *)
Definition check_performance_alerts (p : t) : list alert :=
  omap (fun '(metric, threshold) => check_one p metric threshold)
       (map_to_list (performance_thresholds_ p)).

Definition reset_all_metrics (p : t) : t :=
  mk ∅ ∅ ∅ ∅ ∅ ∅ ∅ [] [] [] ∅ (real_time_monitoring_ p) (max_history_size_ p).

Definition enable_real_time_monitoring (enable : bool) (p : t) : t :=
  mk (start_times_ p) (timing_history_ p) (counters_ p) (bandwidth_bytes_ p)
     (bandwidth_start_times_ p) (cache_hits_ p) (cache_misses_ p) (frame_times_ p)
     (triangle_counts_ p) (fragment_counts_ p) (performance_thresholds_ p) enable
     (max_history_size_ p).

(** [update_real_time_metrics]: when monitoring is on the alerts are computed
    and the result is dropped. *)
Definition update_real_time_metrics (p : t) : t :=
  if real_time_monitoring_ p then let _ := check_performance_alerts p in p else p.

(** The operations of the public interface that change the monitor, for
    statements over sequences. An operation that reads the clock carries the
    reading. *)
Inductive op :=
| StartTimer (now : Z) (event : string)
| EndTimer (now : Z) (event : string)
| IncrementCounter (counter : string) (value : Z)
| SetCounter (counter : string) (value : Z)
| RecordBandwidthUsage (now : Z) (component : string) (bytes : Z)
| RecordCacheAccess (cache : string) (hit : bool)
| RecordFrameMetrics (frame_time_ms : spec_float) (triangles fragments : Z)
| ResetAllMetrics
| EnableRealTimeMonitoring (enable : bool)
| UpdateRealTimeMetrics
| SetPerformanceThreshold (metric : string) (threshold : spec_float).

Definition step (p : t) (o : op) : t :=
  match o with
  | StartTimer now event => start_timer now event p
  | EndTimer now event => end_timer now event p
  | IncrementCounter counter value => increment_counter counter value p
  | SetCounter counter value => set_counter counter value p
  | RecordBandwidthUsage now component bytes => record_bandwidth_usage now component bytes p
  | RecordCacheAccess cache hit => record_cache_access cache hit p
  | RecordFrameMetrics frame_time_ms triangles fragments =>
      record_frame_metrics frame_time_ms triangles fragments p
  | ResetAllMetrics => reset_all_metrics p
  | EnableRealTimeMonitoring enable => enable_real_time_monitoring enable p
  | UpdateRealTimeMetrics => update_real_time_metrics p
  | SetPerformanceThreshold metric threshold => set_performance_threshold metric threshold p
  end.

Definition run (p : t) (ops : list op) : t := fold_left step ops p.

End PerformanceMonitor.

(** ** TextureCache: keyed texture blobs, eviction and prefetching *)

Module TextureCache.

Module TextureCacheEntry.
Record t := mk {
  texture_id : Z;
  mip_level : Z;
  address : Z;
  data : list byte;
  last_access_time : Z;
  access_count : Z;
  priority_score : spec_float;
  is_prefetched : bool
}.

(** [TextureCacheEntry(id, mip, addr, size)]. *)
Definition new (id mip addr size : Z) : t :=
  mk id mip addr (replicate (Z.to_nat size) x00) 0 0 (S754_zero false) false.

Definition set_data (d : list byte) (e : t) : t :=
  mk (texture_id e) (mip_level e) (address e) d (last_access_time e) (access_count e)
     (priority_score e) (is_prefetched e).
Definition set_last_access_time (n : Z) (e : t) : t :=
  mk (texture_id e) (mip_level e) (address e) (data e) n (access_count e)
     (priority_score e) (is_prefetched e).
Definition set_access_count (n : Z) (e : t) : t :=
  mk (texture_id e) (mip_level e) (address e) (data e) (last_access_time e) n
     (priority_score e) (is_prefetched e).
Definition set_is_prefetched (b : bool) (e : t) : t :=
  mk (texture_id e) (mip_level e) (address e) (data e) (last_access_time e)
     (access_count e) (priority_score e) b.
End TextureCacheEntry.

(** [AccessPattern]: the two locality fields of the C++ struct are never
    written or read and are left out. *)
Module AccessPattern.
Record t := mk {
  texture_id : Z;
  mip_level : Z;
  timestamp : Z
}.
End AccessPattern.

Module CacheMetrics.
Record t := mk {
  cache_hits : Z;
  cache_misses : Z;
  prefetch_hits : Z;
  prefetch_misses : Z;
  hit_rate : spec_float;
  prefetch_efficiency : spec_float;
  bytes_transferred : Z;
  avg_access_latency_ms : spec_float;
  cache_utilization_percent : Z
}.

(** [CacheMetrics{}]. *)
Definition zero : t :=
  mk 0 0 0 0 (S754_zero false) (S754_zero false) 0 (S754_zero false) 0.

Definition set_cache_hits (n : Z) (m : t) : t :=
  mk n (cache_misses m) (prefetch_hits m) (prefetch_misses m) (hit_rate m)
     (prefetch_efficiency m) (bytes_transferred m) (avg_access_latency_ms m)
     (cache_utilization_percent m).
Definition set_cache_misses (n : Z) (m : t) : t :=
  mk (cache_hits m) n (prefetch_hits m) (prefetch_misses m) (hit_rate m)
     (prefetch_efficiency m) (bytes_transferred m) (avg_access_latency_ms m)
     (cache_utilization_percent m).
Definition set_prefetch_hits (n : Z) (m : t) : t :=
  mk (cache_hits m) (cache_misses m) n (prefetch_misses m) (hit_rate m)
     (prefetch_efficiency m) (bytes_transferred m) (avg_access_latency_ms m)
     (cache_utilization_percent m).
Definition set_bytes_transferred (n : Z) (m : t) : t :=
  mk (cache_hits m) (cache_misses m) (prefetch_hits m) (prefetch_misses m) (hit_rate m)
     (prefetch_efficiency m) n (avg_access_latency_ms m) (cache_utilization_percent m).
Definition set_derived (hr pe : spec_float) (util : Z) (m : t) : t :=
  mk (cache_hits m) (cache_misses m) (prefetch_hits m) (prefetch_misses m) hr pe
     (bytes_transferred m) (avg_access_latency_ms m) util.
End CacheMetrics.

Definition DEFAULT_PREFETCH_AGGRESSIVENESS : spec_float := b32_lit 7 10.
Definition DEFAULT_EVICTION_THRESHOLD : spec_float := b32_lit 8 10.
Definition DEFAULT_OPTIMIZATION_INTERVAL : Z := 100.
Definition DEFAULT_PATTERN_HISTORY_SIZE : Z := 1000.

(** The object. [memory_] and [perf_monitor_] are the shared objects the cache
    was initialised with, held with their current state; [perf_monitor_] may
    be null. [clock_reads_] is not a member of the class: it counts the
    readings of [high_resolution_clock::now()] taken so far, so that the next
    reading is [now clock_reads_]. *)
Record t := mk {
  memory_ : MemoryHierarchy.t;
  perf_monitor_ : option PerformanceMonitor.t;
  cache_entries_ : gmap Z TextureCacheEntry.t;
  prefetch_queue_ : list Z;
  max_cache_size_bytes_ : Z;
  current_cache_size_bytes_ : Z;
  prefetch_distance_ : Z;
  smart_prefetching_enabled_ : bool;
  adaptive_caching_enabled_ : bool;
  recent_accesses_ : list AccessPattern.t;
  max_pattern_history_ : Z;
  metrics_ : CacheMetrics.t;
  last_optimization_time_ : Z;
  prefetch_aggressiveness_ : spec_float;
  eviction_threshold_ : spec_float;
  optimization_interval_ms_ : Z;
  clock_reads_ : nat
}.

Definition set_memory (x : MemoryHierarchy.t) (c : t) : t :=
  mk x (perf_monitor_ c) (cache_entries_ c) (prefetch_queue_ c)
    (max_cache_size_bytes_ c) (current_cache_size_bytes_ c) (prefetch_distance_ c)
    (smart_prefetching_enabled_ c) (adaptive_caching_enabled_ c) (recent_accesses_ c)
    (max_pattern_history_ c) (metrics_ c) (last_optimization_time_ c)
    (prefetch_aggressiveness_ c) (eviction_threshold_ c) (optimization_interval_ms_ c)
    (clock_reads_ c).
Definition set_perf_monitor (x : option PerformanceMonitor.t) (c : t) : t :=
  mk (memory_ c) x (cache_entries_ c) (prefetch_queue_ c) (max_cache_size_bytes_ c)
    (current_cache_size_bytes_ c) (prefetch_distance_ c) (smart_prefetching_enabled_ c)
    (adaptive_caching_enabled_ c) (recent_accesses_ c) (max_pattern_history_ c)
    (metrics_ c) (last_optimization_time_ c) (prefetch_aggressiveness_ c)
    (eviction_threshold_ c) (optimization_interval_ms_ c) (clock_reads_ c).
Definition set_cache_entries (x : gmap Z TextureCacheEntry.t) (c : t) : t :=
  mk (memory_ c) (perf_monitor_ c) x (prefetch_queue_ c) (max_cache_size_bytes_ c)
    (current_cache_size_bytes_ c) (prefetch_distance_ c) (smart_prefetching_enabled_ c)
    (adaptive_caching_enabled_ c) (recent_accesses_ c) (max_pattern_history_ c)
    (metrics_ c) (last_optimization_time_ c) (prefetch_aggressiveness_ c)
    (eviction_threshold_ c) (optimization_interval_ms_ c) (clock_reads_ c).
Definition set_prefetch_queue (x : list Z) (c : t) : t :=
  mk (memory_ c) (perf_monitor_ c) (cache_entries_ c) x (max_cache_size_bytes_ c)
    (current_cache_size_bytes_ c) (prefetch_distance_ c) (smart_prefetching_enabled_ c)
    (adaptive_caching_enabled_ c) (recent_accesses_ c) (max_pattern_history_ c)
    (metrics_ c) (last_optimization_time_ c) (prefetch_aggressiveness_ c)
    (eviction_threshold_ c) (optimization_interval_ms_ c) (clock_reads_ c).
Definition set_current_cache_size_bytes (x : Z) (c : t) : t :=
  mk (memory_ c) (perf_monitor_ c) (cache_entries_ c) (prefetch_queue_ c)
    (max_cache_size_bytes_ c) x (prefetch_distance_ c) (smart_prefetching_enabled_ c)
    (adaptive_caching_enabled_ c) (recent_accesses_ c) (max_pattern_history_ c)
    (metrics_ c) (last_optimization_time_ c) (prefetch_aggressiveness_ c)
    (eviction_threshold_ c) (optimization_interval_ms_ c) (clock_reads_ c).
Definition set_prefetch_distance (x : Z) (c : t) : t :=
  mk (memory_ c) (perf_monitor_ c) (cache_entries_ c) (prefetch_queue_ c)
    (max_cache_size_bytes_ c) (current_cache_size_bytes_ c) x
    (smart_prefetching_enabled_ c) (adaptive_caching_enabled_ c) (recent_accesses_ c)
    (max_pattern_history_ c) (metrics_ c) (last_optimization_time_ c)
    (prefetch_aggressiveness_ c) (eviction_threshold_ c) (optimization_interval_ms_ c)
    (clock_reads_ c).
Definition set_smart_prefetching_enabled (x : bool) (c : t) : t :=
  mk (memory_ c) (perf_monitor_ c) (cache_entries_ c) (prefetch_queue_ c)
    (max_cache_size_bytes_ c) (current_cache_size_bytes_ c) (prefetch_distance_ c) x
    (adaptive_caching_enabled_ c) (recent_accesses_ c) (max_pattern_history_ c)
    (metrics_ c) (last_optimization_time_ c) (prefetch_aggressiveness_ c)
    (eviction_threshold_ c) (optimization_interval_ms_ c) (clock_reads_ c).
Definition set_adaptive_caching_enabled (x : bool) (c : t) : t :=
  mk (memory_ c) (perf_monitor_ c) (cache_entries_ c) (prefetch_queue_ c)
    (max_cache_size_bytes_ c) (current_cache_size_bytes_ c) (prefetch_distance_ c)
    (smart_prefetching_enabled_ c) x (recent_accesses_ c) (max_pattern_history_ c)
    (metrics_ c) (last_optimization_time_ c) (prefetch_aggressiveness_ c)
    (eviction_threshold_ c) (optimization_interval_ms_ c) (clock_reads_ c).
Definition set_recent_accesses (x : list AccessPattern.t) (c : t) : t :=
  mk (memory_ c) (perf_monitor_ c) (cache_entries_ c) (prefetch_queue_ c)
    (max_cache_size_bytes_ c) (current_cache_size_bytes_ c) (prefetch_distance_ c)
    (smart_prefetching_enabled_ c) (adaptive_caching_enabled_ c) x
    (max_pattern_history_ c) (metrics_ c) (last_optimization_time_ c)
    (prefetch_aggressiveness_ c) (eviction_threshold_ c) (optimization_interval_ms_ c)
    (clock_reads_ c).
Definition set_metrics (x : CacheMetrics.t) (c : t) : t :=
  mk (memory_ c) (perf_monitor_ c) (cache_entries_ c) (prefetch_queue_ c)
    (max_cache_size_bytes_ c) (current_cache_size_bytes_ c) (prefetch_distance_ c)
    (smart_prefetching_enabled_ c) (adaptive_caching_enabled_ c) (recent_accesses_ c)
    (max_pattern_history_ c) x (last_optimization_time_ c) (prefetch_aggressiveness_ c)
    (eviction_threshold_ c) (optimization_interval_ms_ c) (clock_reads_ c).
Definition set_last_optimization_time (x : Z) (c : t) : t :=
  mk (memory_ c) (perf_monitor_ c) (cache_entries_ c) (prefetch_queue_ c)
    (max_cache_size_bytes_ c) (current_cache_size_bytes_ c) (prefetch_distance_ c)
    (smart_prefetching_enabled_ c) (adaptive_caching_enabled_ c) (recent_accesses_ c)
    (max_pattern_history_ c) (metrics_ c) x (prefetch_aggressiveness_ c)
    (eviction_threshold_ c) (optimization_interval_ms_ c) (clock_reads_ c).
Definition set_prefetch_aggressiveness (x : spec_float) (c : t) : t :=
  mk (memory_ c) (perf_monitor_ c) (cache_entries_ c) (prefetch_queue_ c)
    (max_cache_size_bytes_ c) (current_cache_size_bytes_ c) (prefetch_distance_ c)
    (smart_prefetching_enabled_ c) (adaptive_caching_enabled_ c) (recent_accesses_ c)
    (max_pattern_history_ c) (metrics_ c) (last_optimization_time_ c) x
    (eviction_threshold_ c) (optimization_interval_ms_ c) (clock_reads_ c).
Definition set_eviction_threshold (x : spec_float) (c : t) : t :=
  mk (memory_ c) (perf_monitor_ c) (cache_entries_ c) (prefetch_queue_ c)
    (max_cache_size_bytes_ c) (current_cache_size_bytes_ c) (prefetch_distance_ c)
    (smart_prefetching_enabled_ c) (adaptive_caching_enabled_ c) (recent_accesses_ c)
    (max_pattern_history_ c) (metrics_ c) (last_optimization_time_ c)
    (prefetch_aggressiveness_ c) x (optimization_interval_ms_ c) (clock_reads_ c).
Definition set_clock_reads (x : nat) (c : t) : t :=
  mk (memory_ c) (perf_monitor_ c) (cache_entries_ c) (prefetch_queue_ c)
    (max_cache_size_bytes_ c) (current_cache_size_bytes_ c) (prefetch_distance_ c)
    (smart_prefetching_enabled_ c) (adaptive_caching_enabled_ c) (recent_accesses_ c)
    (max_pattern_history_ c) (metrics_ c) (last_optimization_time_ c)
    (prefetch_aggressiveness_ c) (eviction_threshold_ c) (optimization_interval_ms_ c) x.

Definition MiB : Z := 1024 * 1024.

(** [(texture_id << 8) | mip_level] on 64-bit unsigned values. *)
Definition cache_key (texture_id mip_level : Z) : Z :=
  Z.lor (wrap64 (Z.shiftl texture_id 8)) mip_level.

Definition find_entry (c : t) (texture_id mip_level : Z) : option TextureCacheEntry.t :=
  cache_entries_ c !! cache_key texture_id mip_level.

(** [memcpy(data, entry->data.data() + offset, size)]. *)
Definition copy_slice (buf : list byte) (payload : list byte) (offset : Z) : list byte :=
  memcpy_into buf 0 (take (length buf) (drop (Z.to_nat offset) payload)).

Definition on_metrics (f : CacheMetrics.t -> CacheMetrics.t) (c : t) : t :=
  set_metrics (f (metrics_ c)) c.

(** A call on [perf_monitor_] guarded by [if (perf_monitor_)]. *)
Definition on_perf (f : PerformanceMonitor.t -> PerformanceMonitor.t) (c : t) : t :=
  set_perf_monitor (f <$> perf_monitor_ c) c.

(** The decision of [predict_future_accesses]: the (texture, mip) pair it
    hands to [prefetch_texture], if any. *)
Definition predicted_prefetch (recent : list AccessPattern.t) : option (Z * Z) :=
  if (length recent <? 3)%nat then None
  else
    match last recent, recent !! (length recent - 2)%nat with
    | Some last_access, Some prev_access =>
        if AccessPattern.texture_id prev_access =? AccessPattern.texture_id last_access then
          let next_mip := wrap32 (AccessPattern.mip_level last_access + 1) in
          if next_mip <? 16
          then Some (AccessPattern.texture_id last_access, next_mip)
          else None
        else if AccessPattern.texture_id last_access
                =? wrap64 (AccessPattern.texture_id prev_access + 1) then
          Some (wrap64 (AccessPattern.texture_id last_access + 1),
                AccessPattern.mip_level last_access)
        else None
    | _, _ => None
    end.

Definition get_metrics (c : t) : CacheMetrics.t :=
  let m := metrics_ c in
  let total_accesses := wrap64 (CacheMetrics.cache_hits m + CacheMetrics.cache_misses m) in
  let hr := if 0 <? total_accesses
            then b64_div (b64_of_Z (CacheMetrics.cache_hits m)) (b64_of_Z total_accesses)
            else CacheMetrics.hit_rate m in
  let total_prefetches :=
    wrap64 (CacheMetrics.prefetch_hits m + CacheMetrics.prefetch_misses m) in
  let pe := if 0 <? total_prefetches
            then b64_div (b64_of_Z (CacheMetrics.prefetch_hits m)) (b64_of_Z total_prefetches)
            else CacheMetrics.prefetch_efficiency m in
  CacheMetrics.set_derived hr pe
    (wrap32 (wrap64 (current_cache_size_bytes_ c * 100) / max_cache_size_bytes_ c)) m.

Definition reset_metrics (c : t) : t := set_metrics CacheMetrics.zero c.

Definition enable_smart_prefetching (enable : bool) (c : t) : t :=
  set_smart_prefetching_enabled enable c.
Definition enable_adaptive_caching (enable : bool) (c : t) : t :=
  set_adaptive_caching_enabled enable c.

(** [tune_performance_parameters]. The two rates are [double]; the two
    tunables are [float]. *)
Definition tune_performance_parameters (c : t) : t :=
  let m := metrics_ c in
  let hit_rate :=
    b64_div (b64_of_Z (CacheMetrics.cache_hits m))
      (b64_of_Z (Z.max 1 (wrap64 (CacheMetrics.cache_hits m + CacheMetrics.cache_misses m)))) in
  let prefetch_efficiency :=
    b64_div (b64_of_Z (CacheMetrics.prefetch_hits m))
      (b64_of_Z (Z.max 1 (wrap64 (CacheMetrics.prefetch_hits m
                                  + CacheMetrics.prefetch_misses m)))) in
  let c :=
    if SFltb (b64_lit 7 10) prefetch_efficiency then
      set_prefetch_aggressiveness
        (SF_min (b32_of_Z 1) (b32_add (prefetch_aggressiveness_ c) (b32_lit 1 10))) c
    else if SFltb prefetch_efficiency (b64_lit 3 10) then
      set_prefetch_aggressiveness
        (SF_max (b32_lit 1 10) (b32_sub (prefetch_aggressiveness_ c) (b32_lit 1 10))) c
    else c in
  let c :=
    if SFltb (b64_lit 9 10) hit_rate then
      set_eviction_threshold
        (SF_min (b32_lit 9 10) (b32_add (eviction_threshold_ c) (b32_lit 5 100))) c
    else if SFltb hit_rate (b64_lit 7 10) then
      set_eviction_threshold
        (SF_max (b32_lit 5 10) (b32_sub (eviction_threshold_ c) (b32_lit 5 100))) c
    else c in
  on_perf (fun p =>
             PerformanceMonitor.set_counter "prefetch_efficiency_percent"
               (SF_trunc (b64_mul prefetch_efficiency (b64_of_Z 100)))
               (PerformanceMonitor.set_counter "texture_cache_hit_rate_percent"
                  (SF_trunc (b64_mul hit_rate (b64_of_Z 100))) p)) c.

(** The sum of the payload sizes of the resident entries. *)
Definition resident_bytes (c : t) : Z :=
  map_fold (fun (_ : Z) (e : TextureCacheEntry.t) (acc : Z) =>
              acc + Z.of_nat (length (TextureCacheEntry.data e)))
           0 (cache_entries_ c).

Section Environment.

(** [now n] is the [n]-th reading of [high_resolution_clock::now()], as
    nanoseconds since the epoch. [logf] is the C library's [float] logarithm
    behind [std::log(float)]. *)
Variable now : nat -> Z.
Variable logf : spec_float -> spec_float.

Definition tick (c : t) : Z * t :=
  (now (clock_reads_ c), set_clock_reads (S (clock_reads_ c)) c).

(** The constructor followed by [initialize(memory, perf_monitor)]. Between
    the two calls [memory_] is null, and every operation below uses it. *)
Definition new (cache_size_mb : Z) (memory : MemoryHierarchy.t)
    (perf_monitor : option PerformanceMonitor.t) : t :=
  let max_bytes := wrap64 (cache_size_mb * 1024 * 1024) in
  mk memory
     (PerformanceMonitor.set_counter "texture_cache_size_mb" (max_bytes / (1024 * 1024))
        <$> perf_monitor)
     ∅ [] max_bytes 0 DEFAULT_OPTIMIZATION_INTERVAL true true []
     DEFAULT_PATTERN_HISTORY_SIZE CacheMetrics.zero (now 0)
     DEFAULT_PREFETCH_AGGRESSIVENESS DEFAULT_EVICTION_THRESHOLD
     DEFAULT_OPTIMIZATION_INTERVAL 1.

(** [calculate_priority_score] at the clock reading [clock_ns]. The age is
    the difference of a signed and an unsigned 64-bit value, so it is taken
    on unsigned values; the arithmetic is [float]. *)
Definition calculate_priority_score (clock_ns : Z) (entry : TextureCacheEntry.t)
    : spec_float :=
  let current_time := Z.quot clock_ns 1000 in
  let age := wrap64 (current_time - TextureCacheEntry.last_access_time entry) in
  let recency_score :=
    b32_div (b32_of_Z 1)
      (b32_add (b32_of_Z 1) (b32_div (b32_of_Z age) (b32_of_Z 1000000))) in
  let frequency_score :=
    logf (b32_add (b32_of_Z 1) (b32_of_Z (TextureCacheEntry.access_count entry))) in
  let prefetch_bonus :=
    if TextureCacheEntry.is_prefetched entry then b32_lit 1 2 else b32_of_Z 1 in
  b32_mul (b32_mul recency_score frequency_score) prefetch_bonus.

(** [std::min_element] over the entries with the comparison of
    [evict_least_valuable_entry]. Each comparison scores the new element and
    the candidate, and each score takes its own clock reading; C++ leaves the
    order of the two calls open, the model scores the new element first. *)
Fixpoint least_valuable_from (n : nat) (best : Z * TextureCacheEntry.t)
    (l : list (Z * TextureCacheEntry.t)) : Z * TextureCacheEntry.t * nat :=
  match l with
  | [] => (best, n)
  | x :: rest =>
      if SFltb (calculate_priority_score (now n) (snd x))
               (calculate_priority_score (now (S n)) (snd best))
      then least_valuable_from (S (S n)) x rest
      else least_valuable_from (S (S n)) best rest
  end.

(** [evict_least_valuable_entry]. The entries are visited in the order of
    [map_to_list] (the order of an [unordered_map] is not specified). *)
Definition evict_least_valuable_entry (c : t) : t :=
  match map_to_list (cache_entries_ c) with
  | [] => c
  | first :: rest =>
      let '(key, victim, n) := least_valuable_from (clock_reads_ c) first rest in
      let c := set_clock_reads n c in
      let c := set_current_cache_size_bytes
                 (wrap64 (current_cache_size_bytes_ c
                          - Z.of_nat (length (TextureCacheEntry.data victim)))) c in
      let c := set_memory
                 (MemoryHierarchy.deallocate (memory_ c) (TextureCacheEntry.address victim)) c in
      set_cache_entries (delete key (cache_entries_ c)) c
  end.

(** The condition of the loop of [allocate_entry]. *)
Definition must_evict (c : t) (size : Z) : bool :=
  (max_cache_size_bytes_ c <? wrap64 (current_cache_size_bytes_ c + size))
  && negb (bool_decide (cache_entries_ c = ∅)).

(** The loop of [allocate_entry], unrolled at most [fuel] times. *)
Fixpoint evict_while (fuel : nat) (size : Z) (c : t) : t :=
  match fuel with
  | O => c
  | S fuel' =>
      if must_evict c size then evict_while fuel' size (evict_least_valuable_entry c)
      else c
  end.

(** [allocate_entry]: the result is the new entry, which the map now holds
    under its key. Every pass of the loop removes one entry, so as many
    passes as there are entries end it. *)
Definition allocate_entry (c : t) (texture_id mip_level address size : Z) : t :=
  let c := evict_while (base.size (cache_entries_ c)) size c in
  let entry := TextureCacheEntry.new texture_id mip_level address size in
  let c := set_cache_entries
             (<[cache_key texture_id mip_level := entry]> (cache_entries_ c)) c in
  set_current_cache_size_bytes (wrap64 (current_cache_size_bytes_ c + size)) c.

(** [prefetch_texture]. The queue is drained where it is filled. *)
Definition prefetch_texture (c : t) (texture_id mip_level : Z) : t :=
  let key := cache_key texture_id mip_level in
  match cache_entries_ c !! key with
  | Some _ => c
  | None =>
      match prefetch_queue_ c ++ [key] with
      | [] => c
      | prefetch_key :: queue =>
          let c := set_prefetch_queue queue c in
          let prefetch_texture_id := Z.shiftr prefetch_key 8 in
          let prefetch_mip := Z.land prefetch_key 255 in
          let texture_size := MiB in
          let '(memory, texture_address) := MemoryHierarchy.allocate (memory_ c) texture_size in
          let c := set_memory memory c in
          if texture_address =? 0 then c
          else
            let c := allocate_entry c prefetch_texture_id prefetch_mip
                       texture_address texture_size in
            let entry_key := cache_key prefetch_texture_id prefetch_mip in
            let '(memory, _, loaded) :=
              MemoryHierarchy.read (memory_ c) texture_address
                (replicate (Z.to_nat texture_size) x00) in
            let c := set_memory memory c in
            let c := set_cache_entries
                       (alter (fun e => TextureCacheEntry.set_is_prefetched true
                                          (TextureCacheEntry.set_data loaded e))
                              entry_key (cache_entries_ c)) c in
            let c := on_metrics
                       (fun m => CacheMetrics.set_bytes_transferred
                                   (wrap64 (CacheMetrics.bytes_transferred m + texture_size)) m)
                       c in
            on_perf (PerformanceMonitor.increment_counter "texture_prefetch_operations" 1) c
      end
  end.

Definition predict_future_accesses (c : t) : t :=
  match predicted_prefetch (recent_accesses_ c) with
  | Some (texture_id, mip_level) => prefetch_texture c texture_id mip_level
  | None => c
  end.

(** The hit branch of [read_texture], after the entry's access metadata has
    been updated; [entry] is the entry as updated. *)
Definition read_texture_hit (c : t) (entry : TextureCacheEntry.t) (offset : Z)
    (buf : list byte) : t * bool * list byte :=
  let size := Z.of_nat (length buf) in
  let buf := copy_slice buf (TextureCacheEntry.data entry) offset in
  let c := on_metrics
             (fun m => CacheMetrics.set_cache_hits (wrap64 (CacheMetrics.cache_hits m + 1)) m)
             c in
  let c := if TextureCacheEntry.is_prefetched entry
           then on_metrics
                  (fun m => CacheMetrics.set_prefetch_hits
                              (wrap64 (CacheMetrics.prefetch_hits m + 1)) m) c
           else c in
  let '(_, c) := tick c in
  let c := on_perf
             (fun p => PerformanceMonitor.increment_counter "texture_cache_bytes_read"
                         size
                         (PerformanceMonitor.record_cache_access "texture_cache" true p)) c in
  let c := if smart_prefetching_enabled_ c then predict_future_accesses c else c in
  (c, true, buf).

(** [perf_monitor_->start_timer(event)] and [end_timer(event)]: the clock is
    read inside the call, so only when [perf_monitor_] is not null. *)
Definition perf_timer
    (f : Z -> string -> PerformanceMonitor.t -> PerformanceMonitor.t)
    (event : string) (c : t) : t :=
  match perf_monitor_ c with
  | Some p => let '(n, c) := tick c in set_perf_monitor (Some (f n event p)) c
  | None => c
  end.

(** The tail of the miss branch: [if (adaptive_caching_enabled_) ...]. *)
Definition adaptive_optimization (c : t) : t :=
  if adaptive_caching_enabled_ c then
    let '(n, c) := tick c in
    let elapsed := Z.quot (n - last_optimization_time_ c) 1000000 in
    if optimization_interval_ms_ c <=? elapsed
    then set_last_optimization_time n (tune_performance_parameters c)
    else c
  else c.

(** The miss branch of [read_texture], from "Cache miss - load from memory". *)
Definition read_texture_miss (c : t) (timestamp : Z) (texture_id mip_level offset : Z)
    (buf : list byte) : t * bool * list byte :=
  let size := Z.of_nat (length buf) in
  let c := on_metrics
             (fun m => CacheMetrics.set_cache_misses
                         (wrap64 (CacheMetrics.cache_misses m + 1)) m) c in
  let c := on_perf (PerformanceMonitor.record_cache_access "texture_cache" false) c in
  let c := perf_timer PerformanceMonitor.start_timer "texture_load_from_memory" c in
  let texture_size := Z.max size MiB in
  let '(memory, texture_address) := MemoryHierarchy.allocate (memory_ c) texture_size in
  let c := set_memory memory c in
  if texture_address =? 0 then (c, false, buf)
  else
    let '(memory, ok, texture_data) :=
      MemoryHierarchy.read (memory_ c) texture_address
        (replicate (Z.to_nat texture_size) x00) in
    let c := set_memory memory c in
    if negb ok then
      (set_memory (MemoryHierarchy.deallocate (memory_ c) texture_address) c, false, buf)
    else
      let c := allocate_entry c texture_id mip_level texture_address texture_size in
      let entry :=
        TextureCacheEntry.set_is_prefetched false
          (TextureCacheEntry.set_access_count 1
             (TextureCacheEntry.set_last_access_time timestamp
                (TextureCacheEntry.set_data texture_data
                   (TextureCacheEntry.new texture_id mip_level texture_address
                      texture_size)))) in
      let c := set_cache_entries
                 (<[cache_key texture_id mip_level := entry]> (cache_entries_ c)) c in
      let buf := if wrap64 (offset + size) <=? Z.of_nat (length texture_data)
                 then copy_slice buf texture_data offset else buf in
      let c := on_metrics
                 (fun m => CacheMetrics.set_bytes_transferred
                             (wrap64 (CacheMetrics.bytes_transferred m + texture_size)) m)
                 c in
      let c := perf_timer PerformanceMonitor.end_timer "texture_load_from_memory" c in
      let '(_, c) := tick c in
      (adaptive_optimization c, true, buf).

(** [read_texture]. *)
Definition read_texture (c : t) (texture_id mip_level offset : Z) (buf : list byte)
    : t * bool * list byte :=
  let size := Z.of_nat (length buf) in
  let '(start_time, c) := tick c in
  let c := if max_pattern_history_ c <=? Z.of_nat (length (recent_accesses_ c))
           then set_recent_accesses (drop 1 (recent_accesses_ c)) c else c in
  let timestamp := wrap64 (Z.quot start_time 1000) in
  let pattern := AccessPattern.mk texture_id mip_level timestamp in
  let c := set_recent_accesses (recent_accesses_ c ++ [pattern]) c in
  let key := cache_key texture_id mip_level in
  match cache_entries_ c !! key with
  | Some found =>
      let entry :=
        TextureCacheEntry.set_access_count
          (wrap32 (TextureCacheEntry.access_count found + 1))
          (TextureCacheEntry.set_last_access_time timestamp found) in
      let c := set_cache_entries (<[key := entry]> (cache_entries_ c)) c in
      if wrap64 (offset + size) <=? Z.of_nat (length (TextureCacheEntry.data entry))
      then read_texture_hit c entry offset buf
      else read_texture_miss c timestamp texture_id mip_level offset buf
  | None => read_texture_miss c timestamp texture_id mip_level offset buf
  end.

(** [invalidate_texture]: the body of the loop for one entry. *)
Definition invalidate_one (texture_id : Z) (c : t) (kv : Z * TextureCacheEntry.t) : t :=
  if TextureCacheEntry.texture_id (snd kv) =? texture_id then
    let c := set_current_cache_size_bytes
               (wrap64 (current_cache_size_bytes_ c
                        - Z.of_nat (length (TextureCacheEntry.data (snd kv))))) c in
    let c := set_memory
               (MemoryHierarchy.deallocate (memory_ c) (TextureCacheEntry.address (snd kv))) c in
    set_cache_entries (delete (fst kv) (cache_entries_ c)) c
  else c.

Definition invalidate_texture (c : t) (texture_id : Z) : t :=
  fold_left (invalidate_one texture_id) (map_to_list (cache_entries_ c)) c.

Definition flush (c : t) : t :=
  let memory :=
    fold_left (fun m (kv : Z * TextureCacheEntry.t) =>
                 MemoryHierarchy.deallocate m (TextureCacheEntry.address (snd kv)))
              (map_to_list (cache_entries_ c)) (memory_ c) in
  set_prefetch_queue []
    (set_current_cache_size_bytes 0 (set_cache_entries ∅ (set_memory memory c))).

(** The operations of the public interface, for statements over sequences. *)
Inductive op :=
| ReadTexture (texture_id mip_level offset : Z) (buf : list byte)
| PrefetchTexture (texture_id mip_level : Z)
| InvalidateTexture (texture_id : Z)
| Flush.

Definition step (c : t) (o : op) : t :=
  match o with
  | ReadTexture texture_id mip_level offset buf =>
      fst (fst (read_texture c texture_id mip_level offset buf))
  | PrefetchTexture texture_id mip_level => prefetch_texture c texture_id mip_level
  | InvalidateTexture texture_id => invalidate_texture c texture_id
  | Flush => flush c
  end.

Definition run (c : t) (ops : list op) : t := fold_left step ops c.

End Environment.

End TextureCache.

(** ** ShaderCore and GPUCore: instruction execution and thread dispatch *)

Module ShaderCore.

Record t := mk {
  core_id_ : Z;
  busy_ : bool;
  instruction_count_ : Z;
  cycle_count_ : Z;
  registers_ : list spec_float
}.

Definition set_busy (b : bool) (s : t) : t :=
  mk (core_id_ s) b (instruction_count_ s) (cycle_count_ s) (registers_ s).
Definition set_instruction_count (n : Z) (s : t) : t :=
  mk (core_id_ s) (busy_ s) n (cycle_count_ s) (registers_ s).
Definition set_cycle_count (n : Z) (s : t) : t :=
  mk (core_id_ s) (busy_ s) (instruction_count_ s) n (registers_ s).
Definition set_registers (r : list spec_float) (s : t) : t :=
  mk (core_id_ s) (busy_ s) (instruction_count_ s) (cycle_count_ s) r.

(** [ShaderCore(core_id)]: 32 registers holding [0.0f]. *)
Definition new (core_id : Z) : t :=
  mk core_id false 0 0 (replicate 32 (S754_zero false)).

(** The body shared by the cases ADD and MUL: with at least four words and
    three register numbers in range, [registers_[dst] = registers_[src1] (f)
    registers_[src2]]. *)
Definition alu (f : spec_float -> spec_float -> spec_float) (instruction : list Z) (s : t)
    : t :=
  match instruction with
  | _ :: dst :: src1 :: src2 :: _ =>
      let n := Z.of_nat (length (registers_ s)) in
      if (dst <? n) && (src1 <? n) && (src2 <? n) then
        match registers_ s !! Z.to_nat src1, registers_ s !! Z.to_nat src2 with
        | Some x, Some y => set_registers (<[Z.to_nat dst := f x y]> (registers_ s)) s
        | _, _ => s
        end
      else s
  | _ => s
  end.

(** [execute_instruction]: the words of an instruction are [uint32_t]. *)
Definition execute_instruction (instruction : list Z) (s : t) : t :=
  match instruction with
  | [] => s
  | opcode :: _ =>
      let s := set_busy true s in
      let s :=
        if opcode =? 1 then alu b32_add instruction s
        else if opcode =? 2 then alu b32_mul instruction s
        else if opcode =? 3 then set_cycle_count (wrap64 (cycle_count_ s + 10)) s
        else if opcode =? 4 then set_cycle_count (wrap64 (cycle_count_ s + 5)) s
        else s in
      let s := set_instruction_count (wrap64 (instruction_count_ s + 1)) s in
      let s := set_cycle_count (wrap64 (cycle_count_ s + 1)) s in
      set_busy false s
  end.

Definition is_busy (s : t) : bool := busy_ s.
Definition get_instruction_count (s : t) : Z := instruction_count_ s.
Definition get_cycle_count (s : t) : Z := cycle_count_ s.

End ShaderCore.

Module GPUCore.

(** [memory_] and [perf_monitor_] are the shared objects the core was
    initialised with, null before [initialize]; no member function reads
    [memory_]. *)
Record t := mk {
  shader_cores_ : list ShaderCore.t;
  memory_ : option MemoryHierarchy.t;
  perf_monitor_ : option PerformanceMonitor.t;
  num_cores_ : Z;
  initialized_ : bool
}.

Definition set_shader_cores (x : list ShaderCore.t) (g : t) : t :=
  mk x (memory_ g) (perf_monitor_ g) (num_cores_ g) (initialized_ g).
Definition set_perf_monitor (x : option PerformanceMonitor.t) (g : t) : t :=
  mk (shader_cores_ g) (memory_ g) x (num_cores_ g) (initialized_ g).

(** [GPUCore(num_shader_cores)]: the cores are numbered from zero. *)
Definition new (num_shader_cores : Z) : t :=
  mk ((fun i : nat => ShaderCore.new (Z.of_nat i)) <$> seq 0 (Z.to_nat num_shader_cores))
     None None num_shader_cores false.

Definition initialize (memory : MemoryHierarchy.t)
    (perf_monitor : option PerformanceMonitor.t) (g : t) : t :=
  mk (shader_cores_ g) (Some memory)
     (PerformanceMonitor.set_counter "gpu_cores_total" (num_cores_ g) <$> perf_monitor)
     (num_cores_ g) true.

(** The instructions [dispatch_compute] cuts a program into: consecutive
    groups of four words, the last one shorter when the length is not a
    multiple of four. *)
Fixpoint fetch (program : list Z) : list (list Z) :=
  match program with
  | [] => []
  | a :: b :: c :: d :: rest => [a; b; c; d] :: fetch rest
  | short => [short]
  end.

(** One thread: every instruction of the program, in order, on one core. *)
Definition run_thread (program : list Z) (core : ShaderCore.t) : ShaderCore.t :=
  fold_left (fun s instruction => ShaderCore.execute_instruction instruction s)
            (fetch program) core.

(** The loop over the cores of [dispatch_compute], from [core_idx] on, for at
    most [n] more cores. The arithmetic on thread numbers is [uint32_t]. The
    loop over the threads of one core runs [end_thread - start_thread] times
    when that is positive and not at all otherwise. [shader_cores_] holds
    [num_cores_] cores from the constructor on, so [shader_cores_[core_idx]]
    is in range. *)
Fixpoint dispatch_from (n : nat) (core_idx threads_per_core num_threads : Z)
    (program : list Z) (cores : list ShaderCore.t) : list ShaderCore.t :=
  match n with
  | O => cores
  | S n' =>
      let start_thread := wrap32 (core_idx * threads_per_core) in
      let end_thread := Z.min (wrap32 (start_thread + threads_per_core)) num_threads in
      if num_threads <=? start_thread then cores
      else
        dispatch_from n' (core_idx + 1) threads_per_core num_threads program
          (alter (Nat.iter (Z.to_nat (end_thread - start_thread)) (run_thread program))
                 (Z.to_nat core_idx) cores)
  end.

(** [dispatch_compute]. [start] and [finish] are the clock readings taken by
    [start_timer] and [end_timer], which are called when [perf_monitor_] is
    not null. [num_cores_ == 0] divides by zero in C++; [Z] division gives
    zero threads per core there. *)
Definition dispatch_compute (start finish : Z) (program : list Z) (num_threads : Z)
    (g : t) : t :=
  if negb (initialized_ g) then g
  else
    let g := set_perf_monitor
               ((fun p => PerformanceMonitor.increment_counter "dispatched_threads"
                            num_threads
                            (PerformanceMonitor.start_timer start "compute_dispatch" p))
                  <$> perf_monitor_ g) g in
    let threads_per_core := wrap32 (num_threads + num_cores_ g - 1) / num_cores_ g in
    let g := set_shader_cores
               (dispatch_from (Z.to_nat (num_cores_ g)) 0 threads_per_core num_threads
                  program (shader_cores_ g)) g in
    set_perf_monitor
      (PerformanceMonitor.end_timer finish "compute_dispatch" <$> perf_monitor_ g) g.

(** [wait_for_completion]: one counter, then a sleep. *)
Definition wait_for_completion (g : t) : t :=
  set_perf_monitor
    (PerformanceMonitor.increment_counter "wait_for_completion_calls" 1
       <$> perf_monitor_ g) g.

Definition is_idle (g : t) : bool :=
  forallb (fun core => negb (ShaderCore.is_busy core)) (shader_cores_ g).

Definition get_active_cores (g : t) : Z :=
  wrap32 (Z.of_nat (length (filter (fun core => ShaderCore.is_busy core = true)
                                   (shader_cores_ g)))).

(** The operations of the public interface, for statements over sequences. *)
Inductive op :=
| Initialize (memory : MemoryHierarchy.t) (perf_monitor : option PerformanceMonitor.t)
| DispatchCompute (start finish : Z) (program : list Z) (num_threads : Z)
| WaitForCompletion.

Definition step (g : t) (o : op) : t :=
  match o with
  | Initialize memory perf_monitor => initialize memory perf_monitor g
  | DispatchCompute start finish program num_threads =>
      dispatch_compute start finish program num_threads g
  | WaitForCompletion => wait_for_completion g
  end.

Definition run (g : t) (ops : list op) : t := fold_left step ops g.

End GPUCore.

(** * Vocabulary of the statements *)

(** ** GPUCache *)

Section GPUCacheVocabulary.

Import GPUCache.

(** The three counters of [c'] are those of [c]. *)
Definition same_counters (c c' : t) : Prop :=
  hit_count_ c' = hit_count_ c /\ miss_count_ c' = miss_count_ c
  /\ access_count_ c' = access_count_ c.

(** The equation on 64-bit values, as the C++ expression
    [hit_count_ + miss_count_ == access_count_] evaluates it. *)
Definition counters_balanced (c : t) : Prop :=
  wrap64 (hit_count_ c + miss_count_ c) = access_count_ c.

(** Without wrap-around: the counters are non-negative, add up exactly and
    are bounded by the number of operations run. *)
Definition counters_exact (n : Z) (c : t) : Prop :=
  0 <= hit_count_ c /\ 0 <= miss_count_ c
  /\ hit_count_ c + miss_count_ c = access_count_ c /\ access_count_ c <= n.

(** A slot, and a set, of a cache with lines of [ls] bytes: every line that is
    present has a payload of [ls] bytes, and a set has at least one way. *)
Definition slot_ok (ls : Z) (slot : option CacheLine) : Prop :=
  forall line, slot = Some line -> length (data line) = Z.to_nat ls.

Definition set_ok (ls : Z) (set : list (option CacheLine)) : Prop :=
  set <> [] /\ Forall (slot_ok ls) set.

(** The shape the constructor gives a cache and every operation keeps. *)
Definition shaped (ls ns : Z) (c : t) : Prop :=
  0 < ls < 2 ^ 64 /\ 0 < ns
  /\ line_size_ c = ls /\ num_sets_ c = ns
  /\ length (cache_sets_ c) = Z.to_nat ns
  /\ Forall (set_ok ls) (cache_sets_ c).

(** [holds c a line]: in the set of [a], the first valid line based at
    [line_base c a] is [line]; a [read] or [write] at [a] hits it. *)
Definition holds (c : t) (a : Z) (line : CacheLine) : Prop :=
  exists set w,
    cache_sets_ c !! Z.to_nat (get_set_index c a) = Some set
    /\ find_way set (line_base c a) = Some w
    /\ set !! w = Some (Some line).

(** No line of the cache is valid. *)
Definition no_valid_line (c : t) : Prop :=
  forall set slot line,
    set ∈ cache_sets_ c -> slot ∈ set -> slot = Some line -> valid line = false.

(** The valid lines of a set have pairwise different base addresses. *)
Definition distinct_bases (set : list (option CacheLine)) : Prop :=
  forall i j li lj,
    set !! i = Some (Some li) -> set !! j = Some (Some lj) ->
    valid li = true -> valid lj = true -> address li = address lj -> i = j.

(** Every set of the cache has distinct bases. *)
Definition well_keyed (c : t) : Prop := Forall distinct_bases (cache_sets_ c).

(** An operation other than [write]. *)
Definition not_write (o : op) : Prop :=
  match o with Write _ _ => False | _ => True end.

End GPUCacheVocabulary.

(** ** MemoryHierarchy *)

Section MemoryHierarchyVocabulary.

Import MemoryHierarchy.

(** The geometry of the two caches of a hierarchy. *)
Definition caches_shaped (m : t) : Prop :=
  shaped 64 128 (l1_cache_ m) /\ shaped 128 512 (l2_cache_ m).

(** What [allocate] does to the allocator cursor, as a function of the cursor
    and the requested size: the new cursor and the returned address. *)
Definition allocate_cursor (next size : Z) : Z * Z :=
  let size := Z.land (wrap64 (size + 15)) (wrap64 (Z.lnot 15)) in
  if wrap64 (next + size) >? vram_size then (next, 0)
  else (wrap64 (next + size), next).

(** Every recorded allocation ends inside VRAM, on 64-bit values. *)
Definition records_bounded (m : t) : Prop :=
  forall a s, allocations_ m !! a = Some s -> wrap64 (a + s) <= vram_size.

(** An operation that writes no byte of the [n] bytes at [a]. *)
Definition away_from (a n : Z) (o : op) : Prop :=
  match o with
  | Write a' d' => a' + Z.of_nat (length d') <= a \/ a + n <= a'
  | _ => True
  end.

(** The allocator cursor and every recorded allocation are multiples of 16,
    and the cursor is inside VRAM. *)
Definition allocator_aligned (m : t) : Prop :=
  0 <= next_allocation_address_ m <= vram_size
  /\ next_allocation_address_ m mod 16 = 0
  /\ forall a s, allocations_ m !! a = Some s -> a mod 16 = 0 /\ s mod 16 = 0.

(** Both caches keep the base addresses of their valid lines distinct. *)
Definition caches_well_keyed (m : t) : Prop :=
  well_keyed (l1_cache_ m) /\ well_keyed (l2_cache_ m).

End MemoryHierarchyVocabulary.

(** ** PerformanceMonitor *)

(** A new monitor after the recordings (true, false, true) for the cache
    named "c". *)
Definition three_recordings : PerformanceMonitor.t :=
  PerformanceMonitor.record_cache_access "c" true
    (PerformanceMonitor.record_cache_access "c" false
       (PerformanceMonitor.record_cache_access "c" true PerformanceMonitor.new)).

Section PerformanceMonitorVocabulary.

Import PerformanceMonitor.

(** The bounds [end_timer] and [record_frame_metrics] keep on the histories:
    the three frame vectors have one length, no history exceeds
    [max_history_size_], and a timing history that exists is not empty. *)
Definition histories_bounded (p : t) : Prop :=
  max_history_size_ p = 1000
  /\ length (triangle_counts_ p) = length (frame_times_ p)
  /\ length (fragment_counts_ p) = length (frame_times_ p)
  /\ Z.of_nat (length (frame_times_ p)) <= 1000
  /\ (forall event history, timing_history_ p !! event = Some history ->
                            1 <= Z.of_nat (length history) <= 1000).

(** A component has a byte count exactly when it has a start time. *)
Definition bandwidth_paired (p : t) : Prop :=
  forall component,
    is_Some (bandwidth_bytes_ p !! component)
    <-> is_Some (bandwidth_start_times_ p !! component).

End PerformanceMonitorVocabulary.

(** ** TextureCache: a summary that does not depend on the clock *)

Module Summary.

(** What a summary keeps of an entry: texture id, mip level, payload size
    and the prefetch flag. *)
Definition entry : Type := Z * Z * Z * bool.
Definition entry_size (e : entry) : Z := snd (fst e).
Definition entry_prefetched (e : entry) : bool := snd e.

Definition of_entry (e : TextureCache.TextureCacheEntry.t) : entry :=
  (TextureCache.TextureCacheEntry.texture_id e,
   TextureCache.TextureCacheEntry.mip_level e,
   Z.of_nat (length (TextureCache.TextureCacheEntry.data e)),
   TextureCache.TextureCacheEntry.is_prefetched e).

Definition of_pattern (p : TextureCache.AccessPattern.t) : Z * Z :=
  (TextureCache.AccessPattern.texture_id p, TextureCache.AccessPattern.mip_level p).

Definition to_pattern (p : Z * Z) : TextureCache.AccessPattern.t :=
  TextureCache.AccessPattern.mk (fst p) (snd p) 0.

Record t := mk {
  entries : gmap Z entry;
  current : Z;
  capacity : Z;
  recent : list (Z * Z);
  history : Z;
  next : Z;
  smart : bool;
  queue : list Z;
  metrics : TextureCache.CacheMetrics.t
}.

Definition of_cache (c : TextureCache.t) : t :=
  mk (of_entry <$> TextureCache.cache_entries_ c)
     (TextureCache.current_cache_size_bytes_ c)
     (TextureCache.max_cache_size_bytes_ c)
     (of_pattern <$> TextureCache.recent_accesses_ c)
     (TextureCache.max_pattern_history_ c)
     (MemoryHierarchy.next_allocation_address_ (TextureCache.memory_ c))
     (TextureCache.smart_prefetching_enabled_ c)
     (TextureCache.prefetch_queue_ c)
     (TextureCache.metrics_ c).

Definition set_entries (x : gmap Z entry) (s : t) : t :=
  mk x (current s) (capacity s) (recent s) (history s) (next s) (smart s) (queue s)
     (metrics s).
Definition set_current (x : Z) (s : t) : t :=
  mk (entries s) x (capacity s) (recent s) (history s) (next s) (smart s) (queue s)
     (metrics s).
Definition set_recent (x : list (Z * Z)) (s : t) : t :=
  mk (entries s) (current s) (capacity s) x (history s) (next s) (smart s) (queue s)
     (metrics s).
Definition set_next (x : Z) (s : t) : t :=
  mk (entries s) (current s) (capacity s) (recent s) (history s) x (smart s) (queue s)
     (metrics s).
Definition set_queue (x : list Z) (s : t) : t :=
  mk (entries s) (current s) (capacity s) (recent s) (history s) (next s) (smart s) x
     (metrics s).
Definition set_metrics (x : TextureCache.CacheMetrics.t) (s : t) : t :=
  mk (entries s) (current s) (capacity s) (recent s) (history s) (next s) (smart s)
     (queue s) x.

(** The condition of the eviction loop, on a summary. *)
Definition must_evict (s : t) (size : Z) : bool :=
  (capacity s <? wrap64 (current s + size)) && negb (bool_decide (entries s = ∅)).

(** [prefetch_texture] on a summary; [None] when an eviction would be needed,
    which a summary does not follow. *)
Definition prefetch_texture (s : t) (texture_id mip_level : Z) : option t :=
  let key := TextureCache.cache_key texture_id mip_level in
  match entries s !! key with
  | Some _ => Some s
  | None =>
      match queue s ++ [key] with
      | [] => Some s
      | prefetch_key :: rest =>
          let s := set_queue rest s in
          let prefetch_texture_id := Z.shiftr prefetch_key 8 in
          let prefetch_mip := Z.land prefetch_key 255 in
          let '(cursor, texture_address) := allocate_cursor (next s) TextureCache.MiB in
          let s := set_next cursor s in
          if texture_address =? 0 then Some s
          else if must_evict s TextureCache.MiB then None
          else
            let s := set_entries
                       (<[TextureCache.cache_key prefetch_texture_id prefetch_mip :=
                            (prefetch_texture_id, prefetch_mip, TextureCache.MiB, true)]>
                          (entries s)) s in
            let s := set_current (wrap64 (current s + TextureCache.MiB)) s in
            Some (set_metrics
                    (TextureCache.CacheMetrics.set_bytes_transferred
                       (wrap64 (TextureCache.CacheMetrics.bytes_transferred (metrics s)
                                + TextureCache.MiB)) (metrics s)) s)
      end
  end.

(** The three parts of [read_texture] on a summary: recording the access,
    the hit branch and the miss branch. A branch is [None] when an eviction
    would be needed or the bounds test of the memory read fails. *)
Definition record_access (s : t) (texture_id mip_level : Z) : t :=
  let s := if history s <=? Z.of_nat (length (recent s))
           then set_recent (drop 1 (recent s)) s else s in
  set_recent (recent s ++ [(texture_id, mip_level)]) s.

Definition read_hit (s : t) (prefetched : bool) : option (t * bool) :=
  let m := metrics s in
  let m := TextureCache.CacheMetrics.set_cache_hits
             (wrap64 (TextureCache.CacheMetrics.cache_hits m + 1)) m in
  let m := if prefetched
           then TextureCache.CacheMetrics.set_prefetch_hits
                  (wrap64 (TextureCache.CacheMetrics.prefetch_hits m + 1)) m
           else m in
  let s := set_metrics m s in
  let after :=
    if smart s then
      match TextureCache.predicted_prefetch (to_pattern <$> recent s) with
      | Some (t', m') => prefetch_texture s t' m'
      | None => Some s
      end
    else Some s in
  (fun s' => (s', true)) <$> after.

Definition read_miss (s : t) (texture_id mip_level size : Z) : option (t * bool) :=
  let m := metrics s in
  let s := set_metrics
             (TextureCache.CacheMetrics.set_cache_misses
                (wrap64 (TextureCache.CacheMetrics.cache_misses m + 1)) m) s in
  let texture_size := Z.max size TextureCache.MiB in
  let '(cursor, texture_address) := allocate_cursor (next s) texture_size in
  let s := set_next cursor s in
  if texture_address =? 0 then Some (s, false)
  else if negb (wrap64 (texture_address + texture_size) <=? MemoryHierarchy.vram_size)
  then None
  else if must_evict s texture_size then None
  else
    let s := set_entries
               (<[TextureCache.cache_key texture_id mip_level :=
                    (texture_id, mip_level, texture_size, false)]> (entries s)) s in
    let s := set_current (wrap64 (current s + texture_size)) s in
    Some (set_metrics
            (TextureCache.CacheMetrics.set_bytes_transferred
               (wrap64 (TextureCache.CacheMetrics.bytes_transferred (metrics s)
                        + texture_size)) (metrics s)) s,
          true).

(** [read_texture] on a summary, for a buffer of [size] bytes. *)
Definition read_texture (s : t) (texture_id mip_level offset size : Z) : option (t * bool) :=
  let s := record_access s texture_id mip_level in
  match entries s !! TextureCache.cache_key texture_id mip_level with
  | Some e =>
      if wrap64 (offset + size) <=? entry_size e
      then read_hit s (entry_prefetched e)
      else read_miss s texture_id mip_level size
  | None => read_miss s texture_id mip_level size
  end.

(** A run of reads on a summary: the buffers are given by their sizes. *)
Fixpoint reads (s : t) (l : list (Z * Z * Z * Z)) : option t :=
  match l with
  | [] => Some s
  | (texture_id, mip_level, offset, size) :: rest =>
      match read_texture s texture_id mip_level offset size with
      | Some (s', _) => reads s' rest
      | None => None
      end
  end.

End Summary.

(** ** TextureCache *)

Section TextureCacheVocabulary.

Import TextureCache.

(** A sequence of reads given by its arguments, as operations and as the
    sizes a summary works with. *)
Definition read_ops (l : list (Z * Z * Z * list byte)) : list op :=
  (fun '(texture_id, mip_level, offset, buf) => ReadTexture texture_id mip_level offset buf)
    <$> l.

Definition read_sizes (l : list (Z * Z * Z * list byte)) : list (Z * Z * Z * Z) :=
  (fun '(texture_id, mip_level, offset, buf) =>
     (texture_id, mip_level, offset, Z.of_nat (length buf))) <$> l.

(** A concrete environment for closed runs: the clock advances by one
    millisecond per reading, and [logf_model] is the first-order value
    [x - 1] of the logarithm. The runs below evict nothing, so no score is
    ever computed in them. *)
Definition steady_clock (n : nat) : Z := 1000000 * Z.of_nat n.
Definition logf_model (x : spec_float) : spec_float := b32_sub x (b32_of_Z 1).

Definition buf64 : list byte := replicate 64 x00.

(** A newly constructed and initialised cache of 256 MiB over a new memory
    hierarchy. *)
Definition fresh (now : nat -> Z) (perf_monitor : option PerformanceMonitor.t) : t :=
  new now 256 MemoryHierarchy.new perf_monitor.

(** The summaries of the specification's mip walk after two and after three
    reads. *)
Definition mip_walk_summary_2 : Summary.t :=
  Summary.mk
    (<[cache_key 42 1 := (42, 1, MiB, false)]>
       (<[cache_key 42 0 := (42, 0, MiB, false)]> ∅))
    (2 * MiB) (256 * MiB) [(42, 0); (42, 1)] 1000 (0x10000000 + 2 * MiB) true []
    (CacheMetrics.mk 0 2 0 0 (S754_zero false) (S754_zero false) (2 * MiB)
       (S754_zero false) 0).

Definition mip_walk_summary_3 : Summary.t :=
  Summary.mk
    (<[cache_key 42 2 := (42, 2, MiB, true)]>
       (<[cache_key 42 1 := (42, 1, MiB, false)]>
          (<[cache_key 42 0 := (42, 0, MiB, false)]> ∅)))
    (3 * MiB) (256 * MiB) [(42, 0); (42, 1); (42, 1)] 1000 (0x10000000 + 3 * MiB) true []
    (CacheMetrics.mk 1 2 0 0 (S754_zero false) (S754_zero false) (3 * MiB)
       (S754_zero false) 0).

(** The access history as [read_texture] hands it to the predictor. *)
Definition history_after (c : t) (pattern : AccessPattern.t) : list AccessPattern.t :=
  (if max_pattern_history_ c <=? Z.of_nat (length (recent_accesses_ c))
   then drop 1 (recent_accesses_ c) else recent_accesses_ c) ++ [pattern].

(** The predictor issues no prefetch of a key that is not resident: smart
    prefetching is off, or the history gives no prediction, or the predicted
    key is resident already. *)
Definition prefetch_idle (c : t) (history : list AccessPattern.t) : Prop :=
  smart_prefetching_enabled_ c = false
  \/ match predicted_prefetch history with
     | Some (texture_id, mip_level) =>
         is_Some (cache_entries_ c !! cache_key texture_id mip_level)
     | None => True
     end.

(** The update of the access metadata of an entry that is found. *)
Definition touch (timestamp : Z) (e : TextureCacheEntry.t) : TextureCacheEntry.t :=
  TextureCacheEntry.set_access_count (wrap32 (TextureCacheEntry.access_count e + 1))
    (TextureCacheEntry.set_last_access_time timestamp e).

(** The members of the cache that a hit leaves alone, apart from the entries. *)
Definition same_configuration (c c' : t) : Prop :=
  memory_ c' = memory_ c
  /\ prefetch_queue_ c' = prefetch_queue_ c
  /\ max_cache_size_bytes_ c' = max_cache_size_bytes_ c
  /\ prefetch_distance_ c' = prefetch_distance_ c
  /\ smart_prefetching_enabled_ c' = smart_prefetching_enabled_ c
  /\ adaptive_caching_enabled_ c' = adaptive_caching_enabled_ c
  /\ max_pattern_history_ c' = max_pattern_history_ c
  /\ last_optimization_time_ c' = last_optimization_time_ c
  /\ prefetch_aggressiveness_ c' = prefetch_aggressiveness_ c
  /\ eviction_threshold_ c' = eviction_threshold_ c
  /\ optimization_interval_ms_ c' = optimization_interval_ms_ c.

(** What the eviction and prefetch machinery leaves alone: the queue, the
    access history and its bound, the two access counters and the capacity. *)
Definition ledger (c : t) : list Z * list AccessPattern.t * Z * Z * Z * Z :=
  (prefetch_queue_ c, recent_accesses_ c, max_pattern_history_ c,
   CacheMetrics.cache_hits (metrics_ c), CacheMetrics.cache_misses (metrics_ c),
   max_cache_size_bytes_ c).

(** The number of [read_texture] calls in a sequence of operations. *)
Definition reads_of (ops : list op) : Z :=
  Z.of_nat (length (List.filter (fun o => match o with
                                          | ReadTexture _ _ _ _ => true
                                          | _ => false
                                          end) ops)).

(** The bookkeeping every operation keeps: the prefetch queue is empty
    between calls, the access history is within its bound of 1000, and the
    hit and miss counters add up to [n] without wrap-around. *)
Definition books_balanced (n : Z) (c : t) : Prop :=
  prefetch_queue_ c = []
  /\ max_pattern_history_ c = 1000
  /\ Z.of_nat (length (recent_accesses_ c)) <= 1000
  /\ 0 <= CacheMetrics.cache_hits (metrics_ c)
  /\ 0 <= CacheMetrics.cache_misses (metrics_ c)
  /\ CacheMetrics.cache_hits (metrics_ c) + CacheMetrics.cache_misses (metrics_ c) = n.

End TextureCacheVocabulary.

(** ** ShaderCore and GPUCore *)

(** The instructions executed so far, added up over the cores. *)
Definition instructions_executed (cores : list ShaderCore.t) : Z :=
  foldr (fun core acc => ShaderCore.instruction_count_ core + acc) 0 cores.

(** The cycles one instruction costs on top of the cycle every instruction
    takes: 10 for LOAD, 5 for STORE. *)
Definition memory_penalty (opcode : Z) : Z :=
  if opcode =? 3 then 10 else if opcode =? 4 then 5 else 0.

(** The cycles one instruction takes: none when it is empty, else one plus
    the memory penalty of its opcode. *)
Definition cycles_of (instruction : list Z) : Z :=
  match instruction with
  | [] => 0
  | opcode :: _ => 1 + memory_penalty opcode
  end.

(** The cycles one thread of a program takes. *)
Definition program_cycles (program : list Z) : Z :=
  foldr (fun instruction acc => cycles_of instruction + acc) 0 (GPUCore.fetch program).

(** A core between calls: not busy, with a 64-bit instruction counter. *)
Definition core_at_rest (core : ShaderCore.t) : Prop :=
  ShaderCore.busy_ core = false /\ 0 <= ShaderCore.instruction_count_ core < 2 ^ 64.


(** Unfolds the field updates of a cache state and of a summary. *)
Ltac fields :=
  cbn [TextureCache.memory_ TextureCache.perf_monitor_ TextureCache.cache_entries_
       TextureCache.prefetch_queue_ TextureCache.max_cache_size_bytes_
       TextureCache.current_cache_size_bytes_ TextureCache.prefetch_distance_
       TextureCache.smart_prefetching_enabled_ TextureCache.adaptive_caching_enabled_
       TextureCache.recent_accesses_ TextureCache.max_pattern_history_
       TextureCache.metrics_ TextureCache.last_optimization_time_
       TextureCache.prefetch_aggressiveness_ TextureCache.eviction_threshold_
       TextureCache.optimization_interval_ms_ TextureCache.clock_reads_
       TextureCache.set_memory TextureCache.set_perf_monitor
       TextureCache.set_cache_entries TextureCache.set_prefetch_queue
       TextureCache.set_current_cache_size_bytes TextureCache.set_prefetch_distance
       TextureCache.set_smart_prefetching_enabled
       TextureCache.set_adaptive_caching_enabled TextureCache.set_recent_accesses
       TextureCache.set_metrics TextureCache.set_last_optimization_time
       TextureCache.set_prefetch_aggressiveness TextureCache.set_eviction_threshold
       TextureCache.set_clock_reads TextureCache.on_metrics TextureCache.on_perf
       TextureCache.tick fst snd
       Summary.of_cache Summary.entries Summary.current Summary.capacity Summary.recent
       Summary.history Summary.next Summary.smart Summary.queue Summary.metrics
       Summary.set_entries Summary.set_current Summary.set_recent Summary.set_next
       Summary.set_queue Summary.set_metrics] in *.

(** * Properties *)

(** ** GPUCache: the counters *)

Section GPUCacheCounters.

Import GPUCache.

Lemma find_line_counters (c : t) (a : Z) : same_counters c (snd (find_line c a)).
Proof.
  unfold find_line, same_counters.
  destruct (cache_sets_ c !! _) as [set|]; [|simpl; tauto].
  destruct (find_way set _) as [w|]; [|simpl; tauto].
  destruct (line_at c _); simpl; tauto.
Qed.

Lemma allocate_line_counters (c : t) (a : Z) : same_counters c (snd (allocate_line c a)).
Proof.
  unfold allocate_line, same_counters.
  destruct (cache_sets_ c !! _) as [set|]; [|simpl; tauto].
  destruct (find_free set) as [w|]; [simpl; tauto|].
  destruct (min_element lru_less set); simpl; tauto.
Qed.

(** What [read] does to the counters: one more access, and one more hit or
    one more miss, on 64-bit values. *)
Lemma read_counters (c : t) (a : Z) (buf : list byte) :
  let c' := fst (fst (read c a buf)) in
  access_count_ c' = wrap64 (access_count_ c + 1)
  /\ ((hit_count_ c' = wrap64 (hit_count_ c + 1) /\ miss_count_ c' = miss_count_ c)
      \/ (hit_count_ c' = hit_count_ c /\ miss_count_ c' = wrap64 (miss_count_ c + 1))).
Proof.
  unfold read.
  pose proof (find_line_counters (set_access_count (wrap64 (access_count_ c + 1)) c) a)
    as (Hh & Hm & Ha).
  destruct (find_line _ a) as [found c1]. simpl in Hh, Hm, Ha.
  destruct found as [l|]; simpl.
  - destruct (line_at _ l); simpl; rewrite Hh, Hm, Ha; auto.
  - rewrite Hh, Hm, Ha; auto.
Qed.

Lemma write_counters (c : t) (a : Z) (d : list byte) :
  let c' := fst (write c a d) in
  access_count_ c' = wrap64 (access_count_ c + 1)
  /\ ((hit_count_ c' = wrap64 (hit_count_ c + 1) /\ miss_count_ c' = miss_count_ c)
      \/ (hit_count_ c' = hit_count_ c /\ miss_count_ c' = wrap64 (miss_count_ c + 1))).
Proof.
  unfold write.
  pose proof (find_line_counters (set_access_count (wrap64 (access_count_ c + 1)) c) a)
    as (Hh & Hm & Ha).
  destruct (find_line _ a) as [found c1]. simpl in Hh, Hm, Ha.
  destruct found as [l|].
  - simpl. destruct (line_at _ l); simpl; rewrite Hh, Hm, Ha; auto.
  - pose proof (allocate_line_counters c1 a) as (Hh' & Hm' & Ha').
    destruct (allocate_line c1 a) as [target c2]. simpl in Hh', Hm', Ha'.
    destruct target as [l|]; simpl.
    + destruct (line_at _ l); simpl; rewrite Hh', Hm', Ha', Hh, Hm, Ha; auto.
    + rewrite Hh', Hm', Ha', Hh, Hm, Ha; auto.
Qed.

Lemma invalidate_counters (c : t) (a : Z) : same_counters c (invalidate c a).
Proof.
  unfold invalidate.
  pose proof (find_line_counters c a) as H.
  destruct (find_line c a) as [found c1]. simpl in H.
  destruct found as [l|]; [|exact H].
  destruct (line_at c1 l); [|exact H].
  exact H.
Qed.

Lemma flush_counters (c : t) : same_counters c (flush c).
Proof. unfold same_counters. simpl. tauto. Qed.

Lemma wrap64_succ_l (x y : Z) : wrap64 (wrap64 (x + 1) + y) = wrap64 (wrap64 (x + y) + 1).
Proof.
  unfold wrap64. rewrite Zplus_mod_idemp_l, Zplus_mod_idemp_l. f_equal. lia.
Qed.

Lemma wrap64_succ_r (x y : Z) : wrap64 (x + wrap64 (y + 1)) = wrap64 (wrap64 (x + y) + 1).
Proof.
  unfold wrap64. rewrite Zplus_mod_idemp_r, Zplus_mod_idemp_l. f_equal. lia.
Qed.

Lemma step_counters_balanced (c : t) (o : op) :
  counters_balanced c -> counters_balanced (step c o).
Proof.
  unfold counters_balanced. intros H.
  destruct o as [a buf|a d|a|]; simpl.
  - destruct (read_counters c a buf) as (Ha & [[Hh Hm]|[Hh Hm]]);
      rewrite Ha, Hh, Hm, <- H; [apply wrap64_succ_l|apply wrap64_succ_r].
  - destruct (write_counters c a d) as (Ha & [[Hh Hm]|[Hh Hm]]);
      rewrite Ha, Hh, Hm, <- H; [apply wrap64_succ_l|apply wrap64_succ_r].
  - destruct (invalidate_counters c a) as (Hh & Hm & Ha). rewrite Hh, Hm, Ha. exact H.
  - exact H.
Qed.

Lemma run_counters_balanced (ops : list op) (c : t) :
  counters_balanced c -> counters_balanced (run c ops).
Proof.
  revert c. induction ops as [|o ops IH]; intros c H; [exact H|].
  simpl. apply IH, step_counters_balanced, H.
Qed.

Lemma wrap64_small (z : Z) : 0 <= z < 2 ^ 64 -> wrap64 z = z.
Proof. intros H. unfold wrap64. apply Z.mod_small, H. Qed.

Lemma step_counters_exact (n : Z) (c : t) (o : op) :
  n + 1 < 2 ^ 64 -> counters_exact n c -> counters_exact (n + 1) (step c o).
Proof.
  unfold counters_exact. intros Hn (H0 & H1 & H2 & H3).
  destruct o as [a buf|a d|a|]; simpl.
  - destruct (read_counters c a buf) as (Ha & [[Hh Hm]|[Hh Hm]]);
      rewrite Ha, Hh, Hm, !wrap64_small by lia; lia.
  - destruct (write_counters c a d) as (Ha & [[Hh Hm]|[Hh Hm]]);
      rewrite Ha, Hh, Hm, !wrap64_small by lia; lia.
  - destruct (invalidate_counters c a) as (Hh & Hm & Ha). rewrite Hh, Hm, Ha. lia.
  - lia.
Qed.

Lemma run_counters_exact (ops : list op) (n : Z) (c : t) :
  n + Z.of_nat (length ops) < 2 ^ 64 ->
  counters_exact n c -> counters_exact (n + Z.of_nat (length ops)) (run c ops).
Proof.
  revert n c. induction ops as [|o ops IH]; intros n c Hn H.
  - simpl. rewrite Z.add_0_r. exact H.
  - cbn [length] in *. rewrite Nat2Z.inj_succ in *.
    replace (n + Z.succ (Z.of_nat (length ops))) with (n + 1 + Z.of_nat (length ops)) by lia.
    simpl. apply IH; [lia|]. apply step_counters_exact; [lia|exact H].
Qed.

(** C8. For every cache geometry and every sequence of [read], [write],
    [invalidate] and [flush] on a newly constructed GPUCache, the state after
    the sequence (hence after each operation of it) satisfies
    [hits + misses == accesses]: on the 64-bit counters as the code holds
    them, and as an equation between integers as long as fewer than 2^64
    operations were run. *)
Theorem GPUCache_hits_plus_misses_eq_accesses
    (cache_size line_size associativity : Z) (ops : list op) :
  let c := run (new cache_size line_size associativity) ops in
  wrap64 (hit_count_ c + miss_count_ c) = access_count_ c
  /\ (Z.of_nat (length ops) < 2 ^ 64 -> hit_count_ c + miss_count_ c = access_count_ c).
Proof.
  split.
  - apply run_counters_balanced. reflexivity.
  - intros Hlen.
    pose proof (run_counters_exact ops 0 (new cache_size line_size associativity)) as H.
    destruct H as (_ & _ & H & _); [lia|unfold counters_exact; simpl; lia|exact H].
Qed.

(** C8 at a concrete run: one of each operation on the L1 geometry. *)
Lemma GPUCache_hits_plus_misses_eq_accesses_witness :
  let c := run (new (32 * 1024) 64 4)
               [Write 128 [x01; x02]; Read 128 [x00; x00]; Read 4096 [x00];
                Invalidate 128; Flush] in
  wrap64 (hit_count_ c + miss_count_ c) = access_count_ c
  /\ hit_count_ c + miss_count_ c = access_count_ c
  /\ access_count_ c = 3.
Proof.
  pose proof (GPUCache_hits_plus_misses_eq_accesses (32 * 1024) 64 4
                [Write 128 [x01; x02]; Read 128 [x00; x00]; Read 4096 [x00];
                 Invalidate 128; Flush]) as [H1 H2].
  split; [exact H1|]. split; [apply H2; simpl; lia|].
  vm_compute. reflexivity.
Defined.

End GPUCacheCounters.

(** ** MemoryHierarchy: runs on a new hierarchy *)

Section MemoryHierarchyRuns.

Import MemoryHierarchy.

(** C2. The round trip [write(a, d); read(a, buf)] does not give [buf == d]
    on the code in two situations.
    (1) [d] crosses an L1 line: 65 bytes written at the line-aligned address
    0x10000000 and read back at once; the read is an L1 hit that delivers the
    64 bytes of the line, reports success, and leaves the 65th byte of the
    buffer as it was.
    (2) unrelated accesses intervene: 4 bytes are written at 0x10000000, four
    one-byte reads at 0x10000000 + k * 8192 (k = 1..4, the same L1 set) evict
    the L1 line, a one-byte read at 0x10000008 is served by L2 and installs a
    zero-filled L1 line holding that one byte, and the read at 0x10000000 is
    then an L1 hit on the zero bytes. *)
Theorem MemoryHierarchy_write_read_round_trip_fails :
  (let a := 0x10000000 in
   let d := replicate 65 xa5 in
   let '(m, written) := write new a d in
   let '(_, ok, buf) := read m a (replicate 65 x00) in
   a + Z.of_nat (length d) <= vram_size /\ written = true /\ ok = true
   /\ buf = replicate 64 xa5 ++ [x00] /\ buf <> d)
  /\
  (let a := 0x10000000 in
   let d := [x01; x02; x03; x04] in
   let m := run new [Write a d;
                     Read (a + 8192) [x00]; Read (a + 2 * 8192) [x00];
                     Read (a + 3 * 8192) [x00]; Read (a + 4 * 8192) [x00];
                     Read (a + 8) [x00]] in
   let '(_, ok, buf) := read m a [xee; xee; xee; xee] in
   ok = true /\ buf = [x00; x00; x00; x00] /\ buf <> d).
Proof.
  split; vm_compute; repeat split; try discriminate; intros H; discriminate H.
Qed.

(** C4. A line that covers part of a deallocated range survives
    [deallocate]. Two allocations of 48 and 32 bytes give the ranges
    [0x10000000, 0x10000030) and [0x10000030, 0x10000050). One byte written at
    0x10000040, inside the second range, fills the L1 line based at
    0x10000040. [deallocate(0x10000030)] visits the single address
    0x10000030, whose L1 line is based at 0x10000000, so the line at
    0x10000040 stays valid and the next read of 0x10000040 is an L1 hit that
    returns the byte written before the deallocation. *)
Theorem MemoryHierarchy_deallocate_leaves_stale_line :
  let '(m, first) := allocate new 48 in
  let '(m, second) := allocate m 32 in
  let '(m, _) := write m (second + 16) [xab] in
  let m := deallocate m second in
  let hits_before := GPUCache.get_hit_count (l1_cache_ m) in
  let '(m, ok, buf) := read m (second + 16) [x00] in
  first = 0x10000000 /\ second = 0x10000030
  /\ second <= second + 16 < second + 32
  /\ allocations_ m !! second = None
  /\ ok = true /\ buf = [xab]
  /\ GPUCache.get_hit_count (l1_cache_ m) = hits_before + 1.
Proof. vm_compute. repeat split; congruence. Qed.

(** C5. [allocate] is not strictly increasing on the code. Two requests of
    size 0 on a new hierarchy both succeed with the address 0x10000000. A
    request of 2^64 - 16 bytes passes the bounds test, because
    [address + size] wraps to 0x0FFFFFF0, and moves the next address down, so
    that the following request of 16 bytes succeeds at 0x0FFFFFF0, below the
    address returned before it. *)
Theorem MemoryHierarchy_allocate_not_strictly_increasing :
  (let '(m, first) := allocate new 0 in
   let '(_, second) := allocate m 0 in
   first = 0x10000000 /\ second = 0x10000000)
  /\
  (let '(m, first) := allocate new (2 ^ 64 - 16) in
   let '(_, second) := allocate m 16 in
   first = 0x10000000 /\ second = 0x0FFFFFF0 /\ second <> 0 /\ second < first).
Proof. split; vm_compute; repeat split; congruence. Qed.

End MemoryHierarchyRuns.

(** ** GPUCache: what a write leaves for the next read *)

Section GPUCacheWriteRead.

Import GPUCache.

Lemma find_way_Some (set : list (option CacheLine)) (base : Z) (w : nat) :
  find_way set base = Some w ->
  exists line, set !! w = Some (Some line) /\ valid line = true /\ address line = base.
Proof.
  revert w. induction set as [|slot rest IH]; intros w H; [discriminate|].
  simpl in H.
  destruct slot as [line|].
  - destruct (valid line && (address line =? base)) eqn:E.
    + inversion H; subst. apply andb_prop in E as [E1 E2]. exists line.
      split; [reflexivity|]. split; [exact E1|lia].
    + destruct (find_way rest base) as [w'|]; [|discriminate].
      inversion H; subst. apply (IH w' eq_refl).
  - destruct (find_way rest base) as [w'|]; [|discriminate].
    inversion H; subst. apply (IH w' eq_refl).
Qed.

Lemma find_way_insert_found (set : list (option CacheLine)) (base : Z) (w : nat)
    (line : CacheLine) :
  find_way set base = Some w -> valid line = true -> address line = base ->
  find_way (<[w := Some line]> set) base = Some w.
Proof.
  intros H Hv Ha. revert w H.
  induction set as [|slot rest IH]; intros w H; [discriminate|].
  simpl in H.
  destruct (match slot with Some l => valid l && (address l =? base) | None => false end) eqn:E.
  - inversion H; subst. simpl. rewrite Hv, Z.eqb_refl. reflexivity.
  - destruct (find_way rest base) as [w'|] eqn:E'; [|discriminate].
    inversion H; subst. simpl. rewrite E. rewrite (IH w' eq_refl). reflexivity.
Qed.

Lemma find_way_insert_fresh (set : list (option CacheLine)) (base : Z) (w : nat)
    (line : CacheLine) :
  find_way set base = None -> (w < length set)%nat ->
  valid line = true -> address line = base ->
  find_way (<[w := Some line]> set) base = Some w.
Proof.
  intros H Hw Hv Ha. revert w Hw H.
  induction set as [|slot rest IH]; intros w Hw H; [simpl in Hw; lia|].
  simpl in H.
  destruct (match slot with Some l => valid l && (address l =? base) | None => false end) eqn:E;
    [discriminate|].
  destruct (find_way rest base) eqn:E'; [discriminate|].
  destruct w as [|w]; simpl.
  - rewrite Hv, Ha, Z.eqb_refl. reflexivity.
  - rewrite E. rewrite IH; [reflexivity|simpl in Hw; lia|reflexivity].
Qed.

Lemma find_free_lt (set : list (option CacheLine)) (w : nat) :
  find_free set = Some w -> (w < length set)%nat.
Proof.
  revert w. induction set as [|slot rest IH]; intros w H; [discriminate|].
  simpl in H.
  destruct (match slot with Some l => negb (valid l) | None => true end).
  - inversion H; subst. simpl. lia.
  - destruct (find_free rest) as [w'|]; [|discriminate].
    inversion H; subst. simpl. specialize (IH w' eq_refl). lia.
Qed.

Lemma min_element_from_lt {A : Type} (comp : A -> A -> bool) (l : list A)
    (best_i : nat) (best : A) (i : nat) :
  (best_i < i)%nat -> (min_element_from comp best_i best i l < i + length l)%nat.
Proof.
  revert best_i best i. induction l as [|x rest IH]; intros best_i best i H; simpl.
  - lia.
  - destruct (comp x best).
    + specialize (IH i x (S i)). lia.
    + specialize (IH best_i best (S i)). lia.
Qed.

Lemma min_element_lt {A : Type} (comp : A -> A -> bool) (l : list A) (w : nat) :
  min_element comp l = Some w -> (w < length l)%nat.
Proof.
  destruct l as [|x rest]; [discriminate|]. simpl. intros H. inversion H; subst.
  pose proof (min_element_from_lt comp rest 0 x 1). lia.
Qed.

Lemma min_element_nonempty {A : Type} (comp : A -> A -> bool) (l : list A) :
  l <> [] -> exists w, min_element comp l = Some w.
Proof. destruct l; [congruence|]. intros _. eexists. reflexivity. Qed.

Lemma sets_store_line (c : t) (si w : nat) (line : CacheLine)
    (set : list (option CacheLine)) :
  cache_sets_ c !! si = Some set ->
  cache_sets_ (store_line c (si, w) line) !! si = Some (<[w := Some line]> set).
Proof.
  intros H. unfold store_line. simpl.
  rewrite list_lookup_alter_eq, H. reflexivity.
Qed.


Lemma line_at_store_line (c : t) (si w : nat) (line : CacheLine)
    (set : list (option CacheLine)) :
  cache_sets_ c !! si = Some set -> (w < length set)%nat ->
  line_at (store_line c (si, w) line) (si, w) = Some line.
Proof.
  intros H Hw. unfold line_at. cbn [fst snd].
  rewrite (sets_store_line c si w line set H).
  rewrite list_lookup_insert_eq by exact Hw. reflexivity.
Qed.

Lemma line_at_Some (c : t) (si w : nat) (line : CacheLine) :
  line_at c (si, w) = Some line ->
  exists set, cache_sets_ c !! si = Some set /\ set !! w = Some (Some line).
Proof.
  unfold line_at. cbn [fst snd]. intros H.
  destruct (cache_sets_ c !! si) as [set|]; [|discriminate].
  destruct (set !! w) as [slot|] eqn:E; [|discriminate].
  exists set. subst slot. split; [reflexivity|exact E].
Qed.

Lemma shaped_line_at (ls ns : Z) (c : t) (l : loc) (line : CacheLine) :
  shaped ls ns c -> line_at c l = Some line -> length (data line) = Z.to_nat ls.
Proof.
  intros (_ & _ & _ & _ & _ & Hall) H. destruct l as [si w].
  apply line_at_Some in H as (set & Hs & Hw).
  rewrite Forall_lookup in Hall. destruct (Hall si set Hs) as [_ Hset].
  rewrite Forall_lookup in Hset. exact (Hset w _ Hw line eq_refl).
Qed.

Lemma shaped_store_line (ls ns : Z) (c : t) (l : loc) (line : CacheLine) :
  shaped ls ns c -> length (data line) = Z.to_nat ls -> shaped ls ns (store_line c l line).
Proof.
  intros (H1 & H2 & H3 & H4 & H5 & H6) Hlen.
  unfold shaped, store_line, set_cache_sets. cbn [line_size_ num_sets_ cache_sets_ fst snd].
  split; [exact H1|]. split; [exact H2|]. split; [exact H3|]. split; [exact H4|]. split.
  - rewrite length_alter. exact H5.
  - apply Forall_alter; [exact H6|].
    intros set _ [Hne Hset]. split.
    + intros E. apply Hne. apply (f_equal length) in E.
      rewrite length_insert in E. destruct set; [reflexivity|discriminate].
    + apply Forall_insert; [exact Hset|]. intros line' E. inversion E; subst. exact Hlen.
Qed.

Lemma shaped_counters (ls ns : Z) (c : t) (n : Z) :
  shaped ls ns c ->
  shaped ls ns (set_access_count n c) /\ shaped ls ns (set_hit_count n c)
  /\ shaped ls ns (set_miss_count n c).
Proof. intros H. repeat split; apply H. Qed.

Lemma shaped_find_line (ls ns : Z) (c : t) (a : Z) :
  shaped ls ns c -> shaped ls ns (snd (find_line c a)).
Proof.
  intros H. unfold find_line.
  destruct (cache_sets_ c !! _) as [set|]; [|exact H].
  destruct (find_way set _) as [w|]; [|exact H].
  destruct (line_at c _) as [line|] eqn:E; [|exact H].
  simpl. apply shaped_store_line; [exact H|].
  simpl. exact (shaped_line_at ls ns c _ line H E).
Qed.

Lemma shaped_allocate_line (ls ns : Z) (c : t) (a : Z) :
  shaped ls ns c -> shaped ls ns (snd (allocate_line c a)).
Proof.
  intros H. unfold allocate_line.
  assert (Hfresh : length (data (set_access_time (access_count_ c)
             (set_valid true (CacheLine_new (line_base c a) (line_size_ c)))))
           = Z.to_nat ls).
  { pose proof H as (_ & _ & Hl & _). simpl. rewrite length_replicate, Hl. reflexivity. }
  destruct (cache_sets_ c !! _) as [set|]; [|exact H].
  destruct (find_free set) as [w|]; [apply shaped_store_line; assumption|].
  destruct (min_element lru_less set) as [w|]; [apply shaped_store_line; assumption|exact H].
Qed.

Lemma length_memcpy_into (dst src : list byte) (pos : nat) :
  (pos + length src <= length dst)%nat -> length (memcpy_into dst pos src) = length dst.
Proof.
  intros H. unfold memcpy_into.
  rewrite !length_app, length_take, length_drop. lia.
Qed.

Lemma copy_size_bounds (ls ns : Z) (c : t) (a size : Z) :
  shaped ls ns c -> 0 <= size ->
  copy_size c a size = Z.min size (ls - a mod ls)
  /\ 0 <= a mod ls < ls /\ 0 <= copy_size c a size <= ls - a mod ls.
Proof.
  intros ([Hls0 Hls1] & Hns & Hl & _) Hsize. unfold copy_size. rewrite Hl.
  pose proof (Z.mod_pos_bound a ls Hls0) as Hm.
  rewrite wrap64_small by lia. lia.
Qed.


Lemma shaped_new (cache_size line_size associativity : Z) :
  0 < line_size -> 0 < associativity -> line_size * associativity < 2 ^ 64 ->
  line_size * associativity <= cache_size ->
  shaped line_size (cache_size / (line_size * associativity))
         (new cache_size line_size associativity).
Proof.
  intros Hl Ha Hb Hc. unfold shaped, new. cbn [line_size_ num_sets_ cache_sets_].
  rewrite wrap64_small by lia.
  assert (0 < cache_size / (line_size * associativity)) by (apply Z.div_str_pos; lia).
  repeat split; try lia.
  - rewrite length_replicate. reflexivity.
  - apply Forall_replicate. split.
    + intros E. apply (f_equal length) in E. rewrite length_replicate in E. simpl in E. lia.
    + apply Forall_replicate. intros line E. discriminate E.
Qed.

Lemma shaped_read (ls ns : Z) (c : t) (a : Z) (buf : list byte) :
  shaped ls ns c -> shaped ls ns (fst (fst (read c a buf))).
Proof.
  intros H. unfold read.
  pose proof (shaped_find_line ls ns (set_access_count (wrap64 (access_count_ c + 1)) c) a
                (proj1 (shaped_counters ls ns c _ H))) as H1.
  destruct (find_line _ a) as [found c1]. cbn [snd] in H1.
  destruct found as [l|].
  - destruct (line_at _ l); cbn [fst]; apply shaped_counters, H1.
  - cbn [fst]. apply shaped_counters, H1.
Qed.

Lemma shaped_write (ls ns : Z) (c : t) (a : Z) (d : list byte) :
  shaped ls ns c -> shaped ls ns (fst (write c a d)).
Proof.
  intros H. unfold write.
  pose proof (shaped_find_line ls ns (set_access_count (wrap64 (access_count_ c + 1)) c) a
                (proj1 (shaped_counters ls ns c _ H))) as H1.
  destruct (find_line _ a) as [found c1]. cbn [snd] in H1.
  assert (Hfinal : forall c2 l, shaped ls ns c2 ->
            shaped ls ns (fst (match line_at c2 l with
              | Some line =>
                  (store_line c2 l
                     (set_dirty true
                        (set_data (memcpy_into (data line) (Z.to_nat (a mod line_size_ c2))
                           (take (Z.to_nat (copy_size c2 a (Z.of_nat (length d)))) d)) line)),
                   true)
              | None => (c2, true) end))).
  { intros c2 l H2. destruct (line_at c2 l) as [line|] eqn:E; [|exact H2].
    cbn [fst]. apply shaped_store_line; [exact H2|]. cbn [data set_dirty set_data].
    pose proof (shaped_line_at ls ns c2 l line H2 E) as Hlen.
    destruct (copy_size_bounds ls ns c2 a (Z.of_nat (length d)) H2 ltac:(lia)) as (_ & Hm & Hn).
    pose proof H2 as (_ & _ & Hl & _). rewrite Hl.
    rewrite length_memcpy_into; [exact Hlen|].
    rewrite length_take, Hlen. lia. }
  destruct found as [l|].
  - apply Hfinal, shaped_counters, H1.
  - pose proof (shaped_allocate_line ls ns c1 a H1) as H2.
    destruct (allocate_line c1 a) as [target c2]. cbn [snd] in H2.
    destruct target as [l|]; [|exact (proj2 (proj2 (shaped_counters ls ns c2 _ H2)))].
    apply Hfinal, shaped_counters, H2.
Qed.

Lemma shaped_invalidate (ls ns : Z) (c : t) (a : Z) :
  shaped ls ns c -> shaped ls ns (invalidate c a).
Proof.
  intros H. unfold invalidate.
  pose proof (shaped_find_line ls ns c a H) as H1.
  destruct (find_line c a) as [found c1]. cbn [snd] in H1.
  destruct found as [l|]; [|exact H1].
  destruct (line_at c1 l) as [line|] eqn:E; [|exact H1].
  apply shaped_store_line; [exact H1|]. exact (shaped_line_at ls ns c1 l line H1 E).
Qed.

Lemma shaped_flush (ls ns : Z) (c : t) : shaped ls ns c -> shaped ls ns (flush c).
Proof.
  intros (H1 & H2 & H3 & H4 & H5 & H6). unfold shaped, flush, set_cache_sets.
  cbn [line_size_ num_sets_ cache_sets_].
  split; [exact H1|]. split; [exact H2|]. split; [exact H3|]. split; [exact H4|]. split.
  - rewrite length_map. exact H5.
  - apply List.Forall_map. eapply Forall_impl; [exact H6|].
    intros set [Hne Hset]. split.
    + destruct set; [congruence|discriminate].
    + apply List.Forall_map. eapply Forall_impl; [exact Hset|].
      intros slot Hslot line E. destruct slot as [line0|]; [|discriminate].
      inversion E; subst. exact (Hslot line0 eq_refl).
Qed.


Lemma set_index_in_range (ls ns : Z) (c : t) (a : Z) :
  shaped ls ns c ->
  exists set, cache_sets_ c !! Z.to_nat (get_set_index c a) = Some set /\ set <> [].
Proof.
  intros (Hls & Hns & Hl & Hn & Hlen & Hall).
  assert (Hlt : (Z.to_nat (get_set_index c a) < length (cache_sets_ c))%nat).
  { unfold get_set_index. rewrite Hn, Hlen.
    pose proof (Z.mod_pos_bound (a / line_size_ c) ns Hns). lia. }
  destruct (lookup_lt_is_Some_2 _ _ Hlt) as [set Hset].
  exists set. split; [exact Hset|].
  rewrite Forall_lookup in Hall. exact (proj1 (Hall _ _ Hset)).
Qed.

Lemma find_line_spec (ls ns : Z) (c : t) (a : Z) :
  shaped ls ns c ->
  match find_line c a with
  | (Some l, c') =>
      exists set w line,
        l = (Z.to_nat (get_set_index c a), w)
        /\ cache_sets_ c !! Z.to_nat (get_set_index c a) = Some set
        /\ find_way set (line_base c a) = Some w
        /\ set !! w = Some (Some line)
        /\ c' = store_line c l (set_access_time (access_count_ c) line)
  | (None, c') =>
      c' = c
      /\ exists set, cache_sets_ c !! Z.to_nat (get_set_index c a) = Some set
                     /\ set <> [] /\ find_way set (line_base c a) = None
  end.
Proof.
  intros H. destruct (set_index_in_range ls ns c a H) as (set & Hset & Hne).
  unfold find_line. rewrite Hset.
  destruct (find_way set (line_base c a)) as [w|] eqn:Hw.
  - destruct (find_way_Some set _ w Hw) as (line & Hline & _ & _).
    unfold line_at. cbn [fst snd]. rewrite Hset, Hline.
    exists set, w, line. repeat split; assumption.
  - split; [reflexivity|]. exists set. repeat split; assumption.
Qed.

Lemma allocate_line_spec (ls ns : Z) (c : t) (a : Z) :
  shaped ls ns c ->
  exists set w,
    cache_sets_ c !! Z.to_nat (get_set_index c a) = Some set
    /\ (w < length set)%nat
    /\ allocate_line c a =
        (Some (Z.to_nat (get_set_index c a), w),
         store_line c (Z.to_nat (get_set_index c a), w)
           (set_access_time (access_count_ c)
              (set_valid true (CacheLine_new (line_base c a) (line_size_ c))))).
Proof.
  intros H. destruct (set_index_in_range ls ns c a H) as (set & Hset & Hne).
  unfold allocate_line. rewrite Hset. exists set.
  destruct (find_free set) as [w|] eqn:Hw.
  - exists w. split; [reflexivity|]. split; [exact (find_free_lt set w Hw)|reflexivity].
  - destruct (min_element_nonempty lru_less set Hne) as [w Hmin]. rewrite Hmin.
    exists w. split; [reflexivity|]. split; [exact (min_element_lt _ set w Hmin)|reflexivity].
Qed.

(** After [write c a d] the cache holds a line for [a] whose payload is an
    earlier payload of full length with the clipped data copied in. *)
Lemma write_holds (ls ns : Z) (c : t) (a : Z) (d : list byte) :
  shaped ls ns c ->
  exists line old,
    holds (fst (write c a d)) a line
    /\ length old = Z.to_nat ls
    /\ data line = memcpy_into old (Z.to_nat (a mod ls))
                     (take (Z.to_nat (Z.min (Z.of_nat (length d)) (ls - a mod ls))) d).
Proof.
  intros H.
  pose proof (proj1 (shaped_counters ls ns c (wrap64 (access_count_ c + 1)) H)) as H0.
  set (c0 := set_access_count (wrap64 (access_count_ c + 1)) c) in *.
  assert (Hcopy : forall c2, shaped ls ns c2 ->
            Z.to_nat (copy_size c2 a (Z.of_nat (length d)))
            = Z.to_nat (Z.min (Z.of_nat (length d)) (ls - a mod ls))
            /\ line_size_ c2 = ls).
  { intros c2 H2. destruct (copy_size_bounds ls ns c2 a (Z.of_nat (length d)) H2 ltac:(lia))
      as (-> & _). split; [reflexivity|apply H2]. }
  unfold write. fold c0.
  pose proof (find_line_spec ls ns c0 a H0) as Hfind.
  destruct (find_line c0 a) as [[l|] c1].
  - destruct Hfind as (set & w & line & -> & Hset & Hw & Hline & ->).
    destruct (find_way_Some set _ w Hw) as (line' & Hline' & Hvalid & Haddr).
    rewrite Hline in Hline'. inversion Hline'; subst line'; clear Hline'.
    pose proof (lookup_lt_Some _ _ _ Hline) as Hlt.
    set (si := Z.to_nat (get_set_index c0 a)) in *.
    set (stamped := set_access_time (access_count_ c0) line).
    set (c1 := store_line c0 (si, w) stamped).
    assert (H1 : shaped ls ns c1).
    { apply shaped_store_line; [exact H0|].
      apply (shaped_line_at ls ns c0 (si, w) line H0).
      unfold line_at. cbn [fst snd]. rewrite Hset, Hline. reflexivity. }
    set (c2 := set_hit_count (wrap64 (hit_count_ c1 + 1)) c1).
    assert (Hat : line_at c2 (si, w) = Some stamped).
    { apply (line_at_store_line c0 si w stamped set Hset Hlt). }
    rewrite Hat. cbn [fst].
    destruct (Hcopy c2 (proj1 (proj2 (shaped_counters ls ns c1 _ H1)))) as [-> ->].
    set (final := set_dirty true (set_data
                 (memcpy_into (data stamped) (Z.to_nat (a mod ls))
                    (take (Z.to_nat (Z.min (Z.of_nat (length d)) (ls - a mod ls))) d))
                 stamped)).
    exists final, (data line). split; [|split; [|reflexivity]].
    + exists (<[w := Some final]> (<[w := Some stamped]> set)), w.
      split; [|split].
      * apply sets_store_line. apply (sets_store_line c0 si w stamped set Hset).
      * apply find_way_insert_found; [|exact Hvalid|exact Haddr].
        apply find_way_insert_found; [exact Hw|exact Hvalid|exact Haddr].
      * apply list_lookup_insert_eq. rewrite length_insert. exact Hlt.
    + apply (shaped_line_at ls ns c0 (si, w) line H0).
      unfold line_at. cbn [fst snd]. rewrite Hset, Hline. reflexivity.
  - destruct Hfind as (-> & set & Hset & Hne & Hnone).
    destruct (allocate_line_spec ls ns c0 a H0) as (set' & w & Hset' & Hlt & ->).
    rewrite Hset in Hset'. inversion Hset'; subst set'; clear Hset'.
    set (si := Z.to_nat (get_set_index c0 a)) in *.
    set (fresh := set_access_time (access_count_ c0)
                    (set_valid true (CacheLine_new (line_base c0 a) (line_size_ c0)))).
    set (c1 := store_line c0 (si, w) fresh).
    assert (Hfresh : length (data fresh) = Z.to_nat ls).
    { cbn. rewrite length_replicate. f_equal. apply H. }
    assert (H1 : shaped ls ns c1) by (apply shaped_store_line; assumption).
    set (c2 := set_miss_count (wrap64 (miss_count_ c1 + 1)) c1).
    assert (Hat : line_at c2 (si, w) = Some fresh).
    { apply (line_at_store_line c0 si w fresh set Hset Hlt). }
    rewrite Hat. cbn [fst].
    destruct (Hcopy c2 (proj2 (proj2 (shaped_counters ls ns c1 _ H1)))) as [-> ->].
    set (final := set_dirty true (set_data
               (memcpy_into (data fresh) (Z.to_nat (a mod ls))
                  (take (Z.to_nat (Z.min (Z.of_nat (length d)) (ls - a mod ls))) d))
               fresh)).
    exists final, (data fresh). split; [|split; [exact Hfresh|reflexivity]].
    exists (<[w := Some final]> (<[w := Some fresh]> set)), w.
    split; [|split].
    + apply sets_store_line. apply (sets_store_line c0 si w fresh set Hset).
    + apply find_way_insert_found; [|reflexivity|reflexivity].
      apply find_way_insert_fresh; [exact Hnone|exact Hlt|reflexivity|reflexivity].
    + apply list_lookup_insert_eq. rewrite length_insert. exact Hlt.
Qed.

(** A [read] at [a] of a cache that holds [line] for [a] is a hit that copies
    the clipped part of the payload to the front of the buffer. *)
Lemma read_holds (ls ns : Z) (c : t) (a : Z) (line : CacheLine) (buf : list byte) :
  shaped ls ns c -> holds c a line ->
  exists c',
    read c a buf =
    (c', true,
     memcpy_into buf 0
       (take (Z.to_nat (Z.min (Z.of_nat (length buf)) (ls - a mod ls)))
             (drop (Z.to_nat (a mod ls)) (data line)))).
Proof.
  intros H (set & w & Hset & Hw & Hline).
  pose proof (proj1 (shaped_counters ls ns c (wrap64 (access_count_ c + 1)) H)) as H0.
  unfold read.
  set (c0 := set_access_count (wrap64 (access_count_ c + 1)) c) in *.
  pose proof (find_line_spec ls ns c0 a H0) as Hfind.
  destruct (find_line c0 a) as [[l|] c1].
  - destruct Hfind as (set' & w' & line' & -> & Hset' & Hw' & Hline' & ->).
    change (cache_sets_ c0) with (cache_sets_ c) in Hset'.
    change (get_set_index c0 a) with (get_set_index c a) in *.
    change (line_base c0 a) with (line_base c a) in *.
    rewrite Hset in Hset'. inversion Hset'; subst set'; clear Hset'.
    rewrite Hw in Hw'. inversion Hw'; subst w'; clear Hw'.
    rewrite Hline in Hline'. inversion Hline'; subst line'; clear Hline'.
    pose proof (lookup_lt_Some _ _ _ Hline) as Hlt.
    set (si := Z.to_nat (get_set_index c a)) in *.
    set (stamped := set_access_time (access_count_ c0) line).
    set (c1 := store_line c0 (si, w) stamped).
    assert (H1 : shaped ls ns c1).
    { apply shaped_store_line; [exact H0|].
      apply (shaped_line_at ls ns c0 (si, w) line H0).
      unfold line_at. cbn [fst snd]. change (cache_sets_ c0) with (cache_sets_ c).
      rewrite Hset, Hline. reflexivity. }
    set (c2 := set_hit_count (wrap64 (hit_count_ c1 + 1)) c1).
    assert (H2 : shaped ls ns c2) by apply shaped_counters, H1.
    assert (Hat : line_at c2 (si, w) = Some stamped).
    { apply (line_at_store_line c0 si w stamped set Hset Hlt). }
    rewrite Hat.
    destruct (copy_size_bounds ls ns c2 a (Z.of_nat (length buf)) H2 ltac:(lia)) as (-> & _).
    replace (line_size_ c2) with ls by (symmetry; apply H2).
    eexists. reflexivity.
  - destruct Hfind as (_ & set' & Hset' & _ & Hnone).
    change (cache_sets_ c0) with (cache_sets_ c) in Hset'.
    change (get_set_index c0 a) with (get_set_index c a) in *.
    change (line_base c0 a) with (line_base c a) in *.
    rewrite Hset in Hset'. inversion Hset'; subst set'. congruence.
Qed.

(** What a cache captures of a write: a [read] of the same address right
    after [write c a d] hits and delivers the first
    [min(|d|, line_size - a mod line_size)] bytes of [d]. *)
Lemma GPUCache_write_then_read (ls ns : Z) (c : t) (a : Z) (d buf : list byte) :
  shaped ls ns c -> length buf = length d ->
  let n := Z.to_nat (Z.min (Z.of_nat (length d)) (ls - a mod ls)) in
  exists c', read (fst (write c a d)) a buf = (c', true, take n d ++ drop n buf).
Proof.
  intros H Hlen n.
  destruct (write_holds ls ns c a d H) as (line & old & Hholds & Hold & Hdata).
  destruct (read_holds ls ns _ a line buf (shaped_write ls ns c a d H) Hholds) as (c' & ->).
  exists c'. f_equal. rewrite Hlen, Hdata. fold n.
  pose proof H as ([Hls0 Hls1] & _).
  pose proof (Z.mod_pos_bound a ls Hls0) as Hm.
  assert (Hn : (n <= length d)%nat) by (unfold n; lia).
  assert (Hn' : (Z.to_nat (a mod ls) + n <= length old)%nat) by (unfold n; lia).
  unfold memcpy_into. rewrite take_0. cbn [app].
  rewrite drop_app_length' by (rewrite length_take; lia).
  rewrite take_app_length' by (rewrite length_take; lia).
  rewrite length_take. replace (0 + n `min` length d)%nat with n by lia.
  reflexivity.
Qed.

End GPUCacheWriteRead.

(** ** MemoryHierarchy: writes beyond the end of VRAM *)

Section MemoryHierarchyOutOfBounds.

Import MemoryHierarchy.

Lemma caches_shaped_new : caches_shaped new.
Proof.
  split.
  - apply (shaped_new (32 * 1024) 64 4); lia.
  - apply (shaped_new (512 * 1024) 128 8); lia.
Qed.

Lemma caches_shaped_read (m : t) (a : Z) (buf : list byte) :
  caches_shaped m -> caches_shaped (fst (fst (read m a buf))).
Proof.
  intros [H1 H2]. unfold read.
  pose proof (shaped_read 64 128 (l1_cache_ m) a buf H1) as H1'.
  destruct (GPUCache.read (l1_cache_ m) a buf) as [[l1 hit1] buf1]. cbn [fst] in H1'.
  destruct hit1; [split; assumption|].
  cbn [l2_cache_ set_l1_cache].
  pose proof (shaped_read 128 512 (l2_cache_ m) a buf1 H2) as H2'.
  destruct (GPUCache.read (l2_cache_ m) a buf1) as [[l2 hit2] buf2]. cbn [fst] in H2'.
  destruct hit2.
  - split; [apply shaped_write; exact H1'|exact H2'].
  - destruct (wrap64 _ <=? vram_size).
    + split; [apply shaped_write; exact H1'|apply shaped_write; exact H2'].
    + split; assumption.
Qed.

Lemma caches_shaped_write (m : t) (a : Z) (d : list byte) :
  caches_shaped m -> caches_shaped (fst (write m a d)).
Proof.
  intros [H1 H2]. unfold write.
  destruct (wrap64 _ <=? vram_size);
    (split; [apply shaped_write; exact H1|apply shaped_write; exact H2]).
Qed.

Lemma caches_shaped_allocate (m : t) (size : Z) :
  caches_shaped m -> caches_shaped (fst (allocate m size)).
Proof.
  intros H. unfold allocate. destruct (wrap64 _ >? vram_size); exact H.
Qed.

Lemma caches_shaped_invalidate_range (n : nat) (m : t) (addr : Z) :
  caches_shaped m -> caches_shaped (invalidate_range m addr n).
Proof.
  revert m addr. induction n as [|n IH]; intros m addr [H1 H2]; [split; assumption|].
  simpl. apply IH. split; apply shaped_invalidate; assumption.
Qed.

Lemma caches_shaped_deallocate (m : t) (a : Z) :
  caches_shaped m -> caches_shaped (deallocate m a).
Proof.
  intros H. unfold deallocate. destruct (allocations_ m !! a); [|exact H].
  apply (caches_shaped_invalidate_range _ m a H).
Qed.

Lemma caches_shaped_flush_all_caches (m : t) :
  caches_shaped m -> caches_shaped (flush_all_caches m).
Proof. intros [H1 H2]. split; apply shaped_flush; assumption. Qed.

Lemma caches_shaped_step (m : t) (o : op) : caches_shaped m -> caches_shaped (step m o).
Proof.
  destruct o; simpl.
  - apply caches_shaped_read.
  - apply caches_shaped_write.
  - apply caches_shaped_allocate.
  - apply caches_shaped_deallocate.
  - apply caches_shaped_flush_all_caches.
Qed.

Lemma caches_shaped_run (ops : list op) (m : t) :
  caches_shaped m -> caches_shaped (run m ops).
Proof.
  revert m. induction ops as [|o ops IH]; intros m H; [exact H|].
  simpl. apply IH, caches_shaped_step, H.
Qed.

(** C7, at explicit inputs. Two bytes written at the last byte of VRAM fail,
    and each cache line keeps only the first of them: the second byte is
    clipped at the end of the line and reaches no cache. Two bytes written at
    the address 2^64 - 1 pass the bounds test, because [address + size] wraps
    to 1, and the call reports success. *)
Lemma MemoryHierarchy_write_out_of_bounds_as_stated_fails :
  (let a := vram_size - 1 in
   let d := [x01; x02] in
   let '(m, ok) := write new a d in
   vram_size < a + Z.of_nat (length d) /\ ok = false
   /\ snd (GPUCache.read (l1_cache_ m) a [x00; x00]) = [x01; x00]
   /\ snd (GPUCache.read (l2_cache_ m) a [x00; x00]) = [x01; x00])
  /\
  (let a := 2 ^ 64 - 1 in
   let d := [x01; x02] in
   vram_size < a + Z.of_nat (length d) /\ snd (write new a d) = true).
Proof. split; vm_compute; repeat split; congruence. Qed.

(** C7, amended. In every state reached from a new hierarchy, a write of [d]
    at [a] with [vram_size < a + |d| < 2^64] reports failure and leaves VRAM
    as it was, while L1 and L2 capture the write clipped to their line: a
    read of either cache at [a] then hits and delivers the first
    [min(|d|, line_size - a mod line_size)] bytes of [d]. *)
Theorem MemoryHierarchy_write_out_of_bounds (ops : list op) (a : Z) (d buf : list byte) :
  0 <= a -> vram_size < a + Z.of_nat (length d) < 2 ^ 64 -> length buf = length d ->
  let m := run new ops in
  let m' := fst (write m a d) in
  let n1 := Z.to_nat (Z.min (Z.of_nat (length d)) (64 - a mod 64)) in
  let n2 := Z.to_nat (Z.min (Z.of_nat (length d)) (128 - a mod 128)) in
  snd (write m a d) = false
  /\ vram_ m' = vram_ m
  /\ (exists c, GPUCache.read (l1_cache_ m') a buf = (c, true, take n1 d ++ drop n1 buf))
  /\ (exists c, GPUCache.read (l2_cache_ m') a buf = (c, true, take n2 d ++ drop n2 buf)).
Proof.
  intros Ha Hd Hlen m m' n1 n2.
  destruct (caches_shaped_run ops new caches_shaped_new) as [H1 H2]. fold m in H1, H2.
  assert (Hoob : (wrap64 (a + Z.of_nat (length d)) <=? vram_size) = false).
  { rewrite wrap64_small by lia. apply Z.leb_gt. lia. }
  subst m'. unfold write. rewrite Hoob. cbn [fst snd vram_ l1_cache_ l2_cache_ set_l1_cache set_l2_cache].
  split; [reflexivity|]. split; [reflexivity|]. split.
  - apply (GPUCache_write_then_read 64 128); assumption.
  - apply (GPUCache_write_then_read 128 512); assumption.
Qed.

(** C7 at a concrete write: two bytes at the last byte of VRAM. *)
Lemma MemoryHierarchy_write_out_of_bounds_witness :
  let m' := fst (write new (vram_size - 1) [x01; x02]) in
  snd (write new (vram_size - 1) [x01; x02]) = false
  /\ vram_ m' = vram_ new
  /\ (exists c, GPUCache.read (l1_cache_ m') (vram_size - 1) [x00; x00]
                = (c, true, [x01; x00]))
  /\ (exists c, GPUCache.read (l2_cache_ m') (vram_size - 1) [x00; x00]
                = (c, true, [x01; x00])).
Proof.
  apply (MemoryHierarchy_write_out_of_bounds [] (vram_size - 1) [x01; x02] [x00; x00]).
  - vm_compute. congruence.
  - vm_compute. split; reflexivity.
  - reflexivity.
Defined.

End MemoryHierarchyOutOfBounds.

(** ** MemoryHierarchy: where the round trip and the allocator do behave *)

Section MemoryHierarchyWithinLine.

Import MemoryHierarchy.

(** X6. Where the round trip does hold: in every state a run of operations
    reaches from a new hierarchy, [write(a, d)] of data that fits the L1 line
    of its address, followed at once by [read(a, buf)] of the same length,
    succeeds and returns [d], also when the range is outside VRAM. *)
Lemma MemoryHierarchy_write_read_within_line (ops : list op) (a : Z) (d buf : list byte) :
  a mod 64 + Z.of_nat (length d) <= 64 -> length buf = length d ->
  let m := fst (write (run new ops) a d) in
  snd (fst (read m a buf)) = true /\ snd (read m a buf) = d.
Proof.
  intros Hfit Hlen m.
  destruct (caches_shaped_run ops new caches_shaped_new) as [H1 _].
  destruct (GPUCache_write_then_read 64 128 (l1_cache_ (run new ops)) a d buf H1 Hlen)
    as (c' & Hread).
  assert (Hl1 : l1_cache_ m = fst (GPUCache.write (l1_cache_ (run new ops)) a d)).
  { subst m. unfold write. destruct (wrap64 _ <=? vram_size); reflexivity. }
  unfold read. rewrite Hl1, Hread. cbn [fst snd].
  split; [reflexivity|].
  replace (Z.to_nat (Z.min (Z.of_nat (length d)) (64 - a mod 64))) with (length d) by lia.
  rewrite take_ge by lia. rewrite drop_ge by lia. apply app_nil_r.
Qed.

(** [(x + 15) & ~15] rounds up to a multiple of 16. *)
Lemma align16 (x : Z) :
  0 <= x < 2 ^ 64 -> Z.land x (wrap64 (Z.lnot 15)) = 16 * (x / 16).
Proof.
  intros Hx.
  change (wrap64 (Z.lnot 15)) with (Z.ldiff (Z.ones 64) (Z.ones 4)).
  assert (E : Z.land x (Z.ldiff (Z.ones 64) (Z.ones 4))
              = Z.ldiff (Z.land x (Z.ones 64)) (Z.ones 4)).
  { apply Z.bits_inj'. intros n Hn.
    rewrite Z.land_spec, !Z.ldiff_spec, Z.land_spec.
    destruct (Z.testbit x n), (Z.testbit (Z.ones 64) n), (Z.testbit (Z.ones 4) n);
      reflexivity. }
  rewrite E, Z.land_ones by lia. rewrite Z.mod_small by lia.
  rewrite Z.ldiff_ones_r by lia.
  rewrite Z.shiftr_div_pow2, Z.shiftl_mul_pow2 by lia.
  change (2 ^ 4) with 16. lia.
Qed.

(** Where [allocate] does advance: a request of [1 .. 2^63] bytes from a
    cursor inside VRAM either fails, leaving the hierarchy as it was, or
    returns the cursor and moves it up. *)
Lemma allocate_advances (m : t) (size : Z) :
  0 <= next_allocation_address_ m <= vram_size -> 0 < size <= 2 ^ 63 ->
  (allocate m size = (m, 0))
  \/ (snd (allocate m size) = next_allocation_address_ m
      /\ next_allocation_address_ m < next_allocation_address_ (fst (allocate m size))
         <= vram_size).
Proof.
  intros Hn Hs. unfold allocate.
  rewrite (wrap64_small (size + 15)) by lia.
  rewrite align16 by lia.
  pose proof (Z.div_mod (size + 15) 16 ltac:(lia)) as Hd.
  pose proof (Z.mod_pos_bound (size + 15) 16 ltac:(lia)) as Hm.
  unfold vram_size in *.
  rewrite wrap64_small by lia.
  destruct (_ >? _) eqn:E; [left; reflexivity|right].
  rewrite Z.gtb_ltb in E. apply Z.ltb_ge in E.
  cbn [fst snd next_allocation_address_ set_next_allocation_address set_allocations].
  split; lia.
Qed.

End MemoryHierarchyWithinLine.

(** ** PerformanceMonitor: hit rate and alerts *)

Section PerformanceMonitorAlerts.

Import PerformanceMonitor.

(** C9. On a new monitor, after the three recordings (true, false, true) for
    the cache "c", the hit rate reported for "c" is the [double] quotient
    2 / 3, the double nearest to two thirds (it is 6004799503160661 * 2^-53,
    and 3 * 6004799503160661 = 2 * 2^53 - 1). With the threshold 0.7
    registered for "c_hit_rate", [check_performance_alerts] gives one alert,
    for "c"; with the threshold 0.6 it gives none. *)
Theorem PerformanceMonitor_hit_rate_and_alerts :
  cache_hit_rates three_recordings !! "c" = Some (b64_lit 2 3)
  /\ b64_lit 2 3 = S754_finite false 6004799503160661 (-53)
  /\ 3 * 6004799503160661 = 2 * 2 ^ 53 - 1
  /\ check_performance_alerts
       (set_performance_threshold "c_hit_rate" (b64_lit 7 10) three_recordings)
     = [HitRateBelow "c" (b64_mul (b64_lit 2 3) (b64_of_Z 100))
          (b64_mul (b64_lit 7 10) (b64_of_Z 100))]
  /\ check_performance_alerts
       (set_performance_threshold "c_hit_rate" (b64_lit 6 10) three_recordings)
     = [].
Proof. repeat split; vm_compute; reflexivity. Qed.

End PerformanceMonitorAlerts.

(** ** MemoryHierarchy: facts the texture cache relies on *)

Section MemoryHierarchyFacts.

Import MemoryHierarchy.

Lemma GPUCache_read_length (c : GPUCache.t) (a : Z) (buf : list byte) :
  length (snd (GPUCache.read c a buf)) = length buf.
Proof.
  unfold GPUCache.read.
  destruct (GPUCache.find_line _ a) as [[l|] c1]; [|reflexivity].
  destruct (GPUCache.line_at _ l) as [line|]; [|reflexivity].
  cbn [snd]. unfold memcpy_into. rewrite take_0. cbn [app].
  rewrite length_app, length_drop. cbn [Nat.add].
  set (n := Z.to_nat _).
  assert (n <= length buf)%nat by (unfold n, GPUCache.copy_size; lia).
  rewrite length_take, length_drop. lia.
Qed.

Lemma vram_load_length (v : gmap Z byte) (n : nat) (a : Z) : length (vram_load v a n) = n.
Proof. revert a. induction n as [|n IH]; intros a; simpl; [reflexivity|]. rewrite IH. reflexivity. Qed.

(** [read] returns a buffer of the length it was given. *)
Lemma read_length (m : t) (a : Z) (buf : list byte) :
  length (snd (read m a buf)) = length buf.
Proof.
  unfold read.
  pose proof (GPUCache_read_length (l1_cache_ m) a buf) as H1.
  destruct (GPUCache.read (l1_cache_ m) a buf) as [[l1 hit1] buf1]. cbn [snd] in H1.
  destruct hit1; [exact H1|].
  cbn [l2_cache_ set_l1_cache].
  pose proof (GPUCache_read_length (l2_cache_ m) a buf1) as H2.
  destruct (GPUCache.read (l2_cache_ m) a buf1) as [[l2 hit2] buf2]. cbn [snd] in H2.
  destruct hit2; [cbn [snd]; lia|].
  destruct (wrap64 _ <=? vram_size); cbn [snd]; [rewrite vram_load_length|]; lia.
Qed.

(** [read] succeeds whenever the bounds test passes. *)
Lemma read_in_bounds (m : t) (a : Z) (buf : list byte) :
  wrap64 (a + Z.of_nat (length buf)) <= vram_size ->
  snd (fst (read m a buf)) = true.
Proof.
  intros Hb. unfold read.
  pose proof (GPUCache_read_length (l1_cache_ m) a buf) as H1.
  destruct (GPUCache.read (l1_cache_ m) a buf) as [[l1 hit1] buf1]. cbn [snd] in H1.
  destruct hit1; [reflexivity|].
  cbn [l2_cache_ set_l1_cache].
  pose proof (GPUCache_read_length (l2_cache_ m) a buf1) as H2.
  destruct (GPUCache.read (l2_cache_ m) a buf1) as [[l2 hit2] buf2]. cbn [snd] in H2.
  destruct hit2; [reflexivity|].
  rewrite H2, H1. apply Z.leb_le in Hb. rewrite Hb. reflexivity.
Qed.

(** [read] leaves the allocator alone. *)
Lemma read_next_allocation_address (m : t) (a : Z) (buf : list byte) :
  next_allocation_address_ (fst (fst (read m a buf))) = next_allocation_address_ m.
Proof.
  unfold read.
  destruct (GPUCache.read (l1_cache_ m) a buf) as [[l1 hit1] buf1].
  destruct hit1; [reflexivity|].
  cbn [l2_cache_ set_l1_cache].
  destruct (GPUCache.read (l2_cache_ m) a buf1) as [[l2 hit2] buf2].
  destruct hit2; [reflexivity|].
  destruct (wrap64 _ <=? vram_size); reflexivity.
Qed.

Lemma allocate_cursor_spec (m : t) (size : Z) :
  (next_allocation_address_ (fst (allocate m size)), snd (allocate m size))
  = allocate_cursor (next_allocation_address_ m) size.
Proof.
  unfold allocate, allocate_cursor.
  destruct (wrap64 _ >? vram_size); reflexivity.
Qed.

End MemoryHierarchyFacts.

(** ** MemoryHierarchy: the loop of deallocate *)

Section MemoryHierarchyDeallocateLoop.

Import MemoryHierarchy.

Lemma read_allocations (m : t) (a : Z) (buf : list byte) :
  allocations_ (fst (fst (read m a buf))) = allocations_ m.
Proof.
  unfold read.
  destruct (GPUCache.read (l1_cache_ m) a buf) as [[l1 hit1] buf1].
  destruct hit1; [reflexivity|].
  cbn [l2_cache_ set_l1_cache].
  destruct (GPUCache.read (l2_cache_ m) a buf1) as [[l2 hit2] buf2].
  destruct hit2; [reflexivity|].
  destruct (wrap64 _ <=? vram_size); reflexivity.
Qed.

Lemma write_allocations (m : t) (a : Z) (d : list byte) :
  allocations_ (fst (write m a d)) = allocations_ m.
Proof. unfold write. destruct (wrap64 _ <=? vram_size); reflexivity. Qed.

Lemma invalidate_range_allocations (n : nat) (m : t) (addr : Z) :
  allocations_ (invalidate_range m addr n) = allocations_ m.
Proof.
  revert m addr. induction n as [|n IH]; intros m addr; [reflexivity|].
  simpl. rewrite IH. reflexivity.
Qed.

Lemma records_bounded_step (m : t) (o : op) : records_bounded m -> records_bounded (step m o).
Proof.
  intros H. destruct o as [a buf|a d|size|a|]; simpl.
  - unfold records_bounded. rewrite read_allocations. exact H.
  - unfold records_bounded. rewrite write_allocations. exact H.
  - unfold allocate.
    destruct (wrap64 _ >? vram_size) eqn:E; [exact H|].
    intros a s. cbn [fst allocations_ set_next_allocation_address set_allocations].
    intros Hl. apply lookup_insert_Some in Hl as [[<- <-]|[_ Hl]]; [|exact (H a s Hl)].
    rewrite Z.gtb_ltb in E. apply Z.ltb_ge in E. exact E.
  - unfold deallocate. destruct (allocations_ m !! a) as [size|]; [|exact H].
    intros a' s. cbn [allocations_ set_allocations]. intros Hl.
    apply lookup_delete_Some in Hl as [_ Hl]. exact (H a' s Hl).
  - exact H.
Qed.

Lemma records_bounded_run (ops : list op) : records_bounded (run new ops).
Proof.
  assert (H : forall m, records_bounded m -> records_bounded (run m ops)).
  { induction ops as [|o ops IH]; intros m Hm; [exact Hm|].
    simpl. apply IH, records_bounded_step, Hm. }
  apply H. intros a s Hl. cbn in Hl. rewrite lookup_empty in Hl. discriminate.
Qed.

(** The number of passes of the loop of [deallocate]: for a limit inside
    VRAM, the address of pass [k] is [a + 64 * k] without wrap-around, and the
    loop condition [a + 64 * k < limit] holds exactly for the first
    [(limit - a + 63) / 64] values of [k]. *)
Lemma deallocate_loop_count (a limit k : Z) :
  0 <= a -> a < limit <= vram_size -> 0 <= k ->
  (a + 64 * k < limit <-> k < (limit - a + 63) / 64)
  /\ (a + 64 * k < limit -> wrap64 (a + 64 * k + 64) = a + 64 * (k + 1)).
Proof.
  intros Ha Hl Hk. split.
  - pose proof (Z.div_mod (limit - a + 63) 64 ltac:(lia)) as Hd.
    pose proof (Z.mod_pos_bound (limit - a + 63) 64 ltac:(lia)) as Hm.
    split; intros H; nia.
  - intros H. unfold wrap64, vram_size in *. rewrite Z.mod_small; lia.
Qed.

End MemoryHierarchyDeallocateLoop.

(** ** TextureCache: the eviction loop ends *)

Section TextureCacheEvictionLoop.

Import TextureCache.

Variable now : nat -> Z.
Variable logf : spec_float -> spec_float.

Lemma least_valuable_from_elem (l : list (Z * TextureCacheEntry.t)) (n : nat)
    (best : Z * TextureCacheEntry.t) :
  fst (least_valuable_from now logf n best l) ∈ best :: l.
Proof.
  revert n best. induction l as [|x rest IH]; intros n best; simpl.
  - apply elem_of_cons. left. reflexivity.
  - destruct (SFltb _ _).
    + apply elem_of_cons. right. apply IH.
    + specialize (IH (S (S n)) best). apply elem_of_cons in IH as [->|IH].
      * apply elem_of_cons. left. reflexivity.
      * apply elem_of_cons. right. apply elem_of_cons. right. exact IH.
Qed.

(** One eviction removes exactly one entry of a non-empty cache. *)
Lemma evict_least_valuable_entry_size (c : t) :
  cache_entries_ c <> ∅ ->
  S (size (cache_entries_ (evict_least_valuable_entry now logf c))) = size (cache_entries_ c).
Proof.
  intros Hne. unfold evict_least_valuable_entry.
  destruct (map_to_list (cache_entries_ c)) as [|first rest] eqn:El.
  { apply map_to_list_empty_iff in El. contradiction. }
  pose proof (least_valuable_from_elem rest (clock_reads_ c) first) as Hin.
  destruct (least_valuable_from now logf (clock_reads_ c) first rest) as [[key victim] n].
  cbn [fst] in Hin. rewrite <- El in Hin. apply elem_of_map_to_list in Hin.
  cbn [cache_entries_ set_cache_entries set_memory set_current_cache_size_bytes
       set_clock_reads].
  rewrite map_size_delete, Hin.
  assert (size (cache_entries_ c) <> 0%nat).
  { intros E. apply map_size_empty_iff in E. contradiction. }
  cbn. lia.
Qed.

(** With as many passes as there are entries, the loop of [allocate_entry]
    stops because its condition has become false, not because fuel ran out. *)
Lemma evict_while_enough (fuel : nat) (size' : Z) (c : t) :
  (size (cache_entries_ c) <= fuel)%nat ->
  must_evict (evict_while now logf fuel size' c) size' = false.
Proof.
  revert c. induction fuel as [|fuel IH]; intros c Hsize.
  - simpl. unfold must_evict.
    assert (E : cache_entries_ c = ∅) by (apply map_size_empty_iff; lia).
    rewrite bool_decide_eq_true_2 by exact E. apply andb_false_r.
  - simpl. destruct (must_evict c size') eqn:Hev; [|exact Hev].
    apply IH.
    assert (Hne : cache_entries_ c <> ∅).
    { unfold must_evict in Hev. apply andb_prop in Hev as [_ Hev].
      apply negb_true_iff, bool_decide_eq_false in Hev. exact Hev. }
    pose proof (evict_least_valuable_entry_size c Hne). lia.
Qed.

Lemma allocate_entry_loop_ends (c : t) (size' : Z) :
  must_evict (evict_while now logf (size (cache_entries_ c)) size' c) size' = false.
Proof. apply evict_while_enough. lia. Qed.

End TextureCacheEvictionLoop.

(** ** TextureCache: the summary follows the code *)

Section TextureCacheSummary.

Import TextureCache.

Variable now : nat -> Z.
Variable logf : spec_float -> spec_float.

Lemma of_cache_set_clock_reads (n : nat) (c : t) :
  Summary.of_cache (set_clock_reads n c) = Summary.of_cache c.
Proof. reflexivity. Qed.

Lemma of_cache_perf_timer f (event : string) (c : t) :
  Summary.of_cache (perf_timer now f event c) = Summary.of_cache c.
Proof. unfold perf_timer. destruct (perf_monitor_ c); reflexivity. Qed.

Lemma of_cache_tune_performance_parameters (c : t) :
  Summary.of_cache (tune_performance_parameters c) = Summary.of_cache c.
Proof.
  unfold tune_performance_parameters.
  repeat match goal with |- context [if ?b then _ else _] => destruct b end; reflexivity.
Qed.

Lemma of_cache_adaptive_optimization (c : t) :
  Summary.of_cache (adaptive_optimization now c) = Summary.of_cache c.
Proof.
  unfold adaptive_optimization.
  destruct (adaptive_caching_enabled_ c); [|reflexivity].
  cbn [tick]. destruct (_ <=? _); [|reflexivity].
  transitivity (Summary.of_cache (tune_performance_parameters (snd (tick now c))));
    [reflexivity|].
  rewrite of_cache_tune_performance_parameters. reflexivity.
Qed.

Lemma evict_while_not_needed (fuel : nat) (size : Z) (c : t) :
  must_evict c size = false -> evict_while now logf fuel size c = c.
Proof. intros H. destruct fuel; simpl; [reflexivity|]. rewrite H. reflexivity. Qed.

Lemma must_evict_of_cache (c : t) (size : Z) :
  Summary.must_evict (Summary.of_cache c) size = must_evict c size.
Proof.
  unfold Summary.must_evict, must_evict. fields. f_equal. f_equal.
  apply bool_decide_ext, fmap_empty_iff.
Qed.

Lemma predicted_prefetch_of_patterns (l : list AccessPattern.t) :
  predicted_prefetch (Summary.to_pattern <$> (Summary.of_pattern <$> l))
  = predicted_prefetch l.
Proof.
  unfold predicted_prefetch. rewrite !length_fmap.
  destruct (length l <? 3)%nat; [reflexivity|].
  rewrite !fmap_last, !list_lookup_fmap.
  destruct (last l) as [la|]; [|reflexivity].
  destruct (l !! _) as [pa|]; reflexivity.
Qed.


Lemma allocate_entry_not_needed (c : t) (texture_id mip_level address size : Z) :
  must_evict c size = false ->
  allocate_entry now logf c texture_id mip_level address size
  = set_current_cache_size_bytes (wrap64 (current_cache_size_bytes_ c + size))
      (set_cache_entries
         (<[cache_key texture_id mip_level :=
              TextureCacheEntry.new texture_id mip_level address size]> (cache_entries_ c))
         c).
Proof.
  intros H. unfold allocate_entry. rewrite (evict_while_not_needed _ _ _ H). reflexivity.
Qed.

Lemma MiB_payload (m : MemoryHierarchy.t) (a size : Z) :
  0 <= size ->
  Z.of_nat (length (snd (MemoryHierarchy.read m a (replicate (Z.to_nat size) x00)))) = size.
Proof. intros H. rewrite read_length, length_replicate. lia. Qed.

(** [prefetch_texture] follows its summary. *)
Lemma prefetch_texture_of_cache (c : t) (texture_id mip_level : Z) (s' : Summary.t) :
  Summary.prefetch_texture (Summary.of_cache c) texture_id mip_level = Some s' ->
  Summary.of_cache (prefetch_texture now logf c texture_id mip_level) = s'.
Proof.
  unfold Summary.prefetch_texture, prefetch_texture.
  change (Summary.entries (Summary.of_cache c)) with (Summary.of_entry <$> cache_entries_ c).
  rewrite lookup_fmap.
  destruct (cache_entries_ c !! cache_key texture_id mip_level) as [e|];
    cbn [fmap option_fmap option_map]; [intros H; inversion H; reflexivity|].
  change (Summary.queue (Summary.of_cache c)) with (prefetch_queue_ c).
  destruct (prefetch_queue_ c ++ [cache_key texture_id mip_level]) as [|pk rest];
    [intros H; inversion H; reflexivity|].
  change (Summary.next (Summary.set_queue rest (Summary.of_cache c)))
    with (MemoryHierarchy.next_allocation_address_ (memory_ c)).
  rewrite <- allocate_cursor_spec.
  change (memory_ (set_prefetch_queue rest c)) with (memory_ c).
  destruct (MemoryHierarchy.allocate (memory_ c) MiB) as [memory address]. cbn [fst snd].
  destruct (address =? 0); [intros H; inversion H; reflexivity|].
  set (c1 := set_memory memory (set_prefetch_queue rest c)).
  change (Summary.set_next (MemoryHierarchy.next_allocation_address_ memory)
            (Summary.set_queue rest (Summary.of_cache c)))
    with (Summary.of_cache c1).
  rewrite must_evict_of_cache.
  destruct (must_evict c1 MiB) eqn:Hev; [discriminate|].
  rewrite (allocate_entry_not_needed _ _ _ _ _ Hev).
  intros H; inversion H; subst s'; clear H.
  pose proof (read_next_allocation_address memory address (replicate (Z.to_nat MiB) x00)) as Hn.
  pose proof (MiB_payload memory address MiB ltac:(unfold MiB; lia)) as Hl.
  subst c1. fields.
  destruct (MemoryHierarchy.read memory address (replicate (Z.to_nat MiB) x00))
    as [[memory' ok] loaded].
  unfold Summary.of_cache. fields.
  rewrite Hn, alter_insert_eq, fmap_insert.
  unfold Summary.of_entry at 1. cbn. rewrite Hl. reflexivity.
Qed.


(** The hit branch follows its summary. *)
Lemma read_texture_hit_of_cache (c : t) (entry : TextureCacheEntry.t) (offset : Z)
    (buf : list byte) (s' : Summary.t) (r : bool) :
  Summary.read_hit (Summary.of_cache c) (TextureCacheEntry.is_prefetched entry) = Some (s', r) ->
  Summary.of_cache (fst (fst (read_texture_hit now logf c entry offset buf))) = s'
  /\ snd (fst (read_texture_hit now logf c entry offset buf)) = r.
Proof.
  unfold Summary.read_hit, read_texture_hit.
  set (m := if TextureCacheEntry.is_prefetched entry then _ else _).
  set (c1 := if TextureCacheEntry.is_prefetched entry then _ else _).
  assert (H1 : Summary.of_cache c1 = Summary.set_metrics m (Summary.of_cache c)).
  { subst c1 m. destruct (TextureCacheEntry.is_prefetched entry); reflexivity. }
  rewrite <- H1. clearbody c1. clear H1 m.
  cbn [tick fst snd].
  set (c2 := on_perf _ _).
  assert (H2 : Summary.of_cache c2 = Summary.of_cache c1) by reflexivity.
  assert (H3 : smart_prefetching_enabled_ c2 = Summary.smart (Summary.of_cache c1))
    by reflexivity.
  assert (H4 : Summary.of_pattern <$> recent_accesses_ c2
               = Summary.recent (Summary.of_cache c1)) by reflexivity.
  rewrite <- H4, predicted_prefetch_of_patterns, <- H3, <- H2. clearbody c2.
  destruct (smart_prefetching_enabled_ c2).
  - unfold predict_future_accesses.
    destruct (predicted_prefetch (recent_accesses_ c2)) as [[t' m']|].
    + destruct (Summary.prefetch_texture (Summary.of_cache c2) t' m') as [s2|] eqn:E;
        [|discriminate].
      cbn. intros H; inversion H; subst. split; [|reflexivity].
      apply prefetch_texture_of_cache, E.
    + cbn. intros H; inversion H; subst. split; reflexivity.
  - cbn. intros H; inversion H; subst. split; reflexivity.
Qed.


(** The miss branch follows its summary. *)
Lemma read_texture_miss_of_cache (c : t) (timestamp texture_id mip_level offset : Z)
    (buf : list byte) (s' : Summary.t) (r : bool) :
  Summary.read_miss (Summary.of_cache c) texture_id mip_level (Z.of_nat (length buf))
  = Some (s', r) ->
  Summary.of_cache
    (fst (fst (read_texture_miss now logf c timestamp texture_id mip_level offset buf))) = s'
  /\ snd (fst (read_texture_miss now logf c timestamp texture_id mip_level offset buf)) = r.
Proof.
  unfold Summary.read_miss, read_texture_miss.
  set (size := Z.of_nat (length buf)).
  set (texture_size := Z.max size MiB).
  assert (Hsize : 0 < texture_size) by (unfold texture_size, MiB; lia).
  set (c1 := perf_timer now PerformanceMonitor.start_timer _ _).
  set (s1 := Summary.set_metrics _ _).
  assert (H1 : Summary.of_cache c1 = s1).
  { subst c1 s1. rewrite of_cache_perf_timer. reflexivity. }
  clearbody c1 s1. subst s1.
  change (Summary.next (Summary.of_cache c1))
    with (MemoryHierarchy.next_allocation_address_ (memory_ c1)).
  rewrite <- allocate_cursor_spec.
  destruct (MemoryHierarchy.allocate (memory_ c1) texture_size) as [memory address].
  cbn [fst snd].
  destruct (address =? 0).
  { intros H; inversion H; subst. split; reflexivity. }
  destruct (wrap64 (address + texture_size) <=? MemoryHierarchy.vram_size) eqn:Hb;
    [|discriminate].
  cbn [negb].
  pose proof (read_in_bounds memory address (replicate (Z.to_nat texture_size) x00)) as Hok.
  rewrite length_replicate, Z2Nat.id in Hok by lia.
  specialize (Hok (proj1 (Z.leb_le _ _) Hb)).
  pose proof (read_next_allocation_address memory address
                (replicate (Z.to_nat texture_size) x00)) as Hn.
  pose proof (MiB_payload memory address texture_size ltac:(lia)) as Hl.
  change (memory_ (set_memory memory c1)) with memory.
  destruct (MemoryHierarchy.read memory address (replicate (Z.to_nat texture_size) x00))
    as [[memory' ok] texture_data].
  cbn [fst snd] in Hok, Hn, Hl. subst ok. cbn [negb].
  set (c2 := set_memory memory' (set_memory memory c1)).
  assert (H2 : Summary.of_cache c2
               = Summary.set_next (MemoryHierarchy.next_allocation_address_ memory)
                   (Summary.of_cache c1)).
  { subst c2. unfold Summary.of_cache. fields. rewrite Hn. reflexivity. }
  rewrite <- H2, must_evict_of_cache.
  destruct (must_evict c2 texture_size) eqn:Hev; [discriminate|].
  rewrite (allocate_entry_not_needed _ _ _ _ _ Hev).
  intros H; inversion H; subst s' r; clear H.
  split; [|reflexivity].
  cbn [fst snd tick]. rewrite of_cache_adaptive_optimization.
  rewrite of_cache_set_clock_reads.
  rewrite of_cache_perf_timer. unfold Summary.of_cache. fields.
  rewrite insert_insert_eq, fmap_insert.
  unfold Summary.of_entry at 1. cbn. rewrite Hl. reflexivity.
Qed.


(** [read_texture] follows its summary. *)
Lemma read_texture_of_cache (c : t) (texture_id mip_level offset : Z) (buf : list byte)
    (s' : Summary.t) (r : bool) :
  Summary.read_texture (Summary.of_cache c) texture_id mip_level offset
    (Z.of_nat (length buf)) = Some (s', r) ->
  Summary.of_cache (fst (fst (read_texture now logf c texture_id mip_level offset buf))) = s'
  /\ snd (fst (read_texture now logf c texture_id mip_level offset buf)) = r.
Proof.
  unfold Summary.read_texture, read_texture. cbn [tick fst snd].
  set (timestamp := wrap64 (Z.quot (now (clock_reads_ c)) 1000)).
  set (c1 := set_recent_accesses _ _).
  assert (H1 : Summary.of_cache c1
               = Summary.record_access (Summary.of_cache c) texture_id mip_level).
  { subst c1. unfold Summary.record_access, Summary.of_cache. fields.
    rewrite length_fmap.
    destruct (max_pattern_history_ c <=? Z.of_nat (length (recent_accesses_ c)));
      fields; rewrite fmap_app; [rewrite fmap_drop|]; reflexivity. }
  rewrite <- H1. clearbody c1. clear H1.
  change (Summary.entries (Summary.of_cache c1)) with (Summary.of_entry <$> cache_entries_ c1).
  rewrite lookup_fmap.
  destruct (cache_entries_ c1 !! cache_key texture_id mip_level) as [found|] eqn:Hfound;
    cbn [fmap option_fmap option_map]; [|apply read_texture_miss_of_cache].
  set (entry := TextureCacheEntry.set_access_count _ _).
  set (c2 := set_cache_entries _ c1).
  assert (H2 : Summary.of_cache c2 = Summary.of_cache c1).
  { subst c2. unfold Summary.of_cache. fields. rewrite fmap_insert.
    f_equal. apply insert_id. rewrite lookup_fmap, Hfound. reflexivity. }
  rewrite <- H2.
  change (Summary.entry_size (Summary.of_entry found))
    with (Z.of_nat (length (TextureCacheEntry.data entry))).
  change (Summary.entry_prefetched (Summary.of_entry found))
    with (TextureCacheEntry.is_prefetched entry).
  destruct (wrap64 _ <=? Z.of_nat (length (TextureCacheEntry.data entry))).
  - apply read_texture_hit_of_cache.
  - apply read_texture_miss_of_cache.
Qed.

(** A sequence of reads follows its summary. *)
Lemma run_reads_of_cache (l : list (Z * Z * Z * list byte)) (c : t) (s' : Summary.t) :
  Summary.reads (Summary.of_cache c) (read_sizes l) = Some s' ->
  Summary.of_cache (run now logf c (read_ops l)) = s'.
Proof.
  revert c. induction l as [|[[[texture_id mip_level] offset] buf] l IH]; intros c.
  - cbn. intros H; inversion H; reflexivity.
  - cbn [read_sizes read_ops fmap list_fmap Summary.reads run fold_left step].
    destruct (Summary.read_texture _ _ _ _ _) as [[s1 r]|] eqn:E; [|discriminate].
    destruct (read_texture_of_cache c _ _ _ _ s1 r E) as [<- _].
    apply IH.
Qed.

(** The summary of a newly initialised cache. *)
Lemma of_cache_new (cache_size_mb : Z) (perf_monitor : option PerformanceMonitor.t) :
  Summary.of_cache (new now cache_size_mb MemoryHierarchy.new perf_monitor)
  = Summary.mk ∅ 0 (wrap64 (cache_size_mb * 1024 * 1024)) [] 1000 0x10000000 true []
      CacheMetrics.zero.
Proof. unfold Summary.of_cache, new. fields. rewrite fmap_empty. reflexivity. Qed.

End TextureCacheSummary.

(** ** TextureCache: runs on a fresh cache *)

Section TextureCacheRuns.

Import TextureCache.

Variable now : nat -> Z.
Variable logf : spec_float -> spec_float.
Variable perf_monitor : option PerformanceMonitor.t.

Lemma summary_lookup (c : t) (key : Z) (v : Summary.entry) :
  Summary.entries (Summary.of_cache c) !! key = Some v ->
  exists e, cache_entries_ c !! key = Some e /\ Summary.of_entry e = v.
Proof.
  unfold Summary.of_cache. cbn [Summary.entries]. rewrite lookup_fmap.
  destruct (cache_entries_ c !! key) as [e|]; [|discriminate].
  cbn. intros H; inversion H. exists e. split; reflexivity.
Qed.

Lemma summary_lookup_None (c : t) (key : Z) :
  Summary.entries (Summary.of_cache c) !! key = None -> cache_entries_ c !! key = None.
Proof.
  unfold Summary.of_cache. cbn [Summary.entries]. rewrite lookup_fmap.
  destruct (cache_entries_ c !! key) as [e|]; [discriminate|reflexivity].
Qed.

Lemma resident_bytes_of_cache (c : t) :
  resident_bytes c
  = map_fold (fun (_ : Z) (v : Summary.entry) (acc : Z) => acc + Summary.entry_size v) 0
      (Summary.entries (Summary.of_cache c)).
Proof.
  unfold resident_bytes, Summary.of_cache. cbn [Summary.entries].
  rewrite map_fold_fmap. reflexivity.
Qed.

Lemma run_snoc (c : t) (ops : list op) (o : op) :
  run now logf c (ops ++ [o]) = step now logf (run now logf c ops) o.
Proof. unfold run. rewrite fold_left_app. reflexivity. Qed.

Lemma mip_walk_2_of_cache :
  Summary.of_cache
    (run now logf (fresh now perf_monitor) [ReadTexture 42 0 0 buf64; ReadTexture 42 1 0 buf64])
  = mip_walk_summary_2.
Proof.
  apply (run_reads_of_cache now logf [(42, 0, 0, buf64); (42, 1, 0, buf64)]).
  unfold fresh. rewrite of_cache_new. vm_compute. reflexivity.
Qed.

Lemma mip_walk_3_of_cache (c : t) :
  Summary.of_cache c = mip_walk_summary_2 ->
  Summary.of_cache (fst (fst (read_texture now logf c 42 1 0 buf64))) = mip_walk_summary_3.
Proof.
  intros H. apply (read_texture_of_cache now logf c 42 1 0 buf64 _ true).
  rewrite H. vm_compute. reflexivity.
Qed.

(** What the two summaries say about the states they summarise. *)
Lemma mip_walk_2_facts (c : t) :
  Summary.of_cache c = mip_walk_summary_2 ->
  smart_prefetching_enabled_ c = true
  /\ length (recent_accesses_ c) = 2%nat
  /\ find_entry c 42 2 = None
  /\ current_cache_size_bytes_ c = 2 * MiB
  /\ (exists e, find_entry c 42 1 = Some e
                /\ 0 + Z.of_nat (length buf64) <= Z.of_nat (length (TextureCacheEntry.data e))).
Proof.
  intros H.
  split; [exact (f_equal Summary.smart H)|].
  split.
  { pose proof (f_equal (fun s => length (Summary.recent s)) H) as Hl.
    cbn [Summary.of_cache Summary.recent] in Hl. rewrite length_fmap in Hl. exact Hl. }
  split; [apply summary_lookup_None; rewrite H; vm_compute; reflexivity|].
  split; [exact (f_equal Summary.current H)|].
  destruct (summary_lookup c (cache_key 42 1) (42, 1, MiB, false)) as (e & He & Hv);
    [rewrite H; vm_compute; reflexivity|].
  exists e. split; [exact He|].
  pose proof (f_equal Summary.entry_size Hv) as Hs.
  change (Z.of_nat (length (TextureCacheEntry.data e)) = MiB) in Hs. rewrite Hs.
  vm_compute. congruence.
Qed.

Lemma mip_walk_3_facts (c : t) :
  Summary.of_cache c = mip_walk_summary_3 ->
  (exists e, find_entry c 42 2 = Some e /\ TextureCacheEntry.is_prefetched e = true)
  /\ current_cache_size_bytes_ c = 3 * MiB.
Proof.
  intros H. split; [|exact (f_equal Summary.current H)].
  destruct (summary_lookup c (cache_key 42 2) (42, 2, MiB, true)) as (e & He & Hv);
    [rewrite H; vm_compute; reflexivity|].
  exists e. split; [exact He|]. exact (f_equal Summary.entry_prefetched Hv).
Qed.

(** C3, amended. On a (fresh now perf_monitor) cache with smart prefetching on, the two reads
    of (42,0) and (42,1) record two accesses, one short of the three the
    predictor asks for, and leave no entry for (42,2). A third read of
    (42,1), which hits, makes the predictor prefetch the next mip level:
    an entry for (42,2) is then resident with [is_prefetched] set. *)
Theorem TextureCache_mip_walk_prefetch :
  let c2 := run now logf (fresh now perf_monitor) [ReadTexture 42 0 0 buf64; ReadTexture 42 1 0 buf64] in
  let c3 := run now logf (fresh now perf_monitor) [ReadTexture 42 0 0 buf64; ReadTexture 42 1 0 buf64;
                                ReadTexture 42 1 0 buf64] in
  smart_prefetching_enabled_ c2 = true
  /\ length (recent_accesses_ c2) = 2%nat
  /\ find_entry c2 42 2 = None
  /\ (exists e, find_entry c3 42 2 = Some e /\ TextureCacheEntry.is_prefetched e = true).
Proof.
  cbv zeta.
  change [ReadTexture 42 0 0 buf64; ReadTexture 42 1 0 buf64; ReadTexture 42 1 0 buf64]
    with ([ReadTexture 42 0 0 buf64; ReadTexture 42 1 0 buf64] ++ [ReadTexture 42 1 0 buf64]).
  rewrite run_snoc.
  cbn [step].
  pose proof mip_walk_2_of_cache as H2.
  generalize dependent (run now logf (fresh now perf_monitor) [ReadTexture 42 0 0 buf64; ReadTexture 42 1 0 buf64]).
  intros c2 H2.
  destruct (mip_walk_2_facts c2 H2) as (F1 & F2 & F3 & _).
  destruct (mip_walk_3_facts _ (mip_walk_3_of_cache c2 H2)) as (F4 & _).
  repeat split; assumption.
Qed.


(** C1. The byte counter and the resident payloads part ways on the code.
    (1) On a (fresh now perf_monitor) 256 MiB cache a read of (1,0) makes a 1 MiB entry; a
    second read of (1,0) at offset 1 MiB lies beyond the entry, falls through
    to the miss path and replaces the entry with a new 1 MiB one, adding its
    size without subtracting the old one: one 1 MiB entry is resident while
    [current_cache_size_bytes_] is 2 MiB.
    (2) On a (fresh now perf_monitor) 1 MiB cache a read with a 2 MiB buffer makes a 2 MiB
    entry, so [current_cache_size_bytes_] exceeds [max_cache_size_bytes_]. *)
Theorem TextureCache_size_accounting_breaks :
  (let c := run now logf (fresh now perf_monitor) [ReadTexture 1 0 0 buf64; ReadTexture 1 0 MiB [x00]] in
   resident_bytes c = MiB /\ current_cache_size_bytes_ c = 2 * MiB
   /\ resident_bytes c <> current_cache_size_bytes_ c)
  /\
  (let c := run now logf (new now 1 MemoryHierarchy.new perf_monitor)
                [ReadTexture 1 0 0 (replicate (Z.to_nat (2 * MiB)) x00)] in
   resident_bytes c = 2 * MiB /\ current_cache_size_bytes_ c = 2 * MiB
   /\ max_cache_size_bytes_ c = MiB
   /\ ~ current_cache_size_bytes_ c <= max_cache_size_bytes_ c).
Proof.
  cbv zeta. split.
  - assert (H : Summary.of_cache
                  (run now logf (fresh now perf_monitor) [ReadTexture 1 0 0 buf64; ReadTexture 1 0 MiB [x00]])
                = Summary.mk (<[cache_key 1 0 := (1, 0, MiB, false)]> ∅)
                    (2 * MiB) (256 * MiB) [(1, 0); (1, 0)] 1000 (0x10000000 + 2 * MiB)
                    true []
                    (CacheMetrics.mk 0 2 0 0 (S754_zero false) (S754_zero false) (2 * MiB)
                       (S754_zero false) 0)).
    { apply (run_reads_of_cache now logf [(1, 0, 0, buf64); (1, 0, MiB, [x00])]).
      unfold fresh. rewrite of_cache_new. vm_compute. reflexivity. }
    generalize dependent
      (run now logf (fresh now perf_monitor) [ReadTexture 1 0 0 buf64; ReadTexture 1 0 MiB [x00]]).
    intros c H.
    assert (Hr : resident_bytes c = MiB).
    { rewrite resident_bytes_of_cache, H. vm_compute. reflexivity. }
    assert (Hc : current_cache_size_bytes_ c = 2 * MiB) by exact (f_equal Summary.current H).
    split; [exact Hr|]. split; [exact Hc|]. rewrite Hr, Hc. vm_compute. congruence.
  - assert (H : Summary.of_cache
                  (run now logf (new now 1 MemoryHierarchy.new perf_monitor)
                     [ReadTexture 1 0 0 (replicate (Z.to_nat (2 * MiB)) x00)])
                = Summary.mk (<[cache_key 1 0 := (1, 0, 2 * MiB, false)]> ∅)
                    (2 * MiB) MiB [(1, 0)] 1000 (0x10000000 + 2 * MiB) true []
                    (CacheMetrics.mk 0 1 0 0 (S754_zero false) (S754_zero false) (2 * MiB)
                       (S754_zero false) 0)).
    { apply (run_reads_of_cache now logf
               [(1, 0, 0, replicate (Z.to_nat (2 * MiB)) x00)]).
      rewrite of_cache_new. cbn [read_sizes fmap list_fmap].
      rewrite length_replicate. vm_compute. reflexivity. }
    generalize dependent
      (run now logf (new now 1 MemoryHierarchy.new perf_monitor)
         [ReadTexture 1 0 0 (replicate (Z.to_nat (2 * MiB)) x00)]).
    intros c H.
    assert (Hr : resident_bytes c = 2 * MiB).
    { rewrite resident_bytes_of_cache, H. vm_compute. reflexivity. }
    assert (Hc : current_cache_size_bytes_ c = 2 * MiB) by exact (f_equal Summary.current H).
    assert (Hm : max_cache_size_bytes_ c = MiB) by exact (f_equal Summary.capacity H).
    split; [exact Hr|]. split; [exact Hc|]. split; [exact Hm|].
    rewrite Hc, Hm. vm_compute. congruence.
Qed.

(** C6. Two distinct (texture_id, mip_level) pairs with one cache key:
    (0, 256) and (1, 0) both give the key 256. After a read of (0, 256) on a
    (fresh now perf_monitor) cache, a read of (1, 0) is served as a hit from the entry that was
    loaded for (0, 256): one entry is resident, it carries texture 0 and mip
    level 256, and the counters show one miss and one hit. *)
Theorem TextureCache_key_collision :
  (0, 256) <> (1, 0) /\ cache_key 0 256 = cache_key 1 0
  /\ (let c := run now logf (fresh now perf_monitor) [ReadTexture 0 256 0 buf64; ReadTexture 1 0 0 buf64] in
      size (cache_entries_ c) = 1%nat
      /\ (exists e, find_entry c 1 0 = Some e
                    /\ TextureCacheEntry.texture_id e = 0
                    /\ TextureCacheEntry.mip_level e = 256)
      /\ CacheMetrics.cache_misses (metrics_ c) = 1
      /\ CacheMetrics.cache_hits (metrics_ c) = 1).
Proof.
  split; [congruence|]. split; [reflexivity|]. cbv zeta.
  assert (H : Summary.of_cache
                (run now logf (fresh now perf_monitor) [ReadTexture 0 256 0 buf64; ReadTexture 1 0 0 buf64])
              = Summary.mk (<[cache_key 0 256 := (0, 256, MiB, false)]> ∅)
                  MiB (256 * MiB) [(0, 256); (1, 0)] 1000 (0x10000000 + MiB) true []
                  (CacheMetrics.mk 1 1 0 0 (S754_zero false) (S754_zero false) MiB
                     (S754_zero false) 0)).
  { apply (run_reads_of_cache now logf [(0, 256, 0, buf64); (1, 0, 0, buf64)]).
    unfold fresh. rewrite of_cache_new. vm_compute. reflexivity. }
  generalize dependent
    (run now logf (fresh now perf_monitor) [ReadTexture 0 256 0 buf64; ReadTexture 1 0 0 buf64]).
  intros c H.
  split.
  { rewrite <- (map_size_fmap Summary.of_entry).
    change (Summary.of_entry <$> cache_entries_ c) with (Summary.entries (Summary.of_cache c)).
    rewrite H. vm_compute. reflexivity. }
  split.
  { destruct (summary_lookup c (cache_key 1 0) (0, 256, MiB, false)) as (e & He & Hv);
      [rewrite H; vm_compute; reflexivity|].
    exists e. split; [exact He|]. inversion Hv. split; reflexivity. }
  split.
  - exact (f_equal (fun s => CacheMetrics.cache_misses (Summary.metrics s)) H).
  - exact (f_equal (fun s => CacheMetrics.cache_hits (Summary.metrics s)) H).
Qed.

End TextureCacheRuns.

(** C3, at an explicit run: after the two reads of the specification's
    scenario no entry for (42,2) is resident. *)
Lemma TextureCache_two_reads_leave_no_prefetch :
  let c := TextureCache.run steady_clock logf_model
             (fresh steady_clock (Some PerformanceMonitor.new))
             [TextureCache.ReadTexture 42 0 0 buf64; TextureCache.ReadTexture 42 1 0 buf64] in
  TextureCache.smart_prefetching_enabled_ c = true
  /\ TextureCache.find_entry c 42 2 = None.
Proof.
  cbv zeta.
  destruct (mip_walk_2_facts _
              (mip_walk_2_of_cache steady_clock logf_model (Some PerformanceMonitor.new)))
    as (H1 & _ & H3 & _).
  split; assumption.
Qed.

(** C10, at an explicit run: the third read of the mip walk hits (42,1) with
    an in-bounds slice, and yet a key that was not resident is resident
    afterwards and the byte counter has grown by 1 MiB. *)
Lemma TextureCache_read_hit_changes_residents :
  let c := TextureCache.run steady_clock logf_model
             (fresh steady_clock (Some PerformanceMonitor.new))
             [TextureCache.ReadTexture 42 0 0 buf64; TextureCache.ReadTexture 42 1 0 buf64] in
  let c' := fst (fst (TextureCache.read_texture steady_clock logf_model c 42 1 0 buf64)) in
  (exists e, TextureCache.find_entry c 42 1 = Some e
             /\ 0 + Z.of_nat (length buf64)
                <= Z.of_nat (length (TextureCache.TextureCacheEntry.data e)))
  /\ TextureCache.find_entry c 42 2 = None
  /\ (exists e, TextureCache.find_entry c' 42 2 = Some e)
  /\ TextureCache.current_cache_size_bytes_ c = 2 * TextureCache.MiB
  /\ TextureCache.current_cache_size_bytes_ c' = 3 * TextureCache.MiB.
Proof.
  cbv zeta.
  pose proof (mip_walk_2_of_cache steady_clock logf_model (Some PerformanceMonitor.new))
    as H2.
  generalize dependent
    (TextureCache.run steady_clock logf_model
       (fresh steady_clock (Some PerformanceMonitor.new))
       [TextureCache.ReadTexture 42 0 0 buf64; TextureCache.ReadTexture 42 1 0 buf64]).
  intros c H2.
  destruct (mip_walk_2_facts c H2) as (_ & _ & F3 & F4 & F5).
  destruct (mip_walk_3_facts _ (mip_walk_3_of_cache steady_clock logf_model c H2))
    as ((e & He & _) & F6).
  split; [exact F5|]. split; [exact F3|]. split; [exists e; exact He|].
  split; assumption.
Qed.

(** ** TextureCache: what a hit leaves alone *)

Section TextureCacheHitFrame.

Import TextureCache.

Variable now : nat -> Z.
Variable logf : spec_float -> spec_float.

Lemma wrap64_le (z : Z) : 0 <= z -> wrap64 z <= z.
Proof. intros H. unfold wrap64. apply Z.mod_le; lia. Qed.

(** C10, amended. A read that hits a resident entry with an in-bounds slice,
    while the predictor issues no prefetch of a non-resident key, returns
    success and changes, of the entries, only [last_access_time] and
    [access_count] of the hit entry: the resident keys, every payload and
    [current_cache_size_bytes_] stay as they were, and so do the memory
    hierarchy, the prefetch queue, the capacity and the tunables. The access
    history gains the access. *)
Theorem TextureCache_read_hit_frame (c : t) (texture_id mip_level offset : Z)
    (buf : list byte) (e : TextureCacheEntry.t) :
  cache_entries_ c !! cache_key texture_id mip_level = Some e ->
  0 <= offset ->
  offset + Z.of_nat (length buf) <= Z.of_nat (length (TextureCacheEntry.data e)) ->
  let timestamp := wrap64 (Z.quot (now (clock_reads_ c)) 1000) in
  let history := history_after c (AccessPattern.mk texture_id mip_level timestamp) in
  prefetch_idle c history ->
  let result := read_texture now logf c texture_id mip_level offset buf in
  let c' := fst (fst result) in
  snd (fst result) = true
  /\ cache_entries_ c' = <[cache_key texture_id mip_level := touch timestamp e]> (cache_entries_ c)
  /\ dom (cache_entries_ c') = dom (cache_entries_ c)
  /\ (forall k, TextureCacheEntry.data <$> (cache_entries_ c' !! k)
                = TextureCacheEntry.data <$> (cache_entries_ c !! k))
  /\ (forall k, k <> cache_key texture_id mip_level ->
                cache_entries_ c' !! k = cache_entries_ c !! k)
  /\ current_cache_size_bytes_ c' = current_cache_size_bytes_ c
  /\ recent_accesses_ c' = history
  /\ same_configuration c c'.
Proof.
  intros He Hoff Hin timestamp history Hidle result c'.
  set (key := cache_key texture_id mip_level) in *.
  set (c1 := set_recent_accesses history
               (if max_pattern_history_ c <=? Z.of_nat (length (recent_accesses_ c))
                then set_recent_accesses (drop 1 (recent_accesses_ c)) (snd (tick now c))
                else snd (tick now c))).
  set (c2 := set_cache_entries (<[key := touch timestamp e]> (cache_entries_ c1)) c1).
  assert (Hc1 : cache_entries_ c1 = cache_entries_ c).
  { subst c1. destruct (_ <=? _); reflexivity. }
  assert (Hb : (wrap64 (offset + Z.of_nat (length buf))
                <=? Z.of_nat (length (TextureCacheEntry.data (touch timestamp e)))) = true).
  { apply Z.leb_le. cbn.
    pose proof (wrap64_le (offset + Z.of_nat (length buf)) ltac:(lia)). lia. }
  assert (Hresult : result = read_texture_hit now logf c2 (touch timestamp e) offset buf).
  { subst result c2 c1 history. unfold read_texture, history_after.
    cbn [tick fst snd max_pattern_history_ recent_accesses_ set_clock_reads].
    fold timestamp. fold key.
    destruct (max_pattern_history_ c <=? Z.of_nat (length (recent_accesses_ c)));
      cbn [cache_entries_ recent_accesses_ set_recent_accesses set_clock_reads];
      rewrite He; fold (touch timestamp e); rewrite Hb; reflexivity. }
  assert (Hhit : exists c3 buf3,
             read_texture_hit now logf c2 (touch timestamp e) offset buf = (c3, true, buf3)
             /\ cache_entries_ c3 = cache_entries_ c2
             /\ current_cache_size_bytes_ c3 = current_cache_size_bytes_ c
             /\ recent_accesses_ c3 = history
             /\ same_configuration c c3).
  { unfold read_texture_hit. cbn [tick fst snd].
    set (c3 := on_perf _ _).
    assert (H3 : cache_entries_ c3 = cache_entries_ c2
                 /\ current_cache_size_bytes_ c3 = current_cache_size_bytes_ c
                 /\ recent_accesses_ c3 = history
                 /\ same_configuration c c3).
    { subst c3 c2 c1. unfold same_configuration.
      destruct (TextureCacheEntry.is_prefetched _); destruct (_ <=? _);
        cbn; repeat split; reflexivity. }
    assert (Hpre : (if smart_prefetching_enabled_ c3 then predict_future_accesses now logf c3
                    else c3) = c3).
    { destruct H3 as (H31 & _ & H33 & (_ & _ & _ & _ & H35 & _)).
      destruct (smart_prefetching_enabled_ c3) eqn:Hs; [|reflexivity].
      destruct Hidle as [Hoff'|Hidle]; [congruence|].
      unfold predict_future_accesses. rewrite H33.
      destruct (predicted_prefetch history) as [[t' m']|]; [|reflexivity].
      unfold prefetch_texture. rewrite H31. subst c2. cbn [cache_entries_ set_cache_entries].
      rewrite Hc1.
      destruct (decide (key = cache_key t' m')) as [<-|Hne].
      - rewrite lookup_insert_eq. reflexivity.
      - rewrite lookup_insert_ne by exact Hne.
        destruct Hidle as [x ->]. reflexivity. }
    rewrite Hpre. eexists _, _. split; [reflexivity|]. exact H3. }
  destruct Hhit as (c3 & buf3 & Hhit & H31 & H32 & H33 & H34).
  subst c'. rewrite Hresult, Hhit. cbn [fst snd].
  assert (Hentries : cache_entries_ c3 = <[key := touch timestamp e]> (cache_entries_ c)).
  { rewrite H31. subst c2. cbn [cache_entries_ set_cache_entries]. rewrite Hc1. reflexivity. }
  split; [reflexivity|]. split; [exact Hentries|].
  split; [rewrite Hentries; apply dom_insert_lookup_L; exists e; exact He|].
  split.
  { intros k. rewrite Hentries. destruct (decide (key = k)) as [<-|Hne].
    - rewrite lookup_insert_eq, He. reflexivity.
    - rewrite lookup_insert_ne by exact Hne. reflexivity. }
  split.
  { intros k Hne. rewrite Hentries. apply lookup_insert_ne. congruence. }
  split; [exact H32|]. split; [exact H33|exact H34].
Qed.


Lemma predicted_prefetch_short (l : list AccessPattern.t) :
  (length l < 3)%nat -> predicted_prefetch l = None.
Proof.
  intros H. unfold predicted_prefetch.
  destruct (length l <? 3)%nat eqn:E; [reflexivity|].
  apply Nat.ltb_ge in E. lia.
Qed.

End TextureCacheHitFrame.

(** C10 at a concrete hit: on a fresh cache, after one read of (42,0), a
    second read of (42,0) hits with two accesses recorded, so the predictor
    issues nothing. *)
Lemma TextureCache_read_hit_frame_witness :
  let c := TextureCache.run steady_clock logf_model
             (fresh steady_clock (Some PerformanceMonitor.new))
             [TextureCache.ReadTexture 42 0 0 buf64] in
  let result := TextureCache.read_texture steady_clock logf_model c 42 0 0 buf64 in
  snd (fst result) = true
  /\ dom (TextureCache.cache_entries_ (fst (fst result))) = dom (TextureCache.cache_entries_ c)
  /\ TextureCache.current_cache_size_bytes_ (fst (fst result))
     = TextureCache.current_cache_size_bytes_ c.
Proof.
  cbv zeta.
  assert (H : Summary.of_cache
                (TextureCache.run steady_clock logf_model
                   (fresh steady_clock (Some PerformanceMonitor.new))
                   [TextureCache.ReadTexture 42 0 0 buf64])
              = Summary.mk (<[TextureCache.cache_key 42 0 := (42, 0, TextureCache.MiB, false)]> ∅)
                  TextureCache.MiB (256 * TextureCache.MiB) [(42, 0)] 1000
                  (0x10000000 + TextureCache.MiB) true []
                  (TextureCache.CacheMetrics.mk 0 1 0 0 (S754_zero false) (S754_zero false)
                     TextureCache.MiB (S754_zero false) 0)).
  { apply (run_reads_of_cache steady_clock logf_model [(42, 0, 0, buf64)]).
    unfold fresh. rewrite of_cache_new. vm_compute. reflexivity. }
  generalize dependent
    (TextureCache.run steady_clock logf_model
       (fresh steady_clock (Some PerformanceMonitor.new))
       [TextureCache.ReadTexture 42 0 0 buf64]).
  intros c H.
  destruct (summary_lookup c (TextureCache.cache_key 42 0) (42, 0, TextureCache.MiB, false))
    as (e & He & Hv); [rewrite H; vm_compute; reflexivity|].
  assert (Hin : 0 + Z.of_nat (length buf64)
                <= Z.of_nat (length (TextureCache.TextureCacheEntry.data e))).
  { pose proof (f_equal Summary.entry_size Hv) as Hs.
    change (Z.of_nat (length (TextureCache.TextureCacheEntry.data e)) = TextureCache.MiB) in Hs.
    rewrite Hs. vm_compute. congruence. }
  assert (Hidle : prefetch_idle c
            (history_after c
               (TextureCache.AccessPattern.mk 42 0
                  (wrap64 (Z.quot (steady_clock (TextureCache.clock_reads_ c)) 1000))))).
  { right. rewrite predicted_prefetch_short; [exact I|].
    unfold history_after.
    assert (Hl : length (TextureCache.recent_accesses_ c) = 1%nat).
    { pose proof (f_equal (fun s => length (Summary.recent s)) H) as Hl.
      cbn [Summary.of_cache Summary.recent] in Hl. rewrite length_fmap in Hl. exact Hl. }
    pose proof (f_equal Summary.history H) as Hh.
    change (TextureCache.max_pattern_history_ c = 1000) in Hh.
    rewrite Hh, Hl. change (1000 <=? Z.of_nat 1) with false. cbv iota.
    rewrite length_app, Hl. cbn. lia. }
  destruct (TextureCache_read_hit_frame steady_clock logf_model c 42 0 0 buf64 e He
              ltac:(lia) Hin Hidle) as (R1 & _ & R3 & _ & _ & R6 & _).
  split; [exact R1|]. split; [exact R3|exact R6].
Defined.

(** * Further properties of the code *)

(** ** GPUCache: the round trip within a line *)

Section GPUCacheRuns.

Import GPUCache.

Lemma shaped_step (ls ns : Z) (c : t) (o : op) : shaped ls ns c -> shaped ls ns (step c o).
Proof.
  intros H. destruct o; cbn [step].
  - apply shaped_read, H.
  - apply shaped_write, H.
  - apply shaped_invalidate, H.
  - apply shaped_flush, H.
Qed.

Lemma shaped_run (ls ns : Z) (ops : list op) (c : t) :
  shaped ls ns c -> shaped ls ns (run c ops).
Proof.
  revert c. induction ops as [|o ops IH]; intros c H; [exact H|].
  apply IH, shaped_step, H.
Qed.

(** X1. On a cache built with a positive line size and associativity and
    at least one set, in any state a run of operations reaches, [write(a, d)]
    followed by [read(a, buf)] with a buffer of the same length hits, and the
    buffer receives the first [min(|d|, line_size - a mod line_size)] bytes of
    [d]; the rest of the buffer keeps what it held. *)
Theorem GPUCache_write_read_round_trip
    (cache_size line_size associativity : Z) (ops : list op) (a : Z) (d buf : list byte) :
  0 < line_size -> 0 < associativity -> line_size * associativity < 2 ^ 64 ->
  line_size * associativity <= cache_size ->
  length buf = length d ->
  let c := run (new cache_size line_size associativity) ops in
  let n := Z.to_nat (Z.min (Z.of_nat (length d)) (line_size - a mod line_size)) in
  exists c', read (fst (write c a d)) a buf = (c', true, take n d ++ drop n buf).
Proof.
  intros H1 H2 H3 H4 Hlen c n.
  apply (GPUCache_write_then_read line_size (cache_size / (line_size * associativity))).
  - apply shaped_run, shaped_new; assumption.
  - exact Hlen.
Qed.

(** X1 at a concrete run on the L1 geometry: six bytes written four bytes
    before the end of a line. *)
Lemma GPUCache_write_read_round_trip_witness :
  exists c', read (fst (write (run (new (32 * 1024) 64 4) [Read 0 [x00]; Flush]) 60
                          [x01; x02; x03; x04; x05; x06])) 60 (replicate 6 xff)
             = (c', true, [x01; x02; x03; x04; xff; xff]).
Proof.
  apply (GPUCache_write_read_round_trip (32 * 1024) 64 4 [Read 0 [x00]; Flush] 60
           [x01; x02; x03; x04; x05; x06] (replicate 6 xff)); try lia; reflexivity.
Defined.

End GPUCacheRuns.



(** ** GPUCache: misses *)

Section GPUCacheMisses.

Import GPUCache.

Lemma find_line_None (c : t) (a : Z) : fst (find_line c a) = None -> snd (find_line c a) = c.
Proof.
  unfold find_line.
  destruct (cache_sets_ c !! _) as [set|]; [|reflexivity].
  destruct (find_way set _) as [w|]; [|reflexivity].
  destruct (line_at c _) as [line|]; [discriminate|reflexivity].
Qed.

Lemma find_line_set_access_count (c : t) (a n : Z) :
  fst (find_line (set_access_count n c) a) = fst (find_line c a).
Proof.
  unfold find_line, line_at, get_set_index, line_base, set_access_count.
  cbn [cache_sets_ line_size_ num_sets_ fst snd].
  destruct (cache_sets_ c !! _) as [set|]; [|reflexivity].
  destruct (find_way set _) as [w|]; [|reflexivity].
  destruct (set !! w) as [[line|]|]; reflexivity.
Qed.

Lemma read_miss (c : t) (a : Z) (buf : list byte) :
  fst (find_line c a) = None ->
  read c a buf
  = (set_miss_count (wrap64 (miss_count_ c + 1))
       (set_access_count (wrap64 (access_count_ c + 1)) c), false, buf).
Proof.
  intros H. unfold read.
  pose proof (find_line_set_access_count c a (wrap64 (access_count_ c + 1))) as E.
  rewrite H in E.
  pose proof (find_line_None _ a E) as E'.
  destruct (find_line (set_access_count _ c) a) as [found c1].
  cbn [fst snd] in E, E'. subst. reflexivity.
Qed.

Lemma read_result_false (c : t) (a : Z) (buf : list byte) :
  snd (fst (read c a buf)) = false -> fst (find_line c a) = None.
Proof.
  unfold read. rewrite <- (find_line_set_access_count c a (wrap64 (access_count_ c + 1))).
  destruct (find_line (set_access_count _ c) a) as [found c1].
  destruct found as [l|]; [|reflexivity].
  cbn [fst snd]. destruct (line_at _ l); cbn; discriminate.
Qed.

(** A [read] that misses leaves the buffer and every line as they were and
    counts one access and one miss. *)
Lemma read_miss_frame (c : t) (a : Z) (buf : list byte) :
  snd (fst (read c a buf)) = false ->
  let c' := fst (fst (read c a buf)) in
  snd (read c a buf) = buf
  /\ cache_sets_ c' = cache_sets_ c
  /\ hit_count_ c' = hit_count_ c
  /\ miss_count_ c' = wrap64 (miss_count_ c + 1)
  /\ access_count_ c' = wrap64 (access_count_ c + 1).
Proof.
  intros H c'. subst c'. rewrite (read_miss c a buf (read_result_false c a buf H)).
  cbn. repeat split; reflexivity.
Qed.

Lemma find_way_None (set : list (option CacheLine)) (base : Z) :
  find_way set base = None <->
  (forall w line, set !! w = Some (Some line) -> valid line = true -> address line <> base).
Proof.
  induction set as [|slot rest IH]; cbn [find_way].
  - split; [intros _ w line H; discriminate|reflexivity].
  - destruct slot as [line0|].
    + destruct (valid line0 && (address line0 =? base)) eqn:E.
      * split; [discriminate|]. intros H. exfalso.
        apply andb_true_iff in E as [E1 E2]. apply Z.eqb_eq in E2.
        exact (H 0%nat line0 eq_refl E1 E2).
      * destruct (find_way rest base) as [w|] eqn:Hw; cbn [fmap option_fmap option_map].
        -- split; [discriminate|]. intros H. exfalso.
           destruct (find_way_Some rest base w Hw) as (line & H1 & H2 & H3).
           exact (H (S w) line H1 H2 H3).
        -- split; [|reflexivity]. intros _ [|w] line H Hv.
           ++ cbn in H. inversion H; subst. rewrite Hv in E. cbn in E.
              apply Z.eqb_neq in E. exact E.
           ++ cbn in H. destruct IH as [IH _]. exact (IH eq_refl w line H Hv).
    + destruct (find_way rest base) as [w|] eqn:Hw; cbn [fmap option_fmap option_map].
      * split; [discriminate|]. intros H. exfalso.
        destruct (find_way_Some rest base w Hw) as (line & H1 & H2 & H3).
        exact (H (S w) line H1 H2 H3).
      * split; [|reflexivity]. intros _ [|w] line H Hv.
        -- cbn in H. discriminate.
        -- cbn in H. destruct IH as [IH _]. exact (IH eq_refl w line H Hv).
Qed.

Lemma no_valid_line_find_line (c : t) (a : Z) :
  no_valid_line c -> fst (find_line c a) = None.
Proof.
  intros H. unfold find_line.
  destruct (cache_sets_ c !! _) as [set|] eqn:Hset; [|reflexivity].
  assert (Hw : find_way set (line_base c a) = None).
  { apply find_way_None. intros w line Hl Hv.
    rewrite (H set (Some line) line) in Hv; [discriminate| | |reflexivity].
    - eapply list_elem_of_lookup_2, Hset.
    - eapply list_elem_of_lookup_2, Hl. }
  rewrite Hw. reflexivity.
Qed.

Lemma no_valid_line_flush (c : t) : no_valid_line (flush c).
Proof.
  intros set slot line Hset Hslot ->. unfold flush, set_cache_sets in Hset.
  cbn [cache_sets_] in Hset.
  apply list_elem_of_In, in_map_iff in Hset as (set0 & <- & _).
  apply list_elem_of_In, in_map_iff in Hslot as (slot0 & E & _).
  destruct slot0 as [line0|]; [|discriminate]. inversion E. reflexivity.
Qed.

Lemma no_valid_line_step (c : t) (o : op) :
  not_write o -> no_valid_line c -> no_valid_line (step c o).
Proof.
  intros Ho H. destruct o as [a buf|a d|a|]; cbn [step].
  - rewrite (read_miss c a buf (no_valid_line_find_line c a H)). exact H.
  - destruct Ho.
  - unfold invalidate.
    pose proof (no_valid_line_find_line c a H) as E.
    pose proof (find_line_None c a E) as E'.
    destruct (find_line c a) as [found c1]. cbn [fst snd] in E, E'. subst. exact H.
  - apply no_valid_line_flush.
Qed.

Lemma no_valid_line_run (ops : list op) (c : t) :
  Forall not_write ops -> no_valid_line c -> no_valid_line (run c ops).
Proof.
  revert c. induction ops as [|o ops IH]; intros c Hops H; [exact H|].
  inversion Hops; subst. apply IH; [assumption|]. apply no_valid_line_step; assumption.
Qed.

(** X2. After [flush], every [read] misses and leaves its buffer untouched
    until the next [write]: in the state reached from a flushed cache by any
    sequence of [read], [invalidate] and [flush], a [read] at any address
    returns false. *)
Theorem GPUCache_flush_then_reads_miss (c : t) (ops : list op) (a : Z) (buf : list byte) :
  Forall not_write ops ->
  let c' := run (flush c) ops in
  snd (fst (read c' a buf)) = false /\ snd (read c' a buf) = buf.
Proof.
  intros Hops c'.
  rewrite (read_miss c' a buf).
  - split; reflexivity.
  - apply no_valid_line_find_line, no_valid_line_run; [exact Hops|apply no_valid_line_flush].
Qed.

(** X2 at a concrete run: a line written, then flushed away. *)
Lemma GPUCache_flush_then_reads_miss_witness :
  let c := run (flush (run (new (32 * 1024) 64 4) [Write 128 [x01; x02]]))
               [Read 128 [x00]; Invalidate 64; Flush] in
  snd (fst (read c 128 [x07; x07])) = false /\ snd (read c 128 [x07; x07]) = [x07; x07].
Proof.
  apply (GPUCache_flush_then_reads_miss (run (new (32 * 1024) 64 4) [Write 128 [x01; x02]])
           [Read 128 [x00]; Invalidate 64; Flush] 128 [x07; x07]).
  repeat constructor.
Defined.

End GPUCacheMisses.

(** ** GPUCache: invalidation *)

Section GPUCacheInvalidate.

Import GPUCache.

Lemma distinct_bases_insert_same (set : list (option CacheLine)) (w : nat)
    (old line : CacheLine) :
  set !! w = Some (Some old) -> address line = address old ->
  (valid line = true -> valid old = true) ->
  distinct_bases set -> distinct_bases (<[w := Some line]> set).
Proof.
  intros Hold Ha Hv H i j li lj Hi Hj Vi Vj E.
  assert (Hw : (w < length set)%nat) by (eapply lookup_lt_Some, Hold).
  destruct (decide (i = w)) as [->|Ni]; destruct (decide (j = w)) as [->|Nj];
    [reflexivity| | |].
  - rewrite list_lookup_insert_eq in Hi by exact Hw. inversion Hi; subst li.
    rewrite list_lookup_insert_ne in Hj by congruence.
    apply (H w j old lj Hold Hj (Hv Vi) Vj). congruence.
  - rewrite list_lookup_insert_eq in Hj by exact Hw. inversion Hj; subst lj.
    rewrite list_lookup_insert_ne in Hi by congruence.
    apply (H i w li old Hi Hold Vi (Hv Vj)). congruence.
  - rewrite list_lookup_insert_ne in Hi by congruence.
    rewrite list_lookup_insert_ne in Hj by congruence.
    exact (H i j li lj Hi Hj Vi Vj E).
Qed.

Lemma distinct_bases_insert_fresh (set : list (option CacheLine)) (w : nat)
    (line : CacheLine) :
  find_way set (address line) = None ->
  distinct_bases set -> distinct_bases (<[w := Some line]> set).
Proof.
  intros Hnone H i j li lj Hi Hj Vi Vj E.
  pose proof (proj1 (find_way_None set (address line)) Hnone) as Hfresh.
  destruct (decide (w < length set)%nat) as [Hw|Hw];
    [|rewrite list_insert_ge in Hi, Hj by lia; exact (H i j li lj Hi Hj Vi Vj E)].
  destruct (decide (i = w)) as [->|Ni]; destruct (decide (j = w)) as [->|Nj];
    [reflexivity| | |].
  - rewrite list_lookup_insert_eq in Hi by exact Hw. inversion Hi; subst li.
    rewrite list_lookup_insert_ne in Hj by congruence.
    exfalso. apply (Hfresh j lj Hj Vj). congruence.
  - rewrite list_lookup_insert_eq in Hj by exact Hw. inversion Hj; subst lj.
    rewrite list_lookup_insert_ne in Hi by congruence.
    exfalso. apply (Hfresh i li Hi Vi). congruence.
  - rewrite list_lookup_insert_ne in Hi by congruence.
    rewrite list_lookup_insert_ne in Hj by congruence.
    exact (H i j li lj Hi Hj Vi Vj E).
Qed.

Lemma well_keyed_store_line (c : t) (si w : nat) (line : CacheLine) :
  (forall set, cache_sets_ c !! si = Some set ->
               distinct_bases set -> distinct_bases (<[w := Some line]> set)) ->
  well_keyed c -> well_keyed (store_line c (si, w) line).
Proof.
  intros Hset H. unfold well_keyed, store_line, set_cache_sets. cbn [cache_sets_ fst snd].
  apply Forall_alter; [exact H|]. intros set Hs Hd. exact (Hset set Hs Hd).
Qed.

Lemma well_keyed_store_same (c : t) (si w : nat) (old line : CacheLine) :
  line_at c (si, w) = Some old -> address line = address old ->
  (valid line = true -> valid old = true) ->
  well_keyed c -> well_keyed (store_line c (si, w) line).
Proof.
  intros Hat Ha Hv H. apply well_keyed_store_line; [|exact H].
  intros set Hs Hd.
  destruct (line_at_Some c si w old Hat) as (set' & Hs' & Hold).
  rewrite Hs in Hs'. inversion Hs'; subst set'.
  exact (distinct_bases_insert_same set w old line Hold Ha Hv Hd).
Qed.

Lemma well_keyed_find_line (c : t) (a : Z) : well_keyed c -> well_keyed (snd (find_line c a)).
Proof.
  intros H. unfold find_line.
  destruct (cache_sets_ c !! _) as [set|]; [|exact H].
  destruct (find_way set _) as [w|]; [|exact H].
  destruct (line_at c _) as [line|] eqn:E; [|exact H].
  cbn [snd]. apply (well_keyed_store_same c _ w line); [exact E|reflexivity|auto|exact H].
Qed.

Lemma find_line_None_way (c : t) (a : Z) (set : list (option CacheLine)) :
  fst (find_line c a) = None ->
  cache_sets_ c !! Z.to_nat (get_set_index c a) = Some set ->
  find_way set (line_base c a) = None.
Proof.
  unfold find_line. intros H Hs. rewrite Hs in H.
  destruct (find_way set _) as [w|] eqn:Hw; [|reflexivity].
  destruct (find_way_Some set _ w Hw) as (line & Hl & _).
  unfold line_at in H. cbn [fst snd] in H. rewrite Hs, Hl in H. discriminate.
Qed.

Lemma well_keyed_allocate_line (c : t) (a : Z) :
  fst (find_line c a) = None -> well_keyed c -> well_keyed (snd (allocate_line c a)).
Proof.
  intros Hnone H. unfold allocate_line.
  destruct (cache_sets_ c !! _) as [set|] eqn:Hs; [|exact H].
  pose proof (find_line_None_way c a set Hnone Hs) as Hw.
  assert (Hstore : forall w,
             well_keyed (store_line c (Z.to_nat (get_set_index c a), w)
                           (set_access_time (access_count_ c)
                              (set_valid true (CacheLine_new (line_base c a) (line_size_ c)))))).
  { intros w. apply well_keyed_store_line; [|exact H].
    intros set' Hs' Hd. rewrite Hs in Hs'. inversion Hs'; subst set'.
    apply distinct_bases_insert_fresh; [exact Hw|exact Hd]. }
  destruct (find_free set) as [w|]; [apply Hstore|].
  destruct (min_element lru_less set) as [w|]; [apply Hstore|exact H].
Qed.

Lemma well_keyed_counters (c : t) (n : Z) :
  well_keyed c ->
  well_keyed (set_access_count n c) /\ well_keyed (set_hit_count n c)
  /\ well_keyed (set_miss_count n c).
Proof. intros H. repeat split; exact H. Qed.

Lemma well_keyed_read (c : t) (a : Z) (buf : list byte) :
  well_keyed c -> well_keyed (fst (fst (read c a buf))).
Proof.
  intros H. unfold read.
  pose proof (well_keyed_find_line (set_access_count (wrap64 (access_count_ c + 1)) c) a H)
    as H1.
  destruct (find_line (set_access_count _ c) a) as [found c1]. cbn [snd] in H1.
  destruct found as [l|]; [|exact H1].
  destruct (line_at _ l); exact H1.
Qed.

Lemma well_keyed_write (c : t) (a : Z) (d : list byte) :
  well_keyed c -> well_keyed (fst (write c a d)).
Proof.
  intros H. unfold write.
  set (c0 := set_access_count (wrap64 (access_count_ c + 1)) c).
  assert (H0 : well_keyed c0) by exact H.
  pose proof (well_keyed_find_line c0 a H0) as H1.
  pose proof (find_line_None c0 a) as Hsame.
  pose proof (well_keyed_allocate_line c0 a) as H2.
  destruct (find_line c0 a) as [found c1]. cbn [fst snd] in H1, Hsame, H2.
  destruct found as [[si w]|].
  - destruct (line_at _ (si, w)) as [line|] eqn:E; [|exact H1].
    cbn [fst].
    apply (well_keyed_store_same _ si w line); [exact E|reflexivity|auto|exact H1].
  - specialize (Hsame eq_refl). subst c1. specialize (H2 eq_refl H0).
    destruct (allocate_line c0 a) as [target c2]. cbn [snd] in H2.
    destruct target as [[si w]|]; [|exact H2].
    destruct (line_at _ (si, w)) as [line|] eqn:E; [|exact H2].
    cbn [fst].
    apply (well_keyed_store_same _ si w line); [exact E|reflexivity|auto|exact H2].
Qed.

Lemma well_keyed_invalidate (c : t) (a : Z) : well_keyed c -> well_keyed (invalidate c a).
Proof.
  intros H. unfold invalidate.
  pose proof (well_keyed_find_line c a H) as H1.
  destruct (find_line c a) as [found c1]. cbn [snd] in H1.
  destruct found as [[si w]|]; [|exact H1].
  destruct (line_at c1 (si, w)) as [line|] eqn:E; [|exact H1].
  apply (well_keyed_store_same c1 si w line); [exact E|reflexivity|discriminate|exact H1].
Qed.

Lemma well_keyed_no_valid_line (c : t) : no_valid_line c -> well_keyed c.
Proof.
  intros H. apply Forall_forall. intros set Hset i j li lj Hi Hj Vi _ _.
  rewrite (H set (Some li) li Hset) in Vi; [discriminate| |reflexivity].
  eapply list_elem_of_lookup_2, Hi.
Qed.

Lemma well_keyed_new (cache_size line_size associativity : Z) :
  well_keyed (new cache_size line_size associativity).
Proof.
  apply Forall_forall. intros set Hset i j li lj Hi _ _ _ _.
  unfold new in Hset. cbn [cache_sets_] in Hset.
  apply elem_of_replicate in Hset as [-> _].
  apply lookup_replicate in Hi as [Hi _]. discriminate.
Qed.

Lemma well_keyed_step (c : t) (o : op) : well_keyed c -> well_keyed (step c o).
Proof.
  intros H. destruct o; cbn [step].
  - apply well_keyed_read, H.
  - apply well_keyed_write, H.
  - apply well_keyed_invalidate, H.
  - apply well_keyed_no_valid_line, no_valid_line_flush.
Qed.

Lemma well_keyed_run (ops : list op) (c : t) : well_keyed c -> well_keyed (run c ops).
Proof.
  revert c. induction ops as [|o ops IH]; intros c H; [exact H|].
  apply IH, well_keyed_step, H.
Qed.

Lemma invalidate_find_line (c : t) (a : Z) :
  well_keyed c -> fst (find_line (invalidate c a) a) = None.
Proof.
  intros H. unfold invalidate.
  destruct (find_line c a) as [found c1] eqn:E.
  destruct found as [[si w]|].
  - unfold find_line in E.
    destruct (cache_sets_ c !! Z.to_nat (get_set_index c a)) as [set|] eqn:Hs;
      [|discriminate].
    destruct (find_way set (line_base c a)) as [w0|] eqn:Hw; [|discriminate].
    destruct (line_at c (Z.to_nat (get_set_index c a), w0)) as [line|] eqn:Hat;
      [|discriminate].
    inversion E; subst si w0 c1. clear E.
    destruct (find_way_Some set _ w Hw) as (old & Hold & Vold & Aold).
    assert (Hlt : (w < length set)%nat) by (eapply lookup_lt_Some, Hold).
    rewrite (line_at_store_line c _ w _ set Hs Hlt).
    set (stamped := set_access_time (access_count_ c) line).
    set (c1 := store_line c (Z.to_nat (get_set_index c a), w) stamped).
    assert (Hs1 : cache_sets_ c1 !! Z.to_nat (get_set_index c a)
                  = Some (<[w := Some stamped]> set))
      by (apply sets_store_line; exact Hs).
    pose proof (sets_store_line c1 (Z.to_nat (get_set_index c a)) w
                  (set_dirty false (set_valid false stamped)) _ Hs1) as Hs2.
    rewrite list_insert_insert_eq in Hs2.
    unfold find_line.
    change (get_set_index (store_line c1 _ _) a) with (get_set_index c a).
    change (line_base (store_line c1 _ _) a) with (line_base c a).
    rewrite Hs2.
    assert (Hnone : find_way (<[w := Some (set_dirty false (set_valid false stamped))]> set)
                      (line_base c a) = None).
    { apply find_way_None. intros w' line' Hl' Vl' Al'.
      destruct (decide (w' = w)) as [->|Hne].
      - rewrite list_lookup_insert_eq in Hl' by exact Hlt. inversion Hl'; subst line'.
        discriminate.
      - rewrite list_lookup_insert_ne in Hl' by congruence.
        apply Hne.
        assert (Hd : distinct_bases set).
        { eapply Forall_lookup_1; [exact H|exact Hs]. }
        apply (Hd w' w line' old Hl' Hold Vl' Vold). congruence. }
    rewrite Hnone. reflexivity.
  - pose proof (find_line_None c a) as E'. rewrite E in E'. cbn [fst snd] in E'.
    rewrite E' by reflexivity. rewrite E. reflexivity.
Qed.

(** X3. For every geometry and every state a run of operations reaches from
    a new cache, [invalidate(a)] followed by [read(a, buf)] misses and leaves
    the buffer untouched: a set never holds two valid lines with one base
    address, so the line [invalidate] finds is the only one. *)
Theorem GPUCache_invalidate_then_read_misses
    (cache_size line_size associativity : Z) (ops : list op) (a : Z) (buf : list byte) :
  let c := invalidate (run (new cache_size line_size associativity) ops) a in
  snd (fst (read c a buf)) = false /\ snd (read c a buf) = buf.
Proof.
  intros c. rewrite (read_miss c a buf).
  - split; reflexivity.
  - apply invalidate_find_line, well_keyed_run, well_keyed_new.
Qed.

End GPUCacheInvalidate.

(** ** GPUCache: replacement and geometry *)

Section GPUCacheReplacement.

Import GPUCache.

(** [min_element_from] with a comparison that is [<] on a key: the result is
    the first position holding a least key. *)
Lemma min_element_from_first_least {A : Type} (comp : A -> A -> bool) (key : A -> Z)
    (P : A -> Prop) (pre l : list A) (best_i : nat) (best : A) :
  (forall x y, P x -> P y -> comp x y = (key x <? key y)) ->
  Forall P pre -> Forall P l ->
  pre !! best_i = Some best ->
  (forall j x, pre !! j = Some x -> key best <= key x) ->
  (forall j x, (j < best_i)%nat -> pre !! j = Some x -> key best < key x) ->
  exists v,
    (pre ++ l) !! min_element_from comp best_i best (length pre) l = Some v
    /\ (forall j x, (pre ++ l) !! j = Some x -> key v <= key x)
    /\ (forall j x, (j < min_element_from comp best_i best (length pre) l)%nat ->
                    (pre ++ l) !! j = Some x -> key v < key x).
Proof.
  intros Hcomp. revert pre best_i best.
  induction l as [|y l IH]; intros pre best_i best Hpre Hl Hbest Hmin Hfirst.
  - cbn [min_element_from]. rewrite app_nil_r. exists best. auto.
  - cbn [min_element_from].
    assert (Pbest : P best).
    { eapply Forall_lookup_1; [exact Hpre|exact Hbest]. }
    inversion Hl as [|? ? Py Hl']; subst.
    rewrite (Hcomp y best Py Pbest).
    assert (Happ : Forall P (pre ++ [y])) by (apply Forall_app; auto).
    replace (S (length pre)) with (length (pre ++ [y])) by (rewrite length_app; cbn; lia).
    replace (pre ++ y :: l) with ((pre ++ [y]) ++ l) by (rewrite <- app_assoc; reflexivity).
    destruct (key y <? key best) eqn:E.
    + apply Z.ltb_lt in E.
      apply (IH (pre ++ [y]) (length pre) y Happ Hl').
      * rewrite lookup_app_r by lia. rewrite Nat.sub_diag. reflexivity.
      * intros j x Hj. apply lookup_app_Some in Hj as [Hj|[_ Hj]].
        -- specialize (Hmin j x Hj). lia.
        -- destruct (j - length pre)%nat; cbn in Hj; [|discriminate].
           inversion Hj; subst. lia.
      * intros j x Hlt Hj. rewrite lookup_app_l in Hj by exact Hlt.
        specialize (Hmin j x Hj). lia.
    + apply Z.ltb_ge in E.
      assert (Hlt : (best_i < length pre)%nat) by (eapply lookup_lt_Some, Hbest).
      apply (IH (pre ++ [y]) best_i best Happ Hl').
      * rewrite lookup_app_l by exact Hlt. exact Hbest.
      * intros j x Hj. apply lookup_app_Some in Hj as [Hj|[_ Hj]].
        -- exact (Hmin j x Hj).
        -- destruct (j - length pre)%nat; cbn in Hj; [|discriminate].
           inversion Hj; subst. lia.
      * intros j x Hj1 Hj. rewrite lookup_app_l in Hj by lia.
        exact (Hfirst j x Hj1 Hj).
Qed.

Lemma find_free_None (set : list (option CacheLine)) :
  Forall (fun slot => exists line, slot = Some line /\ valid line = true) set ->
  find_free set = None.
Proof.
  induction 1 as [|slot rest (line & -> & Hv) _ IH]; [reflexivity|].
  cbn [find_free]. rewrite Hv. cbn. rewrite IH. reflexivity.
Qed.

(** X4. [allocate_line] on a set whose ways all hold valid lines replaces a
    least recently used line, the first of them in way order: the access
    time of the victim is at most that of every line of the set, and less
    than that of every line in an earlier way. The slot then holds a valid,
    clean, zero-filled line for the base address, stamped with the current
    access count. *)
Theorem GPUCache_allocate_line_evicts_lru (c : t) (a : Z) (set : list (option CacheLine)) :
  cache_sets_ c !! Z.to_nat (get_set_index c a) = Some set ->
  set <> [] ->
  Forall (fun slot => exists line, slot = Some line /\ valid line = true) set ->
  exists w victim,
    fst (allocate_line c a) = Some (Z.to_nat (get_set_index c a), w)
    /\ set !! w = Some (Some victim)
    /\ (forall w' line, set !! w' = Some (Some line) -> access_time victim <= access_time line)
    /\ (forall w' line, (w' < w)%nat -> set !! w' = Some (Some line) ->
                        access_time victim < access_time line)
    /\ line_at (snd (allocate_line c a)) (Z.to_nat (get_set_index c a), w)
       = Some (mkCacheLine (line_base c a) (replicate (Z.to_nat (line_size_ c)) x00)
                 true false (access_count_ c)).
Proof.
  intros Hs Hne Hfull.
  unfold allocate_line. rewrite Hs, (find_free_None set Hfull).
  destruct set as [|first rest]; [congruence|]. cbn [min_element].
  set (key := fun slot : option CacheLine =>
                match slot with Some line => access_time line | None => 0 end).
  inversion Hfull as [|? ? Hfirst Hrest]; subst.
  destruct (min_element_from_first_least lru_less key
              (fun slot => exists line, slot = Some line /\ valid line = true)
              [first] rest 0%nat first) as (v & Hv & Hleast & Hstrict).
  - intros x y (lx & -> & Vx) (ly & -> & Vy). cbn. rewrite Vx, Vy. reflexivity.
  - constructor; [exact Hfirst|constructor].
  - exact Hrest.
  - reflexivity.
  - intros [|j] x Hj; cbn in Hj; [|discriminate]. inversion Hj. lia.
  - intros j x Hj. lia.
  - cbn [length app] in Hv, Hleast, Hstrict.
    set (w := min_element_from lru_less 0%nat first 1%nat rest) in *.
    assert (Pv : exists line, v = Some line /\ valid line = true).
    { exact (proj1 (Forall_lookup _ (first :: rest)) Hfull w v Hv). }
    destruct Pv as (victim & -> & _).
    exists w, victim. cbn [fst snd].
    split; [reflexivity|]. split; [exact Hv|].
    split; [intros w' line Hl; exact (Hleast w' (Some line) Hl)|].
    split; [intros w' line Hlt Hl; exact (Hstrict w' (Some line) Hlt Hl)|].
    apply (line_at_store_line c _ w _ (first :: rest) Hs).
    eapply lookup_lt_Some, Hv.
Qed.

(** X4 at a concrete run: in a two-way set the line written second and not
    touched since is the victim. *)
Lemma GPUCache_allocate_line_evicts_lru_witness :
  let c := run (new 256 64 2) [Write 0 [x01]; Write 128 [x02]; Read 0 [x00]] in
  exists w victim,
    fst (allocate_line c 256) = Some (Z.to_nat (get_set_index c 256), w)
    /\ line_at c (Z.to_nat (get_set_index c 256), w) = Some victim
    /\ address victim = 128.
Proof.
  cbv zeta.
  assert (Hs : cache_sets_ (run (new 256 64 2) [Write 0 [x01]; Write 128 [x02]; Read 0 [x00]])
               !! Z.to_nat (get_set_index
                              (run (new 256 64 2) [Write 0 [x01]; Write 128 [x02]; Read 0 [x00]])
                              256)
               = Some [Some (mkCacheLine 0 (x01 :: replicate 63 x00) true true 3);
                       Some (mkCacheLine 128 (x02 :: replicate 63 x00) true true 2)])
    by (vm_compute; reflexivity).
  generalize dependent (run (new 256 64 2) [Write 0 [x01]; Write 128 [x02]; Read 0 [x00]]).
  intros c Hs.
  destruct (GPUCache_allocate_line_evicts_lru c 256 _ Hs) as (w & victim & H1 & H2 & H3 & _).
  - discriminate.
  - repeat constructor; eexists; split; reflexivity.
  - exists w, victim. split; [exact H1|].
    split; [unfold line_at; cbn [fst snd]; rewrite Hs, H2; reflexivity|].
    destruct w as [|[|w]]; cbn in H2; try discriminate.
    + inversion H2; subst victim. exfalso.
      specialize (H3 1%nat _ eq_refl). cbn in H3. lia.
    + inversion H2; subst victim. reflexivity.
Defined.

Lemma ways_store_line (c : t) (l : loc) (line : CacheLine) :
  length <$> cache_sets_ (store_line c l line) = length <$> cache_sets_ c.
Proof.
  unfold store_line, set_cache_sets. cbn [cache_sets_].
  apply list_eq. intros i. rewrite !list_lookup_fmap.
  destruct (decide (i = fst l)) as [->|Hne].
  - rewrite list_lookup_alter_eq. destruct (cache_sets_ c !! fst l); [|reflexivity].
    cbn. rewrite length_insert. reflexivity.
  - rewrite list_lookup_alter_ne by congruence. reflexivity.
Qed.

(** The members a [GPUCache] operation never writes, with the number of ways
    of every set. *)
Lemma geometry_store_line (c : t) (l : loc) (line : CacheLine) :
  let c' := store_line c l line in
  (cache_size_ c', line_size_ c', associativity_ c', num_sets_ c',
   length <$> cache_sets_ c')
  = (cache_size_ c, line_size_ c, associativity_ c, num_sets_ c, length <$> cache_sets_ c).
Proof. cbv zeta. rewrite ways_store_line. reflexivity. Qed.

Lemma geometry_find_line (c : t) (a : Z) :
  let c' := snd (find_line c a) in
  (cache_size_ c', line_size_ c', associativity_ c', num_sets_ c',
   length <$> cache_sets_ c')
  = (cache_size_ c, line_size_ c, associativity_ c, num_sets_ c, length <$> cache_sets_ c).
Proof.
  cbv zeta. unfold find_line.
  destruct (cache_sets_ c !! _); [|reflexivity].
  destruct (find_way _ _); [|reflexivity].
  destruct (line_at c _); [|reflexivity].
  apply geometry_store_line.
Qed.

Lemma geometry_allocate_line (c : t) (a : Z) :
  let c' := snd (allocate_line c a) in
  (cache_size_ c', line_size_ c', associativity_ c', num_sets_ c',
   length <$> cache_sets_ c')
  = (cache_size_ c, line_size_ c, associativity_ c, num_sets_ c, length <$> cache_sets_ c).
Proof.
  cbv zeta. unfold allocate_line.
  destruct (cache_sets_ c !! _); [|reflexivity].
  destruct (find_free _); [apply geometry_store_line|].
  destruct (min_element _ _); [apply geometry_store_line|reflexivity].
Qed.

Lemma geometry_step (c : t) (o : op) :
  let c' := step c o in
  (cache_size_ c', line_size_ c', associativity_ c', num_sets_ c',
   length <$> cache_sets_ c')
  = (cache_size_ c, line_size_ c, associativity_ c, num_sets_ c, length <$> cache_sets_ c).
Proof.
  cbv zeta. destruct o as [a buf|a d|a|]; cbn [step].
  - unfold read.
    pose proof (geometry_find_line (set_access_count (wrap64 (access_count_ c + 1)) c) a) as H.
    cbv zeta in H.
    destruct (find_line (set_access_count _ c) a) as [found c1]. cbn [snd] in H.
    destruct found as [l|]; [destruct (line_at _ l)|]; exact H.
  - unfold write.
    pose proof (geometry_find_line (set_access_count (wrap64 (access_count_ c + 1)) c) a) as H.
    cbv zeta in H.
    destruct (find_line (set_access_count _ c) a) as [found c1]. cbn [snd] in H.
    destruct found as [l|].
    + destruct (line_at _ l) eqn:E; [|exact H]. cbn [fst].
      etransitivity; [apply geometry_store_line|exact H].
    + pose proof (geometry_allocate_line c1 a) as H2. cbv zeta in H2.
      destruct (allocate_line c1 a) as [target c2]. cbn [snd] in H2.
      rewrite H in H2.
      destruct target as [l|]; [|exact H2].
      destruct (line_at _ l) eqn:E; [|exact H2]. cbn [fst].
      etransitivity; [apply geometry_store_line|exact H2].
  - unfold invalidate.
    pose proof (geometry_find_line c a) as H. cbv zeta in H.
    destruct (find_line c a) as [found c1]. cbn [snd] in H.
    destruct found as [l|]; [|exact H].
    destruct (line_at c1 l); [|exact H].
    etransitivity; [apply geometry_store_line|exact H].
  - unfold flush, set_cache_sets. cbn [cache_size_ line_size_ associativity_ num_sets_ cache_sets_].
    f_equal. apply list_eq. intros i.
    change (map (map ?f) ?l) with (fmap (M := list) (map f) l).
    rewrite !list_lookup_fmap. destruct (cache_sets_ c !! i); [|reflexivity].
    cbn. rewrite length_map. reflexivity.
Qed.

Lemma geometry_run (ops : list op) (c : t) :
  let c' := run c ops in
  (cache_size_ c', line_size_ c', associativity_ c', num_sets_ c',
   length <$> cache_sets_ c')
  = (cache_size_ c, line_size_ c, associativity_ c, num_sets_ c, length <$> cache_sets_ c).
Proof.
  cbv zeta. revert c. induction ops as [|o ops IH]; intros c; [reflexivity|].
  cbn [run fold_left]. etransitivity; [apply IH|apply geometry_step].
Qed.

(** X5. No operation changes the geometry of a cache: in every state a run
    of operations reaches from the constructor, the size, line size,
    associativity and number of sets are those of the constructor, there are
    [num_sets_] sets, and every set has [associativity] ways. *)
Theorem GPUCache_capacity_is_fixed
    (cache_size line_size associativity : Z) (ops : list op) :
  let c := run (new cache_size line_size associativity) ops in
  cache_size_ c = cache_size /\ line_size_ c = line_size
  /\ associativity_ c = associativity
  /\ num_sets_ c = cache_size / wrap64 (line_size * associativity)
  /\ length (cache_sets_ c) = Z.to_nat (num_sets_ c)
  /\ Forall (fun set => length set = Z.to_nat associativity) (cache_sets_ c).
Proof.
  intros c.
  pose proof (geometry_run ops (new cache_size line_size associativity)) as H.
  cbv zeta in H. fold c in H. unfold new in H.
  cbn [cache_size_ line_size_ associativity_ num_sets_ cache_sets_] in H.
  injection H as H1 H2 H3 H4 H5.
  rewrite fmap_replicate, length_replicate in H5.
  split; [exact H1|]. split; [exact H2|]. split; [exact H3|].
  split; [exact H4|]. split.
  - rewrite <- (length_fmap length (cache_sets_ c)), H5, H4. apply length_replicate.
  - apply Forall_forall. intros set Hset.
    assert (Hin : length set ∈ length <$> cache_sets_ c)
      by (apply list_elem_of_fmap; exists set; split; [reflexivity|exact Hset]).
    rewrite H5 in Hin. apply elem_of_replicate in Hin as [Hin _]. exact Hin.
Qed.

End GPUCacheReplacement.

(** ** GPUCache: what a search depends on *)

Section GPUCacheLines.

Import GPUCache.

(** The search of [find_line] depends on the address through its set index
    and its line base only. *)
Lemma find_line_same_line (c : t) (x y : Z) :
  get_set_index c x = get_set_index c y -> line_base c x = line_base c y ->
  fst (find_line c x) = None -> fst (find_line c y) = None.
Proof.
  unfold find_line. intros -> ->.
  destruct (cache_sets_ c !! _) as [set|]; [|reflexivity].
  destruct (find_way set _) as [w|]; [|reflexivity].
  destruct (line_at c _); [discriminate|reflexivity].
Qed.

(** [find_line] finds nothing exactly when the set of the address holds no
    valid line with its base. *)
Lemma find_line_None_iff (c : t) (a : Z) :
  fst (find_line c a) = None <->
  (forall set, cache_sets_ c !! Z.to_nat (get_set_index c a) = Some set ->
               find_way set (line_base c a) = None).
Proof.
  split.
  - intros H set Hs. exact (find_line_None_way c a set H Hs).
  - intros H. unfold find_line.
    destruct (cache_sets_ c !! _) as [set|]; [|reflexivity].
    rewrite (H set eq_refl). reflexivity.
Qed.

(** Storing a line that is not valid cannot make a search succeed. *)
Lemma find_way_insert_invalid (set : list (option CacheLine)) (w : nat) (line : CacheLine)
    (base : Z) :
  valid line = false -> find_way set base = None ->
  find_way (<[w := Some line]> set) base = None.
Proof.
  intros Hv H. apply find_way_None. intros w' line' Hl Hv'.
  destruct (decide (w' = w)) as [->|Hne].
  - destruct (decide (w < length set)%nat) as [Hw|Hw].
    + rewrite list_lookup_insert_eq in Hl by exact Hw. inversion Hl; subst. congruence.
    + rewrite list_insert_ge in Hl by lia.
      exact (proj1 (find_way_None set base) H w line' Hl Hv').
  - rewrite list_lookup_insert_ne in Hl by congruence.
    exact (proj1 (find_way_None set base) H w' line' Hl Hv').
Qed.

(** [invalidate] never makes a search succeed that failed before. *)
Lemma invalidate_keeps_None (c : t) (z y : Z) :
  fst (find_line c y) = None -> fst (find_line (invalidate c z) y) = None.
Proof.
  intros H. unfold invalidate.
  destruct (find_line c z) as [found c1] eqn:E.
  destruct found as [[si w]|]; cycle 1.
  { pose proof (find_line_None c z) as E'. rewrite E in E'. cbn [fst snd] in E'.
    rewrite E' by reflexivity. exact H. }
  unfold find_line in E.
  destruct (cache_sets_ c !! Z.to_nat (get_set_index c z)) as [set|] eqn:Hs; [|discriminate].
  destruct (find_way set (line_base c z)) as [w0|] eqn:Hw; [|discriminate].
  destruct (line_at c (Z.to_nat (get_set_index c z), w0)) as [line|] eqn:Hat; [|discriminate].
  inversion E; subst si w0 c1. clear E.
  destruct (find_way_Some set _ w Hw) as (old & Hold & _).
  assert (Hlt : (w < length set)%nat) by (eapply lookup_lt_Some, Hold).
  rewrite (line_at_store_line c _ w _ set Hs Hlt).
  set (stamped := set_access_time (access_count_ c) line).
  set (c1 := store_line c (Z.to_nat (get_set_index c z), w) stamped).
  set (gone := set_dirty false (set_valid false stamped)).
  apply find_line_None_iff. intros set' Hs'.
  change (get_set_index (store_line c1 _ gone) y) with (get_set_index c y) in *.
  change (line_base (store_line c1 _ gone) y) with (line_base c y).
  assert (Hs1 : cache_sets_ c1 !! Z.to_nat (get_set_index c z)
                = Some (<[w := Some stamped]> set)) by (apply sets_store_line; exact Hs).
  pose proof (sets_store_line c1 (Z.to_nat (get_set_index c z)) w gone _ Hs1) as Hs2.
  rewrite list_insert_insert_eq in Hs2.
  destruct (decide (Z.to_nat (get_set_index c y) = Z.to_nat (get_set_index c z))) as [Eq|Ne].
  - rewrite Eq, Hs2 in Hs'. inversion Hs'; subst set'.
    apply find_way_insert_invalid; [reflexivity|].
    apply (proj1 (find_line_None_iff c y) H). rewrite Eq. exact Hs.
  - assert (Hsame : cache_sets_ (store_line c1 (Z.to_nat (get_set_index c z), w) gone)
                    !! Z.to_nat (get_set_index c y)
                    = cache_sets_ c !! Z.to_nat (get_set_index c y)).
    { unfold store_line, set_cache_sets, c1, store_line, set_cache_sets.
      cbn [cache_sets_ fst snd]. rewrite !list_lookup_alter_ne by congruence. reflexivity. }
    rewrite Hsame in Hs'. exact (proj1 (find_line_None_iff c y) H set' Hs').
Qed.

(** [address & ~(2^k - 1)] is the address rounded down to a multiple of
    [2^k]. *)
Lemma line_base_pow2 (c : t) (k a : Z) :
  0 <= k < 64 -> line_size_ c = 2 ^ k -> 0 <= a < 2 ^ 64 ->
  line_base c a = 2 ^ k * (a / 2 ^ k).
Proof.
  intros Hk Hls Ha. unfold line_base. rewrite Hls.
  assert (Hp : 0 < 2 ^ k) by (apply Z.pow_pos_nonneg; lia).
  assert (Hle : 2 ^ k < 2 ^ 64) by (apply Z.pow_lt_mono_r; lia).
  rewrite (wrap64_small (2 ^ k - 1)) by lia.
  replace (2 ^ k - 1) with (Z.ones k) by (rewrite Z.ones_equiv; lia).
  assert (E : Z.land a (wrap64 (Z.lnot (Z.ones k))) = Z.ldiff (Z.land a (Z.ones 64)) (Z.ones k)).
  { unfold wrap64. rewrite <- Z.land_ones by lia.
    apply Z.bits_inj'. intros n Hn.
    rewrite !Z.land_spec, Z.ldiff_spec, Z.land_spec, Z.lnot_spec by lia.
    destruct (Z.testbit a n), (Z.testbit (Z.ones 64) n), (Z.testbit (Z.ones k) n);
      reflexivity. }
  rewrite E, Z.land_ones by lia. rewrite Z.mod_small by lia.
  rewrite Z.ldiff_ones_r by lia.
  rewrite Z.shiftr_div_pow2, Z.shiftl_mul_pow2 by lia. lia.
Qed.

End GPUCacheLines.



(** ** MemoryHierarchy: VRAM *)

Section MemoryHierarchyVram.

Import MemoryHierarchy.

Lemma vram_store_lookup_out (d : list byte) (v : gmap Z byte) (a x : Z) :
  x < a \/ a + Z.of_nat (length d) <= x -> vram_store v a d !! x = v !! x.
Proof.
  revert v a. induction d as [|b d IH]; intros v a H; [reflexivity|].
  cbn [vram_store]. cbn [length] in H. rewrite IH by lia.
  apply lookup_insert_ne. lia.
Qed.

Lemma vram_load_store (d : list byte) (v : gmap Z byte) (a : Z) :
  vram_load (vram_store v a d) a (length d) = d.
Proof.
  revert v a. induction d as [|b d IH]; intros v a; [reflexivity|].
  cbn [vram_store vram_load length]. rewrite IH. f_equal.
  rewrite vram_store_lookup_out by lia. rewrite lookup_insert_eq. reflexivity.
Qed.

Lemma vram_load_ext (n : nat) (v v' : gmap Z byte) (a : Z) :
  (forall x, a <= x < a + Z.of_nat n -> v !! x = v' !! x) ->
  vram_load v a n = vram_load v' a n.
Proof.
  revert a. induction n as [|n IH]; intros a H; [reflexivity|].
  cbn [vram_load]. rewrite (H a) by lia. f_equal. apply IH. intros x Hx. apply H. lia.
Qed.

Lemma read_vram (m : t) (a : Z) (buf : list byte) :
  vram_ (fst (fst (read m a buf))) = vram_ m.
Proof.
  unfold read.
  destruct (GPUCache.read (l1_cache_ m) a buf) as [[l1 hit1] buf1].
  destruct hit1; [reflexivity|]. cbn [l2_cache_ set_l1_cache].
  destruct (GPUCache.read (l2_cache_ m) a buf1) as [[l2 hit2] buf2].
  destruct hit2; [reflexivity|].
  destruct (_ <=? _); reflexivity.
Qed.

Lemma invalidate_range_vram (n : nat) (m : t) (addr : Z) :
  vram_ (invalidate_range m addr n) = vram_ m.
Proof.
  revert m addr. induction n as [|n IH]; intros m addr; [reflexivity|].
  cbn [invalidate_range]. rewrite IH. reflexivity.
Qed.

Lemma step_vram (m : t) (o : op) (a n x : Z) :
  away_from a n o -> a <= x < a + n -> vram_ (step m o) !! x = vram_ m !! x.
Proof.
  intros Ho Hx. destruct o as [a' buf|a' d'|size|a'|]; cbn [step].
  - rewrite read_vram. reflexivity.
  - unfold write. destruct (_ <=? _); [|reflexivity].
    cbn [fst vram_ set_vram set_l1_cache set_l2_cache].
    apply vram_store_lookup_out. cbn [away_from] in Ho. lia.
  - unfold allocate. destruct (_ >? _); reflexivity.
  - unfold deallocate. destruct (allocations_ m !! a'); [|reflexivity].
    cbn [vram_ set_allocations]. rewrite invalidate_range_vram. reflexivity.
  - reflexivity.
Qed.

Lemma run_vram (ops : list op) (m : t) (a n x : Z) :
  Forall (away_from a n) ops -> a <= x < a + n -> vram_ (run m ops) !! x = vram_ m !! x.
Proof.
  revert m. induction ops as [|o ops IH]; intros m Hops Hx; [reflexivity|].
  inversion Hops; subst. cbn [run fold_left].
  etransitivity; [apply IH; assumption|]. apply (step_vram m o a n x); assumption.
Qed.

Lemma read_after_flush (m : t) (a : Z) (buf : list byte) :
  wrap64 (a + Z.of_nat (length buf)) <= vram_size ->
  snd (fst (read (flush_all_caches m) a buf)) = true
  /\ snd (read (flush_all_caches m) a buf) = vram_load (vram_ m) a (length buf).
Proof.
  intros Hb. unfold read, flush_all_caches.
  cbn [l1_cache_ l2_cache_ set_l1_cache set_l2_cache vram_].
  rewrite (read_miss (GPUCache.flush (l1_cache_ m)) a buf)
    by (apply no_valid_line_find_line, no_valid_line_flush).
  cbn [l1_cache_ l2_cache_ set_l1_cache set_l2_cache vram_].
  rewrite (read_miss (GPUCache.flush (l2_cache_ m)) a buf)
    by (apply no_valid_line_find_line, no_valid_line_flush).
  cbn [l1_cache_ l2_cache_ set_l1_cache set_l2_cache vram_].
  apply Z.leb_le in Hb. rewrite Hb. cbn [fst snd]. split; reflexivity.
Qed.

(** X7. Data written inside VRAM survives in VRAM: after [write(a, d)] with
    [a + |d| <= vram.len], any sequence of operations that writes none of the
    bytes [a .. a + |d|), and [flush_all_caches], a [read(a, buf)] of the same
    length succeeds and returns all of [d], whatever its length. *)
Theorem MemoryHierarchy_vram_round_trip (m : t) (a : Z) (d buf : list byte) (ops : list op) :
  0 <= a -> a + Z.of_nat (length d) <= vram_size -> length buf = length d ->
  Forall (away_from a (Z.of_nat (length d))) ops ->
  let m' := flush_all_caches (run (fst (write m a d)) ops) in
  snd (write m a d) = true
  /\ snd (fst (read m' a buf)) = true
  /\ snd (read m' a buf) = d.
Proof.
  intros Ha Hb Hlen Hops m'.
  assert (Hw : wrap64 (a + Z.of_nat (length d)) <= vram_size).
  { rewrite wrap64_small; [exact Hb|]. unfold vram_size in Hb. lia. }
  assert (Hwrite : write m a d
                   = (set_vram (vram_store (vram_ m) a d)
                        (set_l2_cache (fst (GPUCache.write (l2_cache_ m) a d))
                           (set_l1_cache (fst (GPUCache.write (l1_cache_ m) a d)) m)),
                      true)).
  { unfold write. cbn [l1_cache_ l2_cache_ set_l1_cache set_l2_cache vram_].
    apply Z.leb_le in Hw. rewrite Hw. reflexivity. }
  split; [rewrite Hwrite; reflexivity|].
  subst m'.
  destruct (read_after_flush (run (fst (write m a d)) ops) a buf) as [H1 H2];
    [rewrite Hlen; exact Hw|].
  split; [exact H1|]. rewrite H2, Hlen.
  rewrite (vram_load_ext (length d) _ (vram_ (fst (write m a d))) a).
  - rewrite Hwrite. cbn [fst vram_ set_vram]. apply vram_load_store.
  - intros x Hx. apply (run_vram ops _ a (Z.of_nat (length d)) x Hops Hx).
Qed.

(** X7 at a concrete run: 200 bytes, more than three L1 lines. *)
Lemma MemoryHierarchy_vram_round_trip_witness :
  let d := replicate 200 xa5 in
  let m' := flush_all_caches
              (run (fst (write new 0x10000000 d))
                 [Read 0x10000000 [x00]; Write 0x10000100 [x01]; Allocate 64;
                  Deallocate 0x10000000]) in
  snd (fst (read m' 0x10000000 (replicate 200 x00))) = true
  /\ snd (read m' 0x10000000 (replicate 200 x00)) = d.
Proof.
  cbv zeta.
  destruct (MemoryHierarchy_vram_round_trip new 0x10000000 (replicate 200 xa5)
              (replicate 200 x00)
              [Read 0x10000000 [x00]; Write 0x10000100 [x01]; Allocate 64;
               Deallocate 0x10000000]) as (_ & H2 & H3).
  - lia.
  - vm_compute. discriminate.
  - reflexivity.
  - apply List.Forall_cons; [exact I|]. apply List.Forall_cons; [right; vm_compute; discriminate|].
    apply List.Forall_cons; [exact I|]. apply List.Forall_cons; [exact I|]. apply List.Forall_nil.
  - split; [exact H2|exact H3].
Defined.

(** X8. A [read] that returns false has missed both caches with a range
    that ends beyond VRAM on 64-bit values, and it leaves the buffer, VRAM
    and the lines of both caches as they were. *)
Theorem MemoryHierarchy_failed_read (m : t) (a : Z) (buf : list byte) :
  snd (fst (read m a buf)) = false ->
  let m' := fst (fst (read m a buf)) in
  snd (read m a buf) = buf
  /\ vram_size < wrap64 (a + Z.of_nat (length buf))
  /\ vram_ m' = vram_ m
  /\ GPUCache.cache_sets_ (l1_cache_ m') = GPUCache.cache_sets_ (l1_cache_ m)
  /\ GPUCache.cache_sets_ (l2_cache_ m') = GPUCache.cache_sets_ (l2_cache_ m).
Proof.
  unfold read.
  destruct (GPUCache.read (l1_cache_ m) a buf) as [[l1 hit1] buf1] eqn:E1.
  destruct hit1; [discriminate|].
  pose proof (read_miss_frame (l1_cache_ m) a buf) as H1.
  rewrite E1 in H1. cbn [fst snd] in H1. destruct (H1 eq_refl) as (-> & S1 & _).
  cbn [l2_cache_ set_l1_cache].
  destruct (GPUCache.read (l2_cache_ m) a buf) as [[l2 hit2] buf2] eqn:E2.
  destruct hit2; [discriminate|].
  pose proof (read_miss_frame (l2_cache_ m) a buf) as H2.
  rewrite E2 in H2. cbn [fst snd] in H2. destruct (H2 eq_refl) as (-> & S2 & _).
  destruct (_ <=? _) eqn:Eb; [discriminate|].
  intros _. cbn [fst snd l1_cache_ l2_cache_ set_l1_cache set_l2_cache vram_].
  apply Z.leb_gt in Eb. auto.
Qed.

(** X8 at a concrete read: one byte at the first address after VRAM. *)
Lemma MemoryHierarchy_failed_read_witness :
  snd (read new vram_size [x07]) = [x07]
  /\ vram_size < wrap64 (vram_size + 1).
Proof.
  destruct (MemoryHierarchy_failed_read new vram_size [x07]) as (H1 & H2 & _);
    [vm_compute; reflexivity|].
  split; [exact H1|exact H2].
Defined.

End MemoryHierarchyVram.

(** ** MemoryHierarchy: the allocator *)

Section MemoryHierarchyAllocator.

Import MemoryHierarchy.

Lemma wrap64_mod16 (z : Z) : wrap64 z mod 16 = z mod 16.
Proof.
  unfold wrap64. change (2 ^ 64) with (16 * 2 ^ 60).
  rewrite Z.rem_mul_r by lia.
  rewrite (Z.mul_comm 16), Z.mod_add by lia.
  apply Z.mod_mod. lia.
Qed.

(** What [allocate] computes: the rounded size and, on success, the record
    and the new cursor. *)
Lemma allocate_spec (m : t) (size : Z) :
  let rounded := 16 * (wrap64 (size + 15) / 16) in
  allocate m size
  = if wrap64 (next_allocation_address_ m + rounded) >? vram_size then (m, 0)
    else (set_next_allocation_address (wrap64 (next_allocation_address_ m + rounded))
            (set_allocations (<[next_allocation_address_ m := rounded]> (allocations_ m)) m),
          next_allocation_address_ m).
Proof.
  cbv zeta. unfold allocate. rewrite align16; [reflexivity|].
  unfold wrap64. apply Z.mod_pos_bound. lia.
Qed.

Lemma allocator_aligned_new : allocator_aligned new.
Proof.
  split; [cbn; unfold vram_size; lia|]. split; [reflexivity|].
  intros a s H. cbn in H. rewrite lookup_empty in H. discriminate.
Qed.

Lemma allocator_aligned_allocate (m : t) (size : Z) :
  allocator_aligned m -> allocator_aligned (fst (allocate m size)).
Proof.
  intros (Hr & Hn & Ha). rewrite allocate_spec.
  destruct (_ >? _) eqn:E; [split; [exact Hr|split; [exact Hn|exact Ha]]|].
  rewrite Z.gtb_ltb in E. apply Z.ltb_ge in E. unfold allocator_aligned.
  cbn [fst next_allocation_address_ allocations_ set_next_allocation_address set_allocations].
  split; [|split].
  - split; [|exact E]. unfold wrap64. apply Z.mod_pos_bound. lia.
  - rewrite wrap64_mod16. rewrite (Z.mul_comm 16), Z.mod_add by lia. exact Hn.
  - intros a s H. apply lookup_insert_Some in H as [[<- <-]|[_ H]]; [|exact (Ha a s H)].
    split; [exact Hn|]. rewrite Z.mul_comm. apply Z.mod_mul. lia.
Qed.

Lemma allocator_aligned_step (m : t) (o : op) :
  allocator_aligned m -> allocator_aligned (step m o).
Proof.
  intros Hm. pose proof Hm as (Hr & Hn & Ha).
  destruct o as [a buf|a d|size|a|]; cbn [step].
  - unfold allocator_aligned. rewrite read_next_allocation_address, read_allocations.
    exact Hm.
  - unfold allocator_aligned. rewrite write_allocations.
    unfold write. destruct (_ <=? _); cbn [fst next_allocation_address_ set_vram
      set_l1_cache set_l2_cache]; exact Hm.
  - apply allocator_aligned_allocate. exact Hm.
  - unfold deallocate. destruct (allocations_ m !! a) as [s|] eqn:E; [|exact Hm].
    assert (Hnext : forall n m0 addr,
               next_allocation_address_ (invalidate_range m0 addr n)
               = next_allocation_address_ m0).
    { induction n as [|n IH]; intros m0 addr; [reflexivity|].
      cbn [invalidate_range]. rewrite IH. reflexivity. }
    unfold allocator_aligned.
    cbn [next_allocation_address_ allocations_ set_allocations].
    rewrite Hnext. split; [exact Hr|]. split; [exact Hn|].
    intros a' s' H. apply lookup_delete_Some in H as [_ H]. exact (Ha a' s' H).
  - exact Hm.
Qed.

Lemma allocator_aligned_run (ops : list op) (m : t) :
  allocator_aligned m -> allocator_aligned (run m ops).
Proof.
  revert m. induction ops as [|o ops IH]; intros m H; [exact H|].
  apply IH, allocator_aligned_step, H.
Qed.

(** X9. In every state a run of operations reaches from a new hierarchy,
    the allocator cursor is inside VRAM, every recorded allocation has a base
    and a size that are multiples of 16 and ends inside VRAM on 64-bit
    values, and the next [allocate] returns a multiple of 16. *)
Theorem MemoryHierarchy_allocations_aligned_and_bounded (ops : list op) (size : Z) :
  let m := run new ops in
  snd (allocate m size) mod 16 = 0
  /\ 0 <= next_allocation_address_ m <= vram_size
  /\ (forall a s, allocations_ m !! a = Some s ->
                  a mod 16 = 0 /\ s mod 16 = 0 /\ wrap64 (a + s) <= vram_size).
Proof.
  intros m.
  destruct (allocator_aligned_run ops new allocator_aligned_new) as (Hr & Hn & Ha).
  fold m in Hr, Hn, Ha.
  split; [|split; [exact Hr|]].
  - rewrite allocate_spec. destruct (_ >? _); [reflexivity|exact Hn].
  - intros a s H. destruct (Ha a s H) as [H1 H2].
    split; [exact H1|]. split; [exact H2|]. exact (records_bounded_run ops a s H).
Qed.

(** X9 at a concrete run: the record of [allocate(100)]. *)
Lemma MemoryHierarchy_allocations_aligned_and_bounded_witness :
  let m := run new [Allocate 100; Write 0x10000000 [x01]] in
  allocations_ m !! 0x10000000 = Some 112
  /\ 0x10000000 mod 16 = 0 /\ 112 mod 16 = 0 /\ wrap64 (0x10000000 + 112) <= vram_size.
Proof.
  split; [vm_compute; reflexivity|].
  destruct (MemoryHierarchy_allocations_aligned_and_bounded
              [Allocate 100; Write 0x10000000 [x01]] 0) as (_ & _ & H).
  apply (H 0x10000000 112). vm_compute. reflexivity.
Defined.

(** X10. Two successive allocations of [1 .. 2^63] bytes that both return a
    non-zero address do not overlap: the second block starts at or after the
    end of the first, ends inside VRAM, and the first block stays recorded
    with its size rounded up to a multiple of 16. *)
Theorem MemoryHierarchy_allocate_twice_disjoint (ops : list op) (size1 size2 : Z) :
  0 < size1 <= 2 ^ 63 -> 0 < size2 <= 2 ^ 63 ->
  let m := run new ops in
  let first := snd (allocate m size1) in
  let second := snd (allocate (fst (allocate m size1)) size2) in
  first <> 0 -> second <> 0 ->
  first + size1 <= second /\ second + size2 <= vram_size
  /\ allocations_ (fst (allocate (fst (allocate m size1)) size2)) !! first
     = Some (16 * ((size1 + 15) / 16)).
Proof.
  intros H1 H2 m first second.
  destruct (allocator_aligned_run ops new allocator_aligned_new) as (Hr & _ & _).
  fold m in Hr. subst first second. rewrite !allocate_spec.
  rewrite (wrap64_small (size1 + 15)), (wrap64_small (size2 + 15)) by lia.
  pose proof (Z.div_mod (size1 + 15) 16 ltac:(lia)) as Hd1.
  pose proof (Z.mod_pos_bound (size1 + 15) 16 ltac:(lia)) as Hm1.
  pose proof (Z.div_mod (size2 + 15) 16 ltac:(lia)) as Hd2.
  pose proof (Z.mod_pos_bound (size2 + 15) 16 ltac:(lia)) as Hm2.
  unfold vram_size in *.
  rewrite (wrap64_small (next_allocation_address_ m + _)) by lia.
  destruct (_ >? _) eqn:E1; [cbn [snd]; congruence|].
  rewrite Z.gtb_ltb in E1. apply Z.ltb_ge in E1.
  cbn [fst snd next_allocation_address_ allocations_ set_next_allocation_address
       set_allocations].
  rewrite (wrap64_small (next_allocation_address_ m + _ + _)) by lia.
  destruct (_ >? _) eqn:E2; [cbn [snd]; congruence|].
  rewrite Z.gtb_ltb in E2. apply Z.ltb_ge in E2.
  cbn [fst snd next_allocation_address_ allocations_ set_next_allocation_address
       set_allocations].
  intros _ _. split; [lia|]. split; [lia|].
  rewrite lookup_insert_ne by lia. apply lookup_insert_eq.
Qed.

(** X10 at a concrete run. *)
Lemma MemoryHierarchy_allocate_twice_disjoint_witness :
  let m := run new [Allocate 100; Write 0x10000000 [x01]] in
  snd (allocate m 48) + 48 <= snd (allocate (fst (allocate m 48)) 32).
Proof.
  cbv zeta.
  destruct (MemoryHierarchy_allocate_twice_disjoint [Allocate 100; Write 0x10000000 [x01]]
              48 32) as (H & _).
  - lia.
  - lia.
  - vm_compute. discriminate.
  - vm_compute. discriminate.
  - exact H.
Defined.



End MemoryHierarchyAllocator.

(** ** MemoryHierarchy: deallocation of an aligned block *)

Section MemoryHierarchyDeallocate.

Import MemoryHierarchy.

Lemma caches_well_keyed_new : caches_well_keyed new.
Proof. split; apply well_keyed_new. Qed.

Lemma caches_well_keyed_read (m : t) (a : Z) (buf : list byte) :
  caches_well_keyed m -> caches_well_keyed (fst (fst (read m a buf))).
Proof.
  intros [H1 H2]. unfold read.
  pose proof (well_keyed_read (l1_cache_ m) a buf H1) as H1'.
  destruct (GPUCache.read (l1_cache_ m) a buf) as [[l1 hit1] buf1]. cbn [fst] in H1'.
  destruct hit1; [split; assumption|].
  cbn [l2_cache_ set_l1_cache].
  pose proof (well_keyed_read (l2_cache_ m) a buf1 H2) as H2'.
  destruct (GPUCache.read (l2_cache_ m) a buf1) as [[l2 hit2] buf2]. cbn [fst] in H2'.
  destruct hit2.
  - split; [apply well_keyed_write; exact H1'|exact H2'].
  - destruct (wrap64 _ <=? vram_size).
    + split; [apply well_keyed_write; exact H1'|apply well_keyed_write; exact H2'].
    + split; assumption.
Qed.

Lemma caches_well_keyed_invalidate_range (n : nat) (m : t) (addr : Z) :
  caches_well_keyed m -> caches_well_keyed (invalidate_range m addr n).
Proof.
  revert m addr. induction n as [|n IH]; intros m addr [H1 H2]; [split; assumption|].
  cbn [invalidate_range]. apply IH. split; apply well_keyed_invalidate; assumption.
Qed.

Lemma caches_well_keyed_step (m : t) (o : op) :
  caches_well_keyed m -> caches_well_keyed (step m o).
Proof.
  intros H. destruct o as [a buf|a d|size|a|]; cbn [step].
  - apply caches_well_keyed_read, H.
  - destruct H as [H1 H2]. unfold write.
    destruct (wrap64 _ <=? vram_size);
      (split; [apply well_keyed_write; exact H1|apply well_keyed_write; exact H2]).
  - unfold allocate. destruct (wrap64 _ >? vram_size); exact H.
  - unfold deallocate. destruct (allocations_ m !! a); [|exact H].
    apply (caches_well_keyed_invalidate_range _ m a H).
  - split; apply well_keyed_no_valid_line, no_valid_line_flush.
Qed.

Lemma caches_well_keyed_run (ops : list op) (m : t) :
  caches_well_keyed m -> caches_well_keyed (run m ops).
Proof.
  revert m. induction ops as [|o ops IH]; intros m H; [exact H|].
  apply IH, caches_well_keyed_step, H.
Qed.

Lemma invalidate_range_keeps_None (n : nat) (m : t) (addr y : Z) :
  (fst (GPUCache.find_line (l1_cache_ m) y) = None ->
   fst (GPUCache.find_line (l1_cache_ (invalidate_range m addr n)) y) = None)
  /\ (fst (GPUCache.find_line (l2_cache_ m) y) = None ->
      fst (GPUCache.find_line (l2_cache_ (invalidate_range m addr n)) y) = None).
Proof.
  revert m addr. induction n as [|n IH]; intros m addr; [split; auto|].
  cbn [invalidate_range].
  destruct (IH (set_l2_cache (GPUCache.invalidate
                                (l2_cache_ (set_l1_cache
                                              (GPUCache.invalidate (l1_cache_ m) addr) m)) addr)
                  (set_l1_cache (GPUCache.invalidate (l1_cache_ m) addr) m))
               (wrap64 (addr + 64))) as [I1 I2].
  split; intros H.
  - apply I1. cbn [l1_cache_ set_l1_cache set_l2_cache]. apply invalidate_keeps_None, H.
  - apply I2. cbn [l2_cache_ set_l1_cache set_l2_cache]. apply invalidate_keeps_None, H.
Qed.

(** After the loop of [deallocate] has run [n] times from [addr], neither
    cache finds a line for any of the addresses it visited. *)
Lemma invalidate_range_covers (n : nat) (m : t) (addr : Z) (j : nat) :
  caches_well_keyed m -> (j < n)%nat -> 0 <= addr -> addr + 64 * Z.of_nat n < 2 ^ 64 ->
  fst (GPUCache.find_line (l1_cache_ (invalidate_range m addr n)) (addr + 64 * Z.of_nat j))
  = None
  /\ fst (GPUCache.find_line (l2_cache_ (invalidate_range m addr n)) (addr + 64 * Z.of_nat j))
     = None.
Proof.
  revert m addr j. induction n as [|n IH]; intros m addr j [H1 H2] Hj Ha Hn; [lia|].
  cbn [invalidate_range].
  set (m1 := set_l2_cache _ (set_l1_cache _ m)).
  assert (Hk : caches_well_keyed m1)
    by (split; apply well_keyed_invalidate; assumption).
  rewrite wrap64_small by lia.
  destruct j as [|j].
  - rewrite Z.mul_0_r, Z.add_0_r.
    destruct (invalidate_range_keeps_None n m1 (addr + 64) addr) as [K1 K2].
    split; [apply K1|apply K2]; subst m1; cbn [l1_cache_ l2_cache_ set_l1_cache set_l2_cache];
      apply invalidate_find_line; assumption.
  - replace (addr + 64 * Z.of_nat (S j)) with (addr + 64 + 64 * Z.of_nat j) by lia.
    apply IH; [exact Hk|lia|lia|lia].
Qed.

(** X12. Where [deallocate] does invalidate: for a recorded allocation whose
    base is a multiple of 64 and which ends inside VRAM, in every state a run
    of operations reaches from a new hierarchy, after [deallocate(a)] the
    record is gone and a read of either cache at any address of
    [a .. a + size) misses. *)
Theorem MemoryHierarchy_deallocate_invalidates_aligned_range (ops : list op)
    (a size x : Z) (buf : list byte) :
  let m := run new ops in
  allocations_ m !! a = Some size ->
  0 <= a -> a mod 64 = 0 -> a + size <= vram_size -> a <= x < a + size ->
  let m' := deallocate m a in
  allocations_ m' !! a = None
  /\ snd (fst (GPUCache.read (l1_cache_ m') x buf)) = false
  /\ snd (fst (GPUCache.read (l2_cache_ m') x buf)) = false.
Proof.
  intros m Hrec Ha Hal Hin Hx m'.
  destruct (caches_shaped_run ops new caches_shaped_new) as [S1 S2]. fold m in S1, S2.
  pose proof (caches_well_keyed_run ops new caches_well_keyed_new) as Hk. fold m in Hk.
  unfold vram_size in Hin.
  subst m'. unfold deallocate. rewrite Hrec.
  rewrite wrap64_small by lia.
  assert (Hlt : (a <? a + size) = true) by (apply Z.ltb_lt; lia). rewrite Hlt.
  replace (a + size - a + 63) with (size + 63) by lia.
  cbn [allocations_ l1_cache_ l2_cache_ set_allocations].
  split; [apply lookup_delete_eq|].
  set (n := Z.to_nat ((size + 63) / 64)).
  set (j := Z.to_nat ((x - a) / 64)).
  pose proof (Z.div_mod (x - a) 64 ltac:(lia)) as Hd1.
  pose proof (Z.mod_pos_bound (x - a) 64 ltac:(lia)) as Hm1.
  pose proof (Z.div_mod (size + 63) 64 ltac:(lia)) as Hd2.
  pose proof (Z.mod_pos_bound (size + 63) 64 ltac:(lia)) as Hm2.
  pose proof (Z.div_mod a 64 ltac:(lia)) as Hd3.
  assert (Hj : (j < n)%nat) by (subst j n; lia).
  destruct (invalidate_range_covers n m a j Hk Hj Ha) as [C1 C2]; [subst n; lia|].
  subst j. rewrite Z2Nat.id in C1, C2 by lia.
  set (y := a + 64 * ((x - a) / 64)) in *.
  set (m1 := invalidate_range m a n) in *.
  destruct (caches_shaped_invalidate_range n m a (conj S1 S2)) as [T1 T2]. fold m1 in T1, T2.
  assert (Hy : y <= x < y + 64) by (subst y; lia).
  assert (Hy64 : y mod 64 = 0).
  { subst y. rewrite (Z.mul_comm 64), Z.mod_add by lia. exact Hal. }
  pose proof (Z.div_mod y 64 ltac:(lia)) as Hd4.
  assert (Hq64 : x / 64 = y / 64).
  { symmetry. apply (Z.div_unique x 64 (y / 64) (x - y)); lia. }
  pose proof (Z.div_mod (y / 64) 2 ltac:(lia)) as Hd5.
  pose proof (Z.mod_pos_bound (y / 64) 2 ltac:(lia)) as Hm5.
  assert (Hq128 : x / 128 = y / 128).
  { transitivity (y / 64 / 2).
    - symmetry. apply (Z.div_unique x 128 (y / 64 / 2) (x - 128 * (y / 64 / 2))); lia.
    - apply (Z.div_unique y 128 (y / 64 / 2) (y - 128 * (y / 64 / 2))); lia. }
  destruct T1 as (_ & _ & L1 & N1 & _). destruct T2 as (_ & _ & L2 & N2 & _).
  assert (E1s : GPUCache.get_set_index (l1_cache_ m1) y
                = GPUCache.get_set_index (l1_cache_ m1) x).
  { unfold GPUCache.get_set_index. rewrite L1, N1, Hq64. reflexivity. }
  assert (E1b : GPUCache.line_base (l1_cache_ m1) y = GPUCache.line_base (l1_cache_ m1) x).
  { rewrite (line_base_pow2 (l1_cache_ m1) 6 y), (line_base_pow2 (l1_cache_ m1) 6 x);
      try lia; try exact L1. change (2 ^ 6) with 64. rewrite Hq64. reflexivity. }
  assert (E2s : GPUCache.get_set_index (l2_cache_ m1) y
                = GPUCache.get_set_index (l2_cache_ m1) x).
  { unfold GPUCache.get_set_index. rewrite L2, N2, Hq128. reflexivity. }
  assert (E2b : GPUCache.line_base (l2_cache_ m1) y = GPUCache.line_base (l2_cache_ m1) x).
  { rewrite (line_base_pow2 (l2_cache_ m1) 7 y), (line_base_pow2 (l2_cache_ m1) 7 x);
      try lia; try exact L2. change (2 ^ 7) with 128. rewrite Hq128. reflexivity. }
  split.
  - rewrite (read_miss (l1_cache_ m1) x buf
               (find_line_same_line (l1_cache_ m1) y x E1s E1b C1)). reflexivity.
  - rewrite (read_miss (l2_cache_ m1) x buf
               (find_line_same_line (l2_cache_ m1) y x E2s E2b C2)). reflexivity.
Qed.

End MemoryHierarchyDeallocate.

(** X12 at a concrete run: the block of [allocate(100)], written at its
    second line and then released. *)
Lemma MemoryHierarchy_deallocate_invalidates_aligned_range_witness :
  let m := MemoryHierarchy.run MemoryHierarchy.new
             [MemoryHierarchy.Allocate 100; MemoryHierarchy.Write 0x10000040 [xab]] in
  let m' := MemoryHierarchy.deallocate m 0x10000000 in
  snd (fst (GPUCache.read (MemoryHierarchy.l1_cache_ m') 0x10000040 [x00])) = false
  /\ snd (fst (GPUCache.read (MemoryHierarchy.l2_cache_ m') 0x10000040 [x00])) = false.
Proof.
  cbv zeta.
  destruct (MemoryHierarchy_deallocate_invalidates_aligned_range
              [MemoryHierarchy.Allocate 100; MemoryHierarchy.Write 0x10000040 [xab]]
              0x10000000 112 0x10000040 [x00]) as (_ & H1 & H2).
  - vm_compute. reflexivity.
  - lia.
  - reflexivity.
  - vm_compute. discriminate.
  - lia.
  - split; [exact H1|exact H2].
Defined.

(** ** MemoryHierarchy: statistics *)

Section MemoryHierarchyStatistics.

Import MemoryHierarchy.

(** A [GPUCache::write] that finds no line counts one miss and no hit. *)
Lemma write_miss_counters (c : GPUCache.t) (a : Z) (d : list byte) :
  fst (GPUCache.find_line c a) = None ->
  GPUCache.hit_count_ (fst (GPUCache.write c a d)) = GPUCache.hit_count_ c
  /\ GPUCache.miss_count_ (fst (GPUCache.write c a d)) = wrap64 (GPUCache.miss_count_ c + 1).
Proof.
  intros H. unfold GPUCache.write.
  pose proof (find_line_set_access_count c a (wrap64 (GPUCache.access_count_ c + 1))) as E.
  rewrite H in E.
  pose proof (find_line_None _ a E) as E'.
  destruct (GPUCache.find_line (GPUCache.set_access_count _ c) a) as [found c1].
  cbn [fst snd] in E, E'. subst found c1.
  pose proof (allocate_line_counters
                (GPUCache.set_access_count (wrap64 (GPUCache.access_count_ c + 1)) c) a)
    as (Hh & Hm & _).
  destruct (GPUCache.allocate_line _ a) as [target c2]. cbn [snd] in Hh, Hm.
  cbn [GPUCache.hit_count_ GPUCache.miss_count_ GPUCache.set_access_count] in Hh, Hm.
  destruct target as [l|]; [|cbn; rewrite Hm; auto].
  destruct (GPUCache.line_at _ l); cbn; rewrite Hm; auto.
Qed.

(** X13. A [read] served from VRAM (both caches miss and the range is inside
    VRAM) succeeds and counts two misses in each cache, the read that missed
    and the write that installs the line: in [get_statistics] the L1 and L2
    miss counts and [vram_accesses] each grow by two and the hit counts stay. *)
Theorem MemoryHierarchy_vram_read_counts_two_misses (m : t) (a : Z) (buf : list byte) :
  snd (fst (GPUCache.read (l1_cache_ m) a buf)) = false ->
  snd (fst (GPUCache.read (l2_cache_ m) a buf)) = false ->
  wrap64 (a + Z.of_nat (length buf)) <= vram_size ->
  let s := get_statistics m in
  let s' := get_statistics (fst (fst (read m a buf))) in
  snd (fst (read m a buf)) = true
  /\ l1_hits s' = l1_hits s /\ l2_hits s' = l2_hits s
  /\ l1_misses s' = wrap64 (wrap64 (l1_misses s + 1) + 1)
  /\ l2_misses s' = wrap64 (wrap64 (l2_misses s + 1) + 1)
  /\ vram_accesses s' = wrap64 (wrap64 (vram_accesses s + 1) + 1).
Proof.
  intros H1 H2 Hb.
  pose proof (read_result_false _ a buf H1) as F1.
  pose proof (read_result_false _ a buf H2) as F2.
  cbv zeta. unfold read.
  rewrite (read_miss (l1_cache_ m) a buf F1).
  cbn [l1_cache_ l2_cache_ set_l1_cache set_l2_cache vram_].
  rewrite (read_miss (l2_cache_ m) a buf F2).
  cbn [l1_cache_ l2_cache_ set_l1_cache set_l2_cache vram_].
  apply Z.leb_le in Hb. rewrite Hb.
  cbn [l1_cache_ l2_cache_ set_l1_cache set_l2_cache vram_ fst snd].
  set (c1 := GPUCache.set_miss_count _ (GPUCache.set_access_count _ (l1_cache_ m))).
  set (c2 := GPUCache.set_miss_count _ (GPUCache.set_access_count _ (l2_cache_ m))).
  set (loaded := vram_load (vram_ m) a (length buf)).
  assert (G1 : fst (GPUCache.find_line c1 a) = None).
  { subst c1. rewrite <- F1. unfold GPUCache.find_line, GPUCache.line_at,
      GPUCache.get_set_index, GPUCache.line_base.
    cbn [GPUCache.cache_sets_ GPUCache.line_size_ GPUCache.num_sets_
         GPUCache.set_miss_count GPUCache.set_access_count fst snd].
    destruct (GPUCache.cache_sets_ (l1_cache_ m) !! _) as [set|]; [|reflexivity].
    destruct (GPUCache.find_way set _) as [w|]; [|reflexivity].
    destruct (set !! w) as [[line|]|]; reflexivity. }
  assert (G2 : fst (GPUCache.find_line c2 a) = None).
  { subst c2. rewrite <- F2. unfold GPUCache.find_line, GPUCache.line_at,
      GPUCache.get_set_index, GPUCache.line_base.
    cbn [GPUCache.cache_sets_ GPUCache.line_size_ GPUCache.num_sets_
         GPUCache.set_miss_count GPUCache.set_access_count fst snd].
    destruct (GPUCache.cache_sets_ (l2_cache_ m) !! _) as [set|]; [|reflexivity].
    destruct (GPUCache.find_way set _) as [w|]; [|reflexivity].
    destruct (set !! w) as [[line|]|]; reflexivity. }
  destruct (write_miss_counters c1 a loaded G1) as [W1h W1m].
  destruct (write_miss_counters c2 a loaded G2) as [W2h W2m].
  unfold get_statistics, GPUCache.get_hit_count, GPUCache.get_miss_count.
  cbn [l1_hits l2_hits l1_misses l2_misses vram_accesses l1_cache_ l2_cache_
       set_l1_cache set_l2_cache].
  rewrite W1h, W1m, W2h, W2m.
  repeat split; reflexivity.
Qed.

(** X13 at a concrete read: the first read of a new hierarchy. *)
Lemma MemoryHierarchy_vram_read_counts_two_misses_witness :
  let s' := get_statistics (fst (fst (read new 0x10000000 [x00; x00; x00; x00]))) in
  l1_misses s' = 2 /\ l2_misses s' = 2 /\ vram_accesses s' = 2.
Proof.
  destruct (MemoryHierarchy_vram_read_counts_two_misses new 0x10000000 [x00; x00; x00; x00])
    as (_ & _ & _ & H1 & H2 & H3); try (vm_compute; reflexivity).
  - vm_compute. discriminate.
  - split; [exact H1|]. split; [exact H2|exact H3].
Defined.

(** X6 at a concrete run: four bytes ending at the end of an L1 line. *)
Lemma MemoryHierarchy_write_read_within_line_witness :
  let m := fst (write (run new [Allocate 64; Read 0x10000000 [x00]]) 0x1000003C
                  [x01; x02; x03; x04]) in
  snd (fst (read m 0x1000003C [x00; x00; x00; x00])) = true
  /\ snd (read m 0x1000003C [x00; x00; x00; x00]) = [x01; x02; x03; x04].
Proof.
  apply (MemoryHierarchy_write_read_within_line [Allocate 64; Read 0x10000000 [x00]]
           0x1000003C [x01; x02; x03; x04] [x00; x00; x00; x00]).
  - vm_compute. discriminate.
  - reflexivity.
Defined.

End MemoryHierarchyStatistics.



(** ** PerformanceMonitor: counters, timers, histories and alerts *)

Section PerformanceMonitorFacts.

Import PerformanceMonitor.

(** X14. The counters as a map: after [set_counter(k, v)] the counter [k]
    reads [v], after [increment_counter(k, v)] it reads the old value plus
    [v] on 64-bit values, every other counter reads what it read before, and
    a counter of a new or reset monitor reads 0. *)
Theorem PerformanceMonitor_counter_round_trip (p : t) (counter other : string) (value : Z) :
  get_counter (set_counter counter value p) other
  = (if decide (other = counter) then value else get_counter p other)
  /\ get_counter (increment_counter counter value p) other
     = (if decide (other = counter) then wrap64 (get_counter p counter + value)
        else get_counter p other)
  /\ get_counter new other = 0
  /\ get_counter (reset_all_metrics p) other = 0.
Proof.
  unfold get_counter, set_counter, increment_counter, set_counters, reset_all_metrics, new.
  cbn [counters_].
  destruct (decide (other = counter)) as [->|Hne].
  - rewrite !lookup_insert_eq, lookup_empty. auto.
  - rewrite !lookup_insert_ne, lookup_empty by congruence. auto.
Qed.

(** X15. [start_timer] followed by [end_timer] for one event appends one
    duration to the history of the event, the difference of the two clock
    readings in milliseconds as a [double], dropping the oldest duration when
    the history is full, and forgets the start time; a further [end_timer]
    for the event changes nothing. *)
Theorem PerformanceMonitor_timer_records_once (p : t) (event : string)
    (started ended again : Z) :
  let p' := end_timer ended event (start_timer started event p) in
  timing_history_ p' !! event
  = Some (push_bounded (max_history_size_ p)
            (b64_div (b64_of_Z (ended - started)) (b64_of_Z 1000000))
            (default [] (timing_history_ p !! event)))
  /\ start_times_ p' !! event = None
  /\ end_timer again event p' = p'.
Proof.
  cbv zeta. split; [|split].
  - unfold end_timer, start_timer, set_start_times, set_timing_history.
    cbn [start_times_ timing_history_ max_history_size_].
    rewrite lookup_insert_eq. cbn [start_times_ timing_history_ max_history_size_].
    apply lookup_insert_eq.
  - unfold end_timer, start_timer, set_start_times, set_timing_history.
    cbn [start_times_ timing_history_ max_history_size_].
    rewrite lookup_insert_eq. cbn [start_times_ timing_history_ max_history_size_].
    apply lookup_delete_eq.
  - unfold end_timer, start_timer, set_start_times, set_timing_history.
    cbn [start_times_ timing_history_ max_history_size_].
    rewrite lookup_insert_eq. cbn [start_times_ timing_history_ max_history_size_].
    rewrite lookup_delete_eq. reflexivity.
Qed.

Lemma length_push_bounded {A : Type} (cap : Z) (x : A) (v : list A) :
  0 < cap -> Z.of_nat (length v) <= cap ->
  1 <= Z.of_nat (length (push_bounded cap x v)) <= cap.
Proof.
  intros Hc Hv. unfold push_bounded.
  destruct (cap <=? Z.of_nat (length v)) eqn:E.
  - apply Z.leb_le in E. rewrite length_app, length_drop. cbn [length]. lia.
  - apply Z.leb_gt in E. rewrite length_app. cbn [length]. lia.
Qed.

Lemma histories_bounded_new : histories_bounded new.
Proof.
  unfold histories_bounded, new. cbn.
  repeat split; try lia; rewrite lookup_empty in H; discriminate.
Qed.

Lemma histories_bounded_step (p : t) (o : op) :
  histories_bounded p -> histories_bounded (step p o).
Proof.
  intros Hp. pose proof Hp as (Hm & Htri & Hfrag & Hlen & Hhist).
  destruct o as [now event|now event|counter value|counter value|now component bytes
                |cache hit|frame_time_ms triangles fragments| |enable| |metric threshold];
    cbn [step].
  - exact Hp.
  - unfold end_timer. destruct (start_times_ p !! event) as [started|]; [|exact Hp].
    unfold histories_bounded, set_start_times, set_timing_history.
    cbn [max_history_size_ triangle_counts_ frame_times_ fragment_counts_ timing_history_].
    split; [exact Hm|]. split; [exact Htri|]. split; [exact Hfrag|]. split; [exact Hlen|].
    intros e h H. apply lookup_insert_Some in H as [[_ <-]|[_ H]]; [|exact (Hhist e h H)].
    rewrite Hm. apply length_push_bounded; [lia|].
    destruct (timing_history_ p !! event) as [h0|] eqn:E; cbn [default length]; [|lia].
    apply (Hhist event h0 E).
  - exact Hp.
  - exact Hp.
  - exact Hp.
  - unfold record_cache_access. destruct hit; exact Hp.
  - unfold record_frame_metrics, set_frames, histories_bounded.
    cbn [max_history_size_ triangle_counts_ frame_times_ fragment_counts_ timing_history_].
    split; [exact Hm|]. rewrite Hm.
    destruct (1000 <=? Z.of_nat (length (frame_times_ p))) eqn:E.
    + apply Z.leb_le in E. rewrite !length_app, !length_drop. cbn [length].
      split; [lia|]. split; [lia|]. split; [lia|exact Hhist].
    + apply Z.leb_gt in E. rewrite !length_app. cbn [length].
      split; [lia|]. split; [lia|]. split; [lia|exact Hhist].
  - unfold reset_all_metrics, histories_bounded.
    cbn [max_history_size_ triangle_counts_ frame_times_ fragment_counts_ timing_history_
         length].
    split; [exact Hm|]. split; [reflexivity|]. split; [reflexivity|]. split; [lia|].
    intros e h H. rewrite lookup_empty in H. discriminate.
  - exact Hp.
  - unfold update_real_time_metrics. destruct (real_time_monitoring_ p); exact Hp.
  - exact Hp.
Qed.

Lemma histories_bounded_run (ops : list op) (p : t) :
  histories_bounded p -> histories_bounded (run p ops).
Proof.
  revert p. induction ops as [|o ops IH]; intros p H; [exact H|].
  apply IH, histories_bounded_step, H.
Qed.

(** X16. In every state a run of operations reaches from a new monitor, the
    three frame vectors have one length, at most 1000, and every timing
    history that exists holds between 1 and 1000 durations. *)
Theorem PerformanceMonitor_histories_are_bounded (ops : list op) :
  let p := run new ops in
  length (triangle_counts_ p) = length (frame_times_ p)
  /\ length (fragment_counts_ p) = length (frame_times_ p)
  /\ Z.of_nat (length (frame_times_ p)) <= 1000
  /\ (forall event history, timing_history_ p !! event = Some history ->
                            1 <= Z.of_nat (length history) <= 1000).
Proof.
  intros p.
  destruct (histories_bounded_run ops new histories_bounded_new) as (_ & H).
  exact H.
Qed.

(** X16 at a concrete run: one timed event. *)
Lemma PerformanceMonitor_histories_are_bounded_witness :
  let p := run new [StartTimer 0 "e"; EndTimer 5000000 "e"] in
  timing_history_ p !! "e" = Some [b64_of_Z 5]
  /\ 1 <= Z.of_nat (length [b64_of_Z 5]) <= 1000.
Proof.
  split; [vm_compute; reflexivity|].
  destruct (PerformanceMonitor_histories_are_bounded
              [StartTimer 0 "e"; EndTimer 5000000 "e"]) as (_ & _ & _ & H).
  apply (H "e"). vm_compute. reflexivity.
Defined.

Lemma bandwidth_paired_step (p : t) (o : op) :
  bandwidth_paired p -> bandwidth_paired (step p o).
Proof.
  intros Hp.
  destruct o as [now event|now event|counter value|counter value|now component bytes
                |cache hit|frame_time_ms triangles fragments| |enable| |metric threshold];
    cbn [step]; try exact Hp.
  - unfold end_timer. destruct (start_times_ p !! event); exact Hp.
  - intros k. unfold record_bandwidth_usage, set_bandwidth.
    cbn [bandwidth_bytes_ bandwidth_start_times_].
    destruct (decide (k = component)) as [->|Hne].
    + rewrite lookup_insert_eq.
      destruct (bandwidth_start_times_ p !! component) eqn:E.
      * rewrite E. split; eauto.
      * rewrite lookup_insert_eq. split; eauto.
    + rewrite lookup_insert_ne by congruence.
      destruct (bandwidth_start_times_ p !! component) eqn:E; [apply Hp|].
      rewrite lookup_insert_ne by congruence. apply Hp.
  - unfold record_cache_access. destruct hit; exact Hp.
  - intros k. unfold reset_all_metrics. cbn [bandwidth_bytes_ bandwidth_start_times_].
    rewrite !lookup_empty. reflexivity.
  - unfold update_real_time_metrics. destruct (real_time_monitoring_ p); exact Hp.
Qed.

Lemma bandwidth_paired_run (ops : list op) (p : t) :
  bandwidth_paired p -> bandwidth_paired (run p ops).
Proof.
  revert p. induction ops as [|o ops IH]; intros p H; [exact H|].
  apply IH, bandwidth_paired_step, H.
Qed.

(** X17. In every state a run of operations reaches from a new monitor, a
    component has a byte count exactly when it has a start time; two
    recordings for a component keep the start time that was there, or the
    clock reading of the first recording when there was none, and add both
    byte counts on 64-bit values. *)
Theorem PerformanceMonitor_bandwidth_recordings (ops : list op) (component : string)
    (now1 bytes1 now2 bytes2 : Z) :
  let p := run new ops in
  let p' := record_bandwidth_usage now2 component bytes2
              (record_bandwidth_usage now1 component bytes1 p) in
  (forall k, is_Some (bandwidth_bytes_ p !! k) <-> is_Some (bandwidth_start_times_ p !! k))
  /\ bandwidth_start_times_ p' !! component
     = Some (default now1 (bandwidth_start_times_ p !! component))
  /\ bandwidth_bytes_ p' !! component
     = Some (wrap64 (wrap64 (default 0 (bandwidth_bytes_ p !! component) + bytes1) + bytes2)).
Proof.
  intros p p'. split.
  - apply (bandwidth_paired_run ops new). intros k. cbn. rewrite !lookup_empty. reflexivity.
  - subst p'. unfold record_bandwidth_usage, set_bandwidth.
    cbn [bandwidth_bytes_ bandwidth_start_times_].
    rewrite !lookup_insert_eq. cbn [default].
    split; [|reflexivity].
    destruct (bandwidth_start_times_ p !! component) as [t0|] eqn:E.
    + rewrite E. exact E.
    + rewrite lookup_insert_eq. apply lookup_insert_eq.
Qed.

Lemma omap_all_None {A B : Type} (f : A -> option B) (l : list A) :
  (forall x, f x = None) -> omap f l = [].
Proof.
  intros H. induction l as [|x l IH]; [reflexivity|].
  cbn [omap list_omap]. rewrite H. exact IH.
Qed.

(** X18. A hit-rate alert needs a hit and a miss on record: on a monitor
    with no frame recorded and with no hit recorded for any cache, or no miss
    recorded for any cache, [check_performance_alerts] returns no alert,
    whatever the thresholds. *)
Theorem PerformanceMonitor_hit_rate_alert_needs_hits_and_misses (p : t) :
  frame_times_ p = [] -> cache_hits_ p = ∅ \/ cache_misses_ p = ∅ ->
  check_performance_alerts p = [].
Proof.
  intros Hf Hc. unfold check_performance_alerts. apply omap_all_None.
  intros [metric threshold]. unfold check_one. rewrite Hf.
  rewrite andb_false_r.
  destruct (index 0 "hit_rate" metric); [|reflexivity].
  destruct Hc as [-> | ->]; rewrite lookup_empty; [reflexivity|].
  destruct (cache_hits_ p !! _); reflexivity.
Qed.

(** X18 at a concrete run: two misses and no hit, a hit rate of zero, under
    a threshold of 0.99. *)
Lemma PerformanceMonitor_hit_rate_alert_needs_hits_and_misses_witness :
  let p := run new [RecordCacheAccess "c" false; RecordCacheAccess "c" false;
                    SetPerformanceThreshold "c_hit_rate" (b64_lit 99 100)] in
  cache_misses_ p !! "c" = Some 2
  /\ performance_thresholds_ p !! "c_hit_rate" = Some (b64_lit 99 100)
  /\ check_performance_alerts p = [].
Proof.
  split; [vm_compute; reflexivity|]. split; [vm_compute; reflexivity|].
  apply PerformanceMonitor_hit_rate_alert_needs_hits_and_misses.
  - reflexivity.
  - left. reflexivity.
Defined.

End PerformanceMonitorFacts.

(** ** TextureCache: keys *)

Section TextureCacheKeys.

Import TextureCache.

Lemma cache_key_decode (texture_id mip_level : Z) :
  0 <= texture_id < 2 ^ 56 -> 0 <= mip_level < 256 ->
  Z.shiftr (cache_key texture_id mip_level) 8 = texture_id
  /\ Z.land (cache_key texture_id mip_level) 255 = mip_level
  /\ cache_key texture_id mip_level = 256 * texture_id + mip_level.
Proof.
  intros Hid Hmip. unfold cache_key.
  rewrite Z.shiftl_mul_pow2 by lia. rewrite wrap64_small by lia.
  change (2 ^ 8) with 256.
  assert (Hs : Z.shiftr (Z.lor (texture_id * 256) mip_level) 8 = texture_id).
  { rewrite Z.shiftr_lor, !Z.shiftr_div_pow2 by lia. change (2 ^ 8) with 256.
    rewrite Z.div_mul by lia. rewrite Z.div_small by lia. apply Z.lor_0_r. }
  assert (Hl : Z.land (Z.lor (texture_id * 256) mip_level) 255 = mip_level).
  { rewrite Z.land_lor_distr_l. change 255 with (Z.ones 8).
    rewrite !Z.land_ones by lia. change (2 ^ 8) with 256.
    rewrite Z.mod_mul by lia. rewrite Z.mod_small by lia. reflexivity. }
  split; [exact Hs|]. split; [exact Hl|].
  pose proof Hs as Hs'. rewrite Z.shiftr_div_pow2 in Hs' by lia.
  pose proof Hl as Hl'. change 255 with (Z.ones 8) in Hl'. rewrite Z.land_ones in Hl' by lia.
  pose proof (Z.div_mod (Z.lor (texture_id * 256) mip_level) (2 ^ 8) ltac:(lia)) as Hd.
  rewrite Hs', Hl' in Hd. change (2 ^ 8) with 256 in Hd. lia.
Qed.

(** X19. For a texture id below 2^56 and a mip level below 256 the cache key
    [(texture_id << 8) | mip_level] decodes to the pair, as [prefetch_texture]
    decodes it with [>> 8] and [& 0xFF], and two such pairs with one key are
    equal. *)
Theorem TextureCache_cache_key_round_trip (texture_id mip_level texture_id' mip_level' : Z) :
  0 <= texture_id < 2 ^ 56 -> 0 <= mip_level < 256 ->
  0 <= texture_id' < 2 ^ 56 -> 0 <= mip_level' < 256 ->
  Z.shiftr (cache_key texture_id mip_level) 8 = texture_id
  /\ Z.land (cache_key texture_id mip_level) 255 = mip_level
  /\ (cache_key texture_id mip_level = cache_key texture_id' mip_level' ->
      texture_id = texture_id' /\ mip_level = mip_level').
Proof.
  intros H1 H2 H3 H4.
  destruct (cache_key_decode texture_id mip_level H1 H2) as (D1 & D2 & _).
  destruct (cache_key_decode texture_id' mip_level' H3 H4) as (D1' & D2' & _).
  split; [exact D1|]. split; [exact D2|].
  intros E. rewrite E in D1, D2. split; congruence.
Qed.

(** X19 at the pair (42, 1). *)
Lemma TextureCache_cache_key_round_trip_witness :
  Z.shiftr (cache_key 42 1) 8 = 42 /\ Z.land (cache_key 42 1) 255 = 1
  /\ (cache_key 42 1 = cache_key 42 2 -> 42 = 42 /\ 1 = 2).
Proof. apply TextureCache_cache_key_round_trip; lia. Defined.

End TextureCacheKeys.

(** ** TextureCache: reads *)

Section TextureCacheReads.

Import TextureCache.

Variable now : nat -> Z.
Variable logf : spec_float -> spec_float.

(** [read_texture] after the access has been recorded: the branch taken and
    the state it starts from. *)
Lemma read_texture_eq (c : t) (texture_id mip_level offset : Z) (buf : list byte) :
  let timestamp := wrap64 (Z.quot (now (clock_reads_ c)) 1000) in
  let c1 := set_recent_accesses
              (history_after c (AccessPattern.mk texture_id mip_level timestamp))
              (set_clock_reads (S (clock_reads_ c)) c) in
  read_texture now logf c texture_id mip_level offset buf
  = match cache_entries_ c !! cache_key texture_id mip_level with
    | Some found =>
        let c2 := set_cache_entries
                    (<[cache_key texture_id mip_level := touch timestamp found]>
                       (cache_entries_ c)) c1 in
        if wrap64 (offset + Z.of_nat (length buf))
           <=? Z.of_nat (length (TextureCacheEntry.data found))
        then read_texture_hit now logf c2 (touch timestamp found) offset buf
        else read_texture_miss now logf c2 timestamp texture_id mip_level offset buf
    | None => read_texture_miss now logf c1 timestamp texture_id mip_level offset buf
    end.
Proof.
  cbv zeta. unfold read_texture, history_after.
  cbn [tick fst snd max_pattern_history_ recent_accesses_ set_clock_reads].
  destruct (max_pattern_history_ c <=? Z.of_nat (length (recent_accesses_ c)));
    cbn [cache_entries_ recent_accesses_ set_recent_accesses set_clock_reads];
    destruct (cache_entries_ c !! cache_key texture_id mip_level); reflexivity.
Qed.

Lemma ledger_evict_least_valuable_entry (c : t) :
  ledger (evict_least_valuable_entry now logf c) = ledger c.
Proof.
  unfold evict_least_valuable_entry.
  destruct (map_to_list (cache_entries_ c)) as [|first rest]; [reflexivity|].
  destruct (least_valuable_from now logf (clock_reads_ c) first rest) as [[key victim] n].
  reflexivity.
Qed.

Lemma ledger_evict_while (fuel : nat) (size : Z) (c : t) :
  ledger (evict_while now logf fuel size c) = ledger c.
Proof.
  revert c. induction fuel as [|fuel IH]; intros c; [reflexivity|].
  cbn [evict_while]. destruct (must_evict c size); [|reflexivity].
  rewrite IH. apply ledger_evict_least_valuable_entry.
Qed.

Lemma ledger_allocate_entry (c : t) (texture_id mip_level address size : Z) :
  ledger (allocate_entry now logf c texture_id mip_level address size) = ledger c.
Proof.
  unfold allocate_entry.
  pose proof (ledger_evict_while (base.size (cache_entries_ c)) size c) as H.
  destruct (evict_while now logf _ size c). exact H.
Qed.

Lemma ledger_perf_timer f (event : string) (c : t) :
  ledger (perf_timer now f event c) = ledger c.
Proof. unfold perf_timer. destruct (perf_monitor_ c); reflexivity. Qed.

Lemma ledger_tune_performance_parameters (c : t) :
  ledger (tune_performance_parameters c) = ledger c.
Proof.
  unfold tune_performance_parameters.
  destruct (SFltb (b64_lit 7 10) _); [|destruct (SFltb _ (b64_lit 3 10))];
    (destruct (SFltb (b64_lit 9 10) _); [|destruct (SFltb _ (b64_lit 7 10))]); reflexivity.
Qed.

Lemma ledger_adaptive_optimization (c : t) :
  ledger (adaptive_optimization now c) = ledger c.
Proof.
  unfold adaptive_optimization. destruct (adaptive_caching_enabled_ c); [|reflexivity].
  cbn [tick]. destruct (_ <=? _); [|reflexivity].
  transitivity (ledger (tune_performance_parameters (set_clock_reads (S (clock_reads_ c)) c)));
    [reflexivity|]. rewrite ledger_tune_performance_parameters. reflexivity.
Qed.

(** [prefetch_texture] on a cache whose queue is empty: the ledger stays. *)
Lemma ledger_prefetch_texture (c : t) (texture_id mip_level : Z) :
  prefetch_queue_ c = [] ->
  ledger (prefetch_texture now logf c texture_id mip_level) = ledger c.
Proof.
  intros Hq. unfold prefetch_texture.
  destruct (cache_entries_ c !! _); [reflexivity|].
  rewrite Hq. cbn [app].
  change (memory_ (set_prefetch_queue [] c)) with (memory_ c).
  destruct (MemoryHierarchy.allocate (memory_ c) MiB) as [memory address].
  destruct (address =? 0).
  - unfold ledger. cbn. rewrite Hq. reflexivity.
  - set (c1 := set_memory memory (set_prefetch_queue [] c)).
    pose proof (ledger_allocate_entry c1
                  (Z.shiftr (cache_key texture_id mip_level) 8)
                  (Z.land (cache_key texture_id mip_level) 255) address MiB) as H.
    set (c2 := allocate_entry now logf c1 _ _ address MiB) in *.
    destruct (MemoryHierarchy.read (memory_ c2) address _) as [[memory' ok] loaded].
    transitivity (ledger c2); [reflexivity|]. rewrite H.
    unfold ledger. cbn. rewrite Hq. reflexivity.
Qed.

Lemma ledger_predict_future_accesses (c : t) :
  prefetch_queue_ c = [] -> ledger (predict_future_accesses now logf c) = ledger c.
Proof.
  intros Hq. unfold predict_future_accesses.
  destruct (predicted_prefetch _) as [[texture_id mip_level]|]; [|reflexivity].
  apply ledger_prefetch_texture, Hq.
Qed.

Lemma ledger_read_texture_hit (c : t) (entry : TextureCacheEntry.t) (offset : Z)
    (buf : list byte) :
  prefetch_queue_ c = [] ->
  ledger (fst (fst (read_texture_hit now logf c entry offset buf)))
  = (prefetch_queue_ c, recent_accesses_ c, max_pattern_history_ c,
     wrap64 (CacheMetrics.cache_hits (metrics_ c) + 1),
     CacheMetrics.cache_misses (metrics_ c), max_cache_size_bytes_ c)
  /\ snd (fst (read_texture_hit now logf c entry offset buf)) = true
  /\ snd (read_texture_hit now logf c entry offset buf)
     = copy_slice buf (TextureCacheEntry.data entry) offset.
Proof.
  intros Hq. unfold read_texture_hit. cbn [tick fst snd].
  set (c3 := on_perf _ _).
  assert (H3 : ledger c3
               = (prefetch_queue_ c, recent_accesses_ c, max_pattern_history_ c,
                  wrap64 (CacheMetrics.cache_hits (metrics_ c) + 1),
                  CacheMetrics.cache_misses (metrics_ c), max_cache_size_bytes_ c)).
  { subst c3. destruct (TextureCacheEntry.is_prefetched entry); reflexivity. }
  assert (Hq3 : prefetch_queue_ c3 = []).
  { subst c3. destruct (TextureCacheEntry.is_prefetched entry); exact Hq. }
  split; [|split; reflexivity].
  destruct (smart_prefetching_enabled_ c3); [|exact H3].
  cbn [fst]. rewrite ledger_predict_future_accesses by exact Hq3. exact H3.
Qed.

Lemma ledger_read_texture_miss (c : t) (timestamp texture_id mip_level offset : Z)
    (buf : list byte) :
  ledger (fst (fst (read_texture_miss now logf c timestamp texture_id mip_level offset buf)))
  = (prefetch_queue_ c, recent_accesses_ c, max_pattern_history_ c,
     CacheMetrics.cache_hits (metrics_ c),
     wrap64 (CacheMetrics.cache_misses (metrics_ c) + 1), max_cache_size_bytes_ c).
Proof.
  unfold read_texture_miss.
  set (c1 := perf_timer now PerformanceMonitor.start_timer _ _).
  assert (H1 : ledger c1
               = (prefetch_queue_ c, recent_accesses_ c, max_pattern_history_ c,
                  CacheMetrics.cache_hits (metrics_ c),
                  wrap64 (CacheMetrics.cache_misses (metrics_ c) + 1),
                  max_cache_size_bytes_ c)).
  { subst c1. rewrite ledger_perf_timer. reflexivity. }
  destruct (MemoryHierarchy.allocate (memory_ c1) _) as [memory address].
  destruct (address =? 0); [exact H1|].
  cbn [memory_ set_memory].
  destruct (MemoryHierarchy.read memory address _) as [[memory' ok] texture_data].
  destruct ok; cbn [negb]; [|exact H1].
  set (c2 := set_memory memory' (set_memory memory c1)).
  pose proof (ledger_allocate_entry c2 texture_id mip_level address
                (Z.max (Z.of_nat (length buf)) MiB)) as H2.
  set (c3 := allocate_entry now logf c2 _ _ _ _) in *.
  cbn [tick fst snd].
  rewrite ledger_adaptive_optimization.
  transitivity (ledger
                  (perf_timer now PerformanceMonitor.end_timer "texture_load_from_memory"
                     (on_metrics
                        (fun m => CacheMetrics.set_bytes_transferred
                                    (wrap64 (CacheMetrics.bytes_transferred m
                                             + Z.max (Z.of_nat (length buf)) MiB)) m)
                        (set_cache_entries
                           (<[cache_key texture_id mip_level :=
                                TextureCacheEntry.set_is_prefetched false
                                  (TextureCacheEntry.set_access_count 1
                                     (TextureCacheEntry.set_last_access_time timestamp
                                        (TextureCacheEntry.set_data texture_data
                                           (TextureCacheEntry.new texture_id mip_level
                                              address
                                              (Z.max (Z.of_nat (length buf)) MiB)))))]>
                              (cache_entries_ c3)) c3)))); [reflexivity|].
  rewrite ledger_perf_timer.
  transitivity (ledger c3); [reflexivity|]. rewrite H2. exact H1.
Qed.

(** X20. A [read_texture] that finds its key resident with
    [offset + size <= entry.data.len] returns true and fills the buffer with
    the bytes [offset .. offset + size) of the payload of the entry. *)
Theorem TextureCache_read_hit_returns_slice (c : t) (texture_id mip_level offset : Z)
    (buf : list byte) (e : TextureCacheEntry.t) :
  cache_entries_ c !! cache_key texture_id mip_level = Some e ->
  0 <= offset ->
  offset + Z.of_nat (length buf) <= Z.of_nat (length (TextureCacheEntry.data e)) ->
  let result := read_texture now logf c texture_id mip_level offset buf in
  snd (fst result) = true
  /\ snd result = take (length buf) (drop (Z.to_nat offset) (TextureCacheEntry.data e)).
Proof.
  intros He Hoff Hin result. subst result.
  rewrite read_texture_eq, He. cbv zeta.
  assert (Hb : (wrap64 (offset + Z.of_nat (length buf))
                <=? Z.of_nat (length (TextureCacheEntry.data e))) = true).
  { apply Z.leb_le. pose proof (wrap64_le (offset + Z.of_nat (length buf)) ltac:(lia)). lia. }
  rewrite Hb.
  split; [reflexivity|].
  unfold read_texture_hit. cbn [tick fst snd]. unfold copy_slice, memcpy_into.
  cbn [TextureCacheEntry.data touch TextureCacheEntry.set_access_count
       TextureCacheEntry.set_last_access_time].
  rewrite take_0. cbn [app].
  set (slice := take (length buf) (drop (Z.to_nat offset) (TextureCacheEntry.data e))).
  assert (Hs : length slice = length buf)
    by (subst slice; rewrite length_take, length_drop; lia).
  rewrite (drop_ge buf) by lia. apply app_nil_r.
Qed.

(** X21. A [read_texture] of a key that is not resident, when
    [allocate] returns 0, returns false and leaves the buffer, the resident
    entries, the size accounting and the byte counter as they were; it counts
    one miss. *)
Theorem TextureCache_read_fails_when_memory_is_exhausted (c : t)
    (texture_id mip_level offset : Z) (buf : list byte) :
  cache_entries_ c !! cache_key texture_id mip_level = None ->
  snd (MemoryHierarchy.allocate (memory_ c) (Z.max (Z.of_nat (length buf)) MiB)) = 0 ->
  let result := read_texture now logf c texture_id mip_level offset buf in
  let c' := fst (fst result) in
  snd (fst result) = false
  /\ snd result = buf
  /\ cache_entries_ c' = cache_entries_ c
  /\ current_cache_size_bytes_ c' = current_cache_size_bytes_ c
  /\ CacheMetrics.cache_misses (metrics_ c')
     = wrap64 (CacheMetrics.cache_misses (metrics_ c) + 1)
  /\ CacheMetrics.bytes_transferred (metrics_ c')
     = CacheMetrics.bytes_transferred (metrics_ c).
Proof.
  intros He Hfull result c'. subst c' result.
  rewrite read_texture_eq, He. cbv zeta.
  unfold read_texture_miss.
  set (c0 := on_perf _ (on_metrics _ _)).
  assert (Hm : memory_ (perf_timer now PerformanceMonitor.start_timer
                          "texture_load_from_memory" c0) = memory_ c).
  { unfold perf_timer. subst c0. destruct (perf_monitor_ _); reflexivity. }
  rewrite Hm.
  destruct (MemoryHierarchy.allocate (memory_ c) _) as [memory address].
  cbn [snd] in Hfull. subst address. cbn [Z.eqb fst snd].
  unfold perf_timer. subst c0. fields.
  destruct (perf_monitor_ c); cbn; repeat split; reflexivity.
Qed.

End TextureCacheReads.

(** X20 at a concrete hit: two bytes from offset 1 of a four-byte payload. *)
Lemma TextureCache_read_hit_returns_slice_witness :
  let e := TextureCache.TextureCacheEntry.mk 7 0 0x10000000 [x0a; x0b; x0c; x0d] 0 1 (S754_zero false) false in
  let c := TextureCache.set_cache_entries {[TextureCache.cache_key 7 0 := e]}
             (TextureCache.new steady_clock 256 MemoryHierarchy.new None) in
  snd (TextureCache.read_texture steady_clock logf_model c 7 0 1 [x00; x00]) = [x0b; x0c].
Proof.
  cbv zeta.
  apply (TextureCache_read_hit_returns_slice steady_clock logf_model
           (TextureCache.set_cache_entries
              {[TextureCache.cache_key 7 0 :=
                  TextureCache.TextureCacheEntry.mk 7 0 0x10000000 [x0a; x0b; x0c; x0d] 0 1
                    (S754_zero false) false]}
              (TextureCache.new steady_clock 256 MemoryHierarchy.new None))
           7 0 1 [x00; x00]
           (TextureCache.TextureCacheEntry.mk 7 0 0x10000000 [x0a; x0b; x0c; x0d] 0 1 (S754_zero false)
              false)).
  - apply lookup_singleton_eq.
  - lia.
  - cbn. lia.
Defined.


(** X21 at a concrete state: a hierarchy whose one allocation fills VRAM. *)
Lemma TextureCache_read_fails_when_memory_is_exhausted_witness :
  let memory := fst (MemoryHierarchy.allocate MemoryHierarchy.new
                       (MemoryHierarchy.vram_size - 0x10000000)) in
  let c := TextureCache.new steady_clock 256 memory None in
  let result := TextureCache.read_texture steady_clock logf_model c 7 0 0 [x00; x00] in
  snd (fst result) = false /\ snd result = [x00; x00]
  /\ TextureCache.cache_entries_ (fst (fst result)) = ∅.
Proof.
  cbv zeta.
  destruct (TextureCache_read_fails_when_memory_is_exhausted steady_clock logf_model
              (TextureCache.new steady_clock 256
                 (fst (MemoryHierarchy.allocate MemoryHierarchy.new
                         (MemoryHierarchy.vram_size - 0x10000000))) None)
              7 0 0 [x00; x00]) as (H1 & H2 & H3 & _).
  - apply lookup_empty.
  - vm_compute. reflexivity.
  - split; [exact H1|]. split; [exact H2|exact H3].
Defined.



(** ** TextureCache: the bookkeeping every operation keeps *)

Section TextureCacheBooks.

Import TextureCache.

Variable now : nat -> Z.
Variable logf : spec_float -> spec_float.

Lemma ledger_invalidate_texture (c : t) (texture_id : Z) :
  ledger (invalidate_texture c texture_id) = ledger c.
Proof.
  unfold invalidate_texture. generalize (map_to_list (cache_entries_ c)) as l.
  intros l. revert c. induction l as [|kv l IH]; intros c; [reflexivity|].
  cbn [fold_left]. rewrite IH. unfold invalidate_one.
  destruct (_ =? _); reflexivity.
Qed.

Lemma ledger_fields (c' : t) (q : list Z) (r : list AccessPattern.t) (h hits misses m : Z) :
  ledger c' = (q, r, h, hits, misses, m) ->
  prefetch_queue_ c' = q /\ recent_accesses_ c' = r /\ max_pattern_history_ c' = h
  /\ CacheMetrics.cache_hits (metrics_ c') = hits
  /\ CacheMetrics.cache_misses (metrics_ c') = misses
  /\ max_cache_size_bytes_ c' = m.
Proof. unfold ledger. intros H. inversion H. repeat split; reflexivity. Qed.

(** One operation on a cache whose queue is empty. *)
Lemma step_books (c : t) (o : op) :
  prefetch_queue_ c = [] ->
  let c' := step now logf c o in
  prefetch_queue_ c' = []
  /\ max_pattern_history_ c' = max_pattern_history_ c
  /\ max_cache_size_bytes_ c' = max_cache_size_bytes_ c
  /\ match o with
     | ReadTexture texture_id mip_level offset buf =>
         recent_accesses_ c'
         = history_after c (AccessPattern.mk texture_id mip_level
                              (wrap64 (Z.quot (now (clock_reads_ c)) 1000)))
         /\ ((CacheMetrics.cache_hits (metrics_ c')
              = wrap64 (CacheMetrics.cache_hits (metrics_ c) + 1)
              /\ CacheMetrics.cache_misses (metrics_ c')
                 = CacheMetrics.cache_misses (metrics_ c))
             \/ (CacheMetrics.cache_hits (metrics_ c') = CacheMetrics.cache_hits (metrics_ c)
                 /\ CacheMetrics.cache_misses (metrics_ c')
                    = wrap64 (CacheMetrics.cache_misses (metrics_ c) + 1)))
     | _ =>
         recent_accesses_ c' = recent_accesses_ c
         /\ CacheMetrics.cache_hits (metrics_ c') = CacheMetrics.cache_hits (metrics_ c)
         /\ CacheMetrics.cache_misses (metrics_ c') = CacheMetrics.cache_misses (metrics_ c)
     end.
Proof.
  intros Hq. destruct o as [texture_id mip_level offset buf|texture_id mip_level|texture_id|];
    cbn [step]; cbv zeta.
  - rewrite read_texture_eq. cbv zeta.
    set (timestamp := wrap64 (Z.quot (now (clock_reads_ c)) 1000)).
    set (c1 := set_recent_accesses _ _).
    assert (Hq1 : prefetch_queue_ c1 = []) by exact Hq.
    destruct (cache_entries_ c !! cache_key texture_id mip_level) as [found|].
    + set (c2 := set_cache_entries _ c1).
      assert (Hq2 : prefetch_queue_ c2 = []) by exact Hq.
      destruct (_ <=? _).
      * destruct (ledger_read_texture_hit now logf c2 (touch timestamp found) offset buf Hq2)
          as (H & _).
        apply ledger_fields in H as (H1 & H2 & H3 & H4 & H5 & H6).
        rewrite H1, H2, H3, H4, H5, H6.
        split; [exact Hq|]. split; [reflexivity|]. split; [reflexivity|].
        split; [reflexivity|]. left. split; reflexivity.
      * pose proof (ledger_read_texture_miss now logf c2 timestamp texture_id mip_level
                      offset buf) as H.
        apply ledger_fields in H as (H1 & H2 & H3 & H4 & H5 & H6).
        rewrite H1, H2, H3, H4, H5, H6.
        split; [exact Hq|]. split; [reflexivity|]. split; [reflexivity|].
        split; [reflexivity|]. right. split; reflexivity.
    + pose proof (ledger_read_texture_miss now logf c1 timestamp texture_id mip_level
                    offset buf) as H.
      apply ledger_fields in H as (H1 & H2 & H3 & H4 & H5 & H6).
      rewrite H1, H2, H3, H4, H5, H6.
      split; [exact Hq|]. split; [reflexivity|]. split; [reflexivity|].
      split; [reflexivity|]. right. split; reflexivity.
  - pose proof (ledger_prefetch_texture now logf c texture_id mip_level Hq) as H.
    apply ledger_fields in H as (H1 & H2 & H3 & H4 & H5 & H6).
    rewrite H1, H2, H3, H4, H5, H6. repeat split; try reflexivity. exact Hq.
  - pose proof (ledger_invalidate_texture c texture_id) as H.
    apply ledger_fields in H as (H1 & H2 & H3 & H4 & H5 & H6).
    rewrite H1, H2, H3, H4, H5, H6. repeat split; try reflexivity. exact Hq.
  - unfold flush. cbn. repeat split; reflexivity.
Qed.

Lemma length_history_after (c : t) (pattern : AccessPattern.t) :
  max_pattern_history_ c = 1000 -> Z.of_nat (length (recent_accesses_ c)) <= 1000 ->
  Z.of_nat (length (history_after c pattern)) <= 1000.
Proof.
  intros Hm Hl. unfold history_after. rewrite Hm.
  destruct (1000 <=? Z.of_nat (length (recent_accesses_ c))) eqn:E.
  - rewrite length_app, length_drop. cbn [length]. lia.
  - apply Z.leb_gt in E. rewrite length_app. cbn [length]. lia.
Qed.

Lemma reads_of_cons (o : op) (ops : list op) :
  reads_of (o :: ops) = reads_of [o] + reads_of ops.
Proof.
  unfold reads_of. cbn [List.filter].
  destruct o; cbn [length app]; lia.
Qed.

Lemma books_balanced_step (n : Z) (c : t) (o : op) :
  n + 1 < 2 ^ 64 -> books_balanced n c ->
  books_balanced (n + reads_of [o]) (step now logf c o).
Proof.
  intros Hn (Hq & Hm & Hl & Hh & Hmi & Hsum).
  destruct (step_books c o Hq) as (S1 & S2 & S3 & S4).
  unfold books_balanced. rewrite S1, S2.
  split; [reflexivity|]. split; [exact Hm|].
  destruct o as [texture_id mip_level offset buf|texture_id mip_level|texture_id|].
  - change (reads_of [ReadTexture texture_id mip_level offset buf]) with 1.
    destruct S4 as [-> S4].
    split; [apply length_history_after; assumption|].
    destruct S4 as [[-> ->]|[-> ->]]; rewrite wrap64_small by lia; lia.
  - change (reads_of [PrefetchTexture texture_id mip_level]) with 0.
    destruct S4 as (-> & -> & ->). repeat split; try assumption; lia.
  - change (reads_of [InvalidateTexture texture_id]) with 0.
    destruct S4 as (-> & -> & ->). repeat split; try assumption; lia.
  - change (reads_of [Flush]) with 0.
    destruct S4 as (-> & -> & ->). repeat split; try assumption; lia.
Qed.

Lemma reads_of_nonneg (ops : list op) : 0 <= reads_of ops.
Proof. unfold reads_of. lia. Qed.

Lemma reads_of_one (o : op) : 0 <= reads_of [o] <= 1.
Proof. unfold reads_of. destruct o; cbn; lia. Qed.

Lemma books_balanced_run (ops : list op) (n : Z) (c : t) :
  0 <= n -> n + reads_of ops < 2 ^ 64 -> books_balanced n c ->
  books_balanced (n + reads_of ops) (run now logf c ops).
Proof.
  revert n c. induction ops as [|o ops IH]; intros n c Hn0 Hn H.
  - change (reads_of []) with 0. rewrite Z.add_0_r. exact H.
  - rewrite reads_of_cons in *. pose proof (reads_of_nonneg ops). pose proof (reads_of_one o).
    rewrite Z.add_assoc. cbn [run fold_left]. apply IH; [lia|lia|].
    destruct (decide (reads_of [o] = 0)) as [E|E].
    + destruct H as (Hq & Hm & Hl & Hh & Hmi & Hsum).
      destruct (step_books c o Hq) as (S1 & S2 & S3 & S4).
      unfold books_balanced. rewrite S1, S2, E.
      destruct o as [texture_id mip_level offset buf|texture_id mip_level|texture_id|];
        [discriminate E| | |];
        destruct S4 as (-> & -> & ->); repeat split; try assumption; lia.
    + apply books_balanced_step; [lia|exact H].
Qed.

Lemma books_balanced_new (cache_size_mb : Z) (memory : MemoryHierarchy.t)
    (perf_monitor : option PerformanceMonitor.t) :
  books_balanced 0 (new now cache_size_mb memory perf_monitor).
Proof. unfold books_balanced. cbn. repeat split; lia. Qed.

(** X22. Every [read_texture] counts exactly once, as a hit or as a miss:
    after any sequence of operations on a newly constructed cache that holds
    fewer than 2^64 reads, [cache_hits + cache_misses] is the number of
    [read_texture] calls of the sequence. *)
Theorem TextureCache_hits_plus_misses_count_reads (cache_size_mb : Z)
    (memory : MemoryHierarchy.t) (perf_monitor : option PerformanceMonitor.t)
    (ops : list op) :
  reads_of ops < 2 ^ 64 ->
  let c := run now logf (new now cache_size_mb memory perf_monitor) ops in
  CacheMetrics.cache_hits (metrics_ c) + CacheMetrics.cache_misses (metrics_ c)
  = reads_of ops.
Proof.
  intros Hn c.
  destruct (books_balanced_run ops 0 (new now cache_size_mb memory perf_monitor))
    as (_ & _ & _ & _ & _ & H); [lia|lia|apply books_balanced_new|].
  exact H.
Qed.

Lemma queue_and_history_run (ops : list op) (c : t) :
  prefetch_queue_ c = [] -> max_pattern_history_ c = 1000 ->
  Z.of_nat (length (recent_accesses_ c)) <= 1000 ->
  let c' := run now logf c ops in
  prefetch_queue_ c' = [] /\ max_pattern_history_ c' = 1000
  /\ Z.of_nat (length (recent_accesses_ c')) <= 1000
  /\ max_cache_size_bytes_ c' = max_cache_size_bytes_ c.
Proof.
  revert c. induction ops as [|o ops IH]; intros c Hq Hm Hl; [cbn; auto|].
  cbv zeta. cbn [run fold_left].
  destruct (step_books c o Hq) as (S1 & S2 & S3 & S4).
  assert (Hl' : Z.of_nat (length (recent_accesses_ (step now logf c o))) <= 1000).
  { destruct o; [destruct S4 as [-> _]; apply length_history_after; assumption| | |];
      destruct S4 as (-> & _); exact Hl. }
  destruct (IH (step now logf c o) S1 (eq_trans S2 Hm) Hl') as (I1 & I2 & I3 & I4).
  split; [exact I1|]. split; [exact I2|]. split; [exact I3|]. exact (eq_trans I4 S3).
Qed.

(** X23. In every state a sequence of operations reaches from a newly
    constructed cache the prefetch queue is empty, the access history holds
    at most 1000 accesses, and the capacity is the one the constructor
    computed. *)
Theorem TextureCache_queue_drained_and_history_bounded (cache_size_mb : Z)
    (memory : MemoryHierarchy.t) (perf_monitor : option PerformanceMonitor.t)
    (ops : list op) :
  let c := run now logf (new now cache_size_mb memory perf_monitor) ops in
  prefetch_queue_ c = []
  /\ Z.of_nat (length (recent_accesses_ c)) <= 1000
  /\ max_cache_size_bytes_ c = wrap64 (cache_size_mb * 1024 * 1024).
Proof.
  intros c.
  destruct (queue_and_history_run ops (new now cache_size_mb memory perf_monitor))
    as (H1 & _ & H3 & H4); [reflexivity|reflexivity|cbn; lia|].
  split; [exact H1|]. split; [exact H3|exact H4].
Qed.

End TextureCacheBooks.

(** X22 at a concrete run: two reads among four operations. *)
Lemma TextureCache_hits_plus_misses_count_reads_witness :
  let c := TextureCache.run steady_clock logf_model
             (TextureCache.new steady_clock 256 MemoryHierarchy.new None)
             [TextureCache.ReadTexture 1 0 0 buf64; TextureCache.PrefetchTexture 1 1;
              TextureCache.ReadTexture 1 0 0 buf64; TextureCache.Flush] in
  TextureCache.CacheMetrics.cache_hits (TextureCache.metrics_ c)
  + TextureCache.CacheMetrics.cache_misses (TextureCache.metrics_ c) = 2.
Proof.
  apply (TextureCache_hits_plus_misses_count_reads steady_clock logf_model 256
           MemoryHierarchy.new None
           [TextureCache.ReadTexture 1 0 0 buf64; TextureCache.PrefetchTexture 1 1;
            TextureCache.ReadTexture 1 0 0 buf64; TextureCache.Flush]).
  vm_compute. reflexivity.
Defined.

(** ** TextureCache: entries *)

Section TextureCacheEntries.

Import TextureCache.

Variable now : nat -> Z.
Variable logf : spec_float -> spec_float.

Lemma max_cache_size_evict_while (fuel : nat) (size : Z) (c : t) :
  max_cache_size_bytes_ (evict_while now logf fuel size c) = max_cache_size_bytes_ c.
Proof.
  pose proof (ledger_evict_while now logf fuel size c) as H.
  set (c' := evict_while now logf fuel size c) in *. clearbody c'.
  unfold ledger in H. inversion H. reflexivity.
Qed.

(** X24. After [allocate_entry] the new entry is resident under its key with
    a zero-filled payload of the requested size, the capacity is unchanged,
    and either the accounted size is within the capacity or the new entry is
    the only resident one: the eviction loop stops only when the new size
    fits or nothing is left to evict. *)
Theorem TextureCache_allocate_entry_fits_or_is_alone (c : t)
    (texture_id mip_level address size : Z) :
  let c' := allocate_entry now logf c texture_id mip_level address size in
  let entry := TextureCacheEntry.new texture_id mip_level address size in
  cache_entries_ c' !! cache_key texture_id mip_level = Some entry
  /\ max_cache_size_bytes_ c' = max_cache_size_bytes_ c
  /\ (current_cache_size_bytes_ c' <= max_cache_size_bytes_ c'
      \/ cache_entries_ c' = {[cache_key texture_id mip_level := entry]}).
Proof.
  cbv zeta. unfold allocate_entry.
  pose proof (allocate_entry_loop_ends now logf c size) as Hend.
  pose proof (max_cache_size_evict_while (base.size (cache_entries_ c)) size c) as Hmax.
  set (c1 := evict_while now logf (base.size (cache_entries_ c)) size c) in *.
  clearbody c1.
  cbn [cache_entries_ max_cache_size_bytes_ current_cache_size_bytes_ set_cache_entries
       set_current_cache_size_bytes].
  split; [apply lookup_insert_eq|]. split; [exact Hmax|].
  unfold must_evict in Hend. apply andb_false_iff in Hend as [Hfit|Hempty].
  - left. apply Z.ltb_ge in Hfit. exact Hfit.
  - right. apply negb_false_iff, bool_decide_eq_true in Hempty. rewrite Hempty.
    apply insert_empty.
Qed.

Lemma allocations_deallocate (m : MemoryHierarchy.t) (a : Z) :
  MemoryHierarchy.allocations_ (MemoryHierarchy.deallocate m a)
  = delete a (MemoryHierarchy.allocations_ m).
Proof.
  unfold MemoryHierarchy.deallocate.
  destruct (MemoryHierarchy.allocations_ m !! a) eqn:E.
  - reflexivity.
  - symmetry. apply delete_id. exact E.
Qed.

(** The entries after the loop of [invalidate_texture] over a list of
    entries. *)
Lemma entries_invalidate_fold (texture_id : Z) (l : list (Z * TextureCacheEntry.t)) (c : t) :
  cache_entries_ (fold_left (invalidate_one texture_id) l c)
  = fold_left (fun m (kv : Z * TextureCacheEntry.t) =>
                 if TextureCacheEntry.texture_id (snd kv) =? texture_id
                 then delete (fst kv) m else m) l (cache_entries_ c).
Proof.
  revert c. induction l as [|kv l IH]; intros c; [reflexivity|].
  cbn [fold_left]. rewrite IH. f_equal. unfold invalidate_one.
  destruct (_ =? _); reflexivity.
Qed.

Lemma delete_fold_lookup (texture_id : Z) (l : list (Z * TextureCacheEntry.t))
    (m : gmap Z TextureCacheEntry.t) (k : Z) :
  fold_left (fun m (kv : Z * TextureCacheEntry.t) =>
               if TextureCacheEntry.texture_id (snd kv) =? texture_id
               then delete (fst kv) m else m) l m !! k
  = if existsb (fun kv : Z * TextureCacheEntry.t =>
                  (fst kv =? k) && (TextureCacheEntry.texture_id (snd kv) =? texture_id)) l
    then None else m !! k.
Proof.
  revert m. induction l as [|[k' e'] l IH]; intros m; [reflexivity|].
  cbn [fold_left existsb fst snd]. rewrite IH.
  destruct (TextureCacheEntry.texture_id e' =? texture_id).
  - destruct (k' =? k) eqn:E; cbn [andb orb].
    + apply Z.eqb_eq in E. subst k'. rewrite lookup_delete_eq.
      destruct (existsb _ l); reflexivity.
    + apply Z.eqb_neq in E. rewrite lookup_delete_ne by exact E. reflexivity.
  - rewrite andb_false_r. reflexivity.
Qed.

(** X25. [invalidate_texture(id)] removes exactly the resident entries whose
    texture id is [id]: such a key is no longer resident, and every other key
    holds the entry it held. *)
Theorem TextureCache_invalidate_texture_removes_the_texture (c : t) (texture_id k : Z) :
  cache_entries_ (invalidate_texture c texture_id) !! k
  = match cache_entries_ c !! k with
    | Some e => if TextureCacheEntry.texture_id e =? texture_id then None else Some e
    | None => None
    end.
Proof.
  unfold invalidate_texture. rewrite entries_invalidate_fold, delete_fold_lookup.
  destruct (existsb _ _) eqn:E.
  - apply existsb_exists in E as ([k' e'] & Hin & Hb). cbn [fst snd] in Hb.
    apply andb_true_iff in Hb as [Hk Ht]. apply Z.eqb_eq in Hk. subst k'.
    apply list_elem_of_In, elem_of_map_to_list in Hin. rewrite Hin, Ht. reflexivity.
  - destruct (cache_entries_ c !! k) as [e|] eqn:He; [|reflexivity].
    destruct (TextureCacheEntry.texture_id e =? texture_id) eqn:Ht; [|reflexivity].
    exfalso. apply not_true_iff_false in E. apply E.
    apply existsb_exists. exists (k, e). split.
    + apply list_elem_of_In, elem_of_map_to_list. exact He.
    + cbn [fst snd]. rewrite Z.eqb_refl, Ht. reflexivity.
Qed.

Lemma allocations_deallocate_fold (l : list (Z * TextureCacheEntry.t))
    (m : MemoryHierarchy.t) (a : Z) :
  (exists kv, kv ∈ l /\ TextureCacheEntry.address (snd kv) = a) ->
  MemoryHierarchy.allocations_
    (fold_left (fun m (kv : Z * TextureCacheEntry.t) =>
                  MemoryHierarchy.deallocate m (TextureCacheEntry.address (snd kv))) l m)
  !! a = None.
Proof.
  assert (Hkeep : forall l m,
             MemoryHierarchy.allocations_ m !! a = None ->
             MemoryHierarchy.allocations_
               (fold_left (fun m (kv : Z * TextureCacheEntry.t) =>
                             MemoryHierarchy.deallocate m
                               (TextureCacheEntry.address (snd kv))) l m) !! a = None).
  { clear l m. induction l as [|kv l IH]; intros m H; [exact H|].
    cbn [fold_left]. apply IH. rewrite allocations_deallocate.
    destruct (decide (TextureCacheEntry.address (snd kv) = a)) as [->|Hne].
    - apply lookup_delete_eq.
    - rewrite lookup_delete_ne by exact Hne. exact H. }
  revert m. induction l as [|kv l IH]; intros m (kv' & Hin & Ha).
  - apply elem_of_nil in Hin. destruct Hin.
  - cbn [fold_left]. apply elem_of_cons in Hin as [->|Hin].
    + apply Hkeep. rewrite allocations_deallocate, Ha. apply lookup_delete_eq.
    + apply IH. exists kv'. split; assumption.
Qed.

(** X26. After [flush] no entry is resident, the accounted size and the sum
    of the payload sizes are 0, the prefetch queue is empty, and the address
    of every entry that was resident has no allocation record left. *)
Theorem TextureCache_flush_releases_everything (c : t) :
  let c' := flush c in
  cache_entries_ c' = ∅
  /\ current_cache_size_bytes_ c' = 0
  /\ resident_bytes c' = 0
  /\ prefetch_queue_ c' = []
  /\ (forall k e, cache_entries_ c !! k = Some e ->
                  MemoryHierarchy.allocations_ (memory_ c') !! TextureCacheEntry.address e
                  = None).
Proof.
  cbv zeta. unfold flush.
  cbn [cache_entries_ current_cache_size_bytes_ prefetch_queue_ memory_ set_prefetch_queue
       set_current_cache_size_bytes set_cache_entries set_memory].
  split; [reflexivity|]. split; [reflexivity|]. split; [reflexivity|]. split; [reflexivity|].
  intros k e He. apply allocations_deallocate_fold. exists (k, e).
  split; [apply elem_of_map_to_list; exact He|reflexivity].
Qed.

End TextureCacheEntries.

(** X26 at a concrete state: one resident entry whose block is recorded. *)
Lemma TextureCache_flush_releases_everything_witness :
  let memory := fst (MemoryHierarchy.allocate MemoryHierarchy.new 1024) in
  let e := TextureCache.TextureCacheEntry.new 7 0 0x10000000 1024 in
  let c := TextureCache.set_cache_entries {[TextureCache.cache_key 7 0 := e]}
             (TextureCache.new steady_clock 256 memory None) in
  MemoryHierarchy.allocations_ (TextureCache.memory_ c) !! 0x10000000 = Some 1024
  /\ MemoryHierarchy.allocations_ (TextureCache.memory_ (TextureCache.flush c))
     !! 0x10000000 = None.
Proof.
  cbv zeta. split; [vm_compute; reflexivity|].
  destruct (TextureCache_flush_releases_everything
              (TextureCache.set_cache_entries
                 {[TextureCache.cache_key 7 0 :=
                     TextureCache.TextureCacheEntry.new 7 0 0x10000000 1024]}
                 (TextureCache.new steady_clock 256
                    (fst (MemoryHierarchy.allocate MemoryHierarchy.new 1024)) None)))
    as (_ & _ & _ & _ & H).
  apply (H (TextureCache.cache_key 7 0)
           (TextureCache.TextureCacheEntry.new 7 0 0x10000000 1024)).
  apply lookup_singleton_eq.
Defined.

(** ** TextureCache: prefetching *)

Section TextureCachePrefetch.

Import TextureCache.

Variable now : nat -> Z.
Variable logf : spec_float -> spec_float.

Lemma allocate_entry_lookup (c : t) (texture_id mip_level address size : Z) :
  cache_entries_ (allocate_entry now logf c texture_id mip_level address size)
  !! cache_key texture_id mip_level
  = Some (TextureCacheEntry.new texture_id mip_level address size).
Proof. unfold allocate_entry. cbn [cache_entries_ set_cache_entries
                                   set_current_cache_size_bytes].
       apply lookup_insert_eq. Qed.

(** X27. [prefetch_texture(id, mip)] for a texture id below 2^56 and a mip
    level below 256, on a cache whose prefetch queue is empty: a resident key
    leaves the cache as it was; otherwise, when [allocate] returns 0 the
    resident entries stay as they were, and when it returns an address the
    key is resident afterwards with that address, a payload of 1 MiB, the
    prefetch flag set and an access count of 0. *)
Theorem TextureCache_prefetch_texture_makes_resident (c : t) (texture_id mip_level : Z) :
  0 <= texture_id < 2 ^ 56 -> 0 <= mip_level < 256 ->
  prefetch_queue_ c = [] ->
  let c' := prefetch_texture now logf c texture_id mip_level in
  let address := snd (MemoryHierarchy.allocate (memory_ c) MiB) in
  match find_entry c texture_id mip_level with
  | Some _ => c' = c
  | None =>
      if address =? 0 then cache_entries_ c' = cache_entries_ c
      else
        exists e,
          find_entry c' texture_id mip_level = Some e
          /\ TextureCacheEntry.texture_id e = texture_id
          /\ TextureCacheEntry.mip_level e = mip_level
          /\ TextureCacheEntry.address e = address
          /\ Z.of_nat (length (TextureCacheEntry.data e)) = MiB
          /\ TextureCacheEntry.is_prefetched e = true
          /\ TextureCacheEntry.access_count e = 0
  end.
Proof.
  intros Hid Hmip Hq. cbv zeta. unfold find_entry, prefetch_texture.
  destruct (cache_entries_ c !! cache_key texture_id mip_level) as [e0|] eqn:He;
    [reflexivity|].
  rewrite Hq. cbn [app].
  change (memory_ (set_prefetch_queue [] c)) with (memory_ c).
  destruct (cache_key_decode texture_id mip_level Hid Hmip) as (D1 & D2 & _).
  rewrite D1, D2.
  destruct (MemoryHierarchy.allocate (memory_ c) MiB) as [memory address]. cbn [snd].
  destruct (address =? 0); [reflexivity|].
  set (c1 := set_memory memory (set_prefetch_queue [] c)).
  pose proof (allocate_entry_lookup c1 texture_id mip_level address MiB) as Hl.
  set (c2 := allocate_entry now logf c1 texture_id mip_level address MiB) in *.
  pose proof (MiB_payload (memory_ c2) address MiB ltac:(unfold MiB; lia)) as Hlen.
  destruct (MemoryHierarchy.read (memory_ c2) address (replicate (Z.to_nat MiB) x00))
    as [[memory' ok] loaded].
  cbn [snd] in Hlen.
  eexists. split.
  - cbn [cache_entries_ on_perf on_metrics set_perf_monitor set_metrics set_cache_entries
         set_memory].
    rewrite lookup_alter_eq, Hl. reflexivity.
  - cbn. repeat split; try reflexivity. exact Hlen.
Qed.

End TextureCachePrefetch.

(** X27 at a concrete call: the first prefetch on a new cache. *)
Lemma TextureCache_prefetch_texture_makes_resident_witness :
  let c := TextureCache.new steady_clock 256 MemoryHierarchy.new None in
  exists e,
    TextureCache.find_entry (TextureCache.prefetch_texture steady_clock logf_model c 42 2) 42 2
    = Some e
    /\ TextureCache.TextureCacheEntry.is_prefetched e = true
    /\ TextureCache.TextureCacheEntry.address e = 0x10000000.
Proof.
  cbv zeta.
  pose proof (TextureCache_prefetch_texture_makes_resident steady_clock logf_model
                (TextureCache.new steady_clock 256 MemoryHierarchy.new None) 42 2
                ltac:(lia) ltac:(lia) eq_refl) as H.
  cbv zeta in H.
  change (TextureCache.find_entry
            (TextureCache.new steady_clock 256 MemoryHierarchy.new None) 42 2)
    with (@None TextureCache.TextureCacheEntry.t) in H.
  change (snd (MemoryHierarchy.allocate
                 (TextureCache.memory_
                    (TextureCache.new steady_clock 256 MemoryHierarchy.new None))
                 TextureCache.MiB)) with 0x10000000 in H.
  cbv iota in H. change (0x10000000 =? 0) with false in H. cbv iota in H.
  destruct H as (e & H1 & _ & _ & H4 & _ & H6 & _).
  exists e. split; [exact H1|]. split; [exact H6|exact H4].
Defined.



(** ** ShaderCore: one instruction *)

Section ShaderCoreFacts.

Import ShaderCore.

Lemma alu_frame (f : spec_float -> spec_float -> spec_float) (instruction : list Z) (s : t) :
  core_id_ (alu f instruction s) = core_id_ s
  /\ busy_ (alu f instruction s) = busy_ s
  /\ instruction_count_ (alu f instruction s) = instruction_count_ s
  /\ cycle_count_ (alu f instruction s) = cycle_count_ s
  /\ length (registers_ (alu f instruction s)) = length (registers_ s).
Proof.
  unfold alu.
  destruct instruction as [|op [|dst [|src1 [|src2 rest]]]]; try (repeat split; reflexivity).
  destruct (_ && _); [|repeat split; reflexivity].
  destruct (registers_ s !! Z.to_nat src1); [|repeat split; reflexivity].
  destruct (registers_ s !! Z.to_nat src2); [|repeat split; reflexivity].
  cbn. rewrite length_insert. repeat split; reflexivity.
Qed.

(** What one instruction does to the counters and the registers. *)
Lemma execute_instruction_spec (s : t) (opcode : Z) (operands : list Z) :
  let s' := execute_instruction (opcode :: operands) s in
  execute_instruction [] s = s
  /\ instruction_count_ s' = wrap64 (instruction_count_ s + 1)
  /\ cycle_count_ s'
     = (if (opcode =? 3) || (opcode =? 4)
        then wrap64 (wrap64 (cycle_count_ s + memory_penalty opcode) + 1)
        else wrap64 (cycle_count_ s + 1))
  /\ busy_ s' = false
  /\ core_id_ s' = core_id_ s
  /\ length (registers_ s') = length (registers_ s)
  /\ (opcode <> 1 -> opcode <> 2 -> registers_ s' = registers_ s).
Proof.
  cbv zeta. split; [reflexivity|]. unfold execute_instruction, memory_penalty.
  destruct (opcode =? 1) eqn:E1.
  - apply Z.eqb_eq in E1. subst opcode. cbn [Z.eqb orb].
    destruct (alu_frame b32_add (1 :: operands) (set_busy true s)) as (A1 & A2 & A3 & A4 & A5).
    set (s1 := alu b32_add (1 :: operands) (set_busy true s)) in *. clearbody s1.
    cbn in *. rewrite A1, A3, A4, A5. repeat split; try reflexivity. congruence.
  - destruct (opcode =? 2) eqn:E2.
    + apply Z.eqb_eq in E2. subst opcode. cbn [Z.eqb orb].
      destruct (alu_frame b32_mul (2 :: operands) (set_busy true s))
        as (A1 & A2 & A3 & A4 & A5).
      set (s1 := alu b32_mul (2 :: operands) (set_busy true s)) in *. clearbody s1.
      cbn in *. rewrite A1, A3, A4, A5. repeat split; try reflexivity. congruence.
    + destruct (opcode =? 3) eqn:E3; [cbn; repeat split; reflexivity|].
      destruct (opcode =? 4) eqn:E4; cbn; repeat split; reflexivity.
Qed.

End ShaderCoreFacts.

(** ** GPUCore: dispatch *)

Section GPUCoreDispatch.

Import GPUCore.

Lemma fetch_spec (n : nat) (program : list Z) :
  (length program <= n)%nat ->
  Forall (fun instruction => instruction <> []) (fetch program)
  /\ Z.of_nat (length (fetch program)) = (Z.of_nat (length program) + 3) / 4.
Proof.
  revert program. induction n as [|n IH]; intros program Hn.
  - destruct program; [|cbn in Hn; lia]. split; [constructor|reflexivity].
  - destruct program as [|a [|b [|c [|d rest]]]].
    + split; [constructor|reflexivity].
    + split; [repeat constructor; discriminate|reflexivity].
    + split; [repeat constructor; discriminate|reflexivity].
    + split; [repeat constructor; discriminate|reflexivity].
    + destruct (IH rest) as [H1 H2]; [cbn in Hn; lia|].
      cbn [fetch]. split; [constructor; [discriminate|exact H1]|].
      cbn [length]. rewrite Nat2Z.inj_succ, H2.
      rewrite !Nat2Z.inj_succ.
      replace (Z.succ (Z.succ (Z.succ (Z.succ (Z.of_nat (length rest))))) + 3)
        with (Z.of_nat (length rest) + 3 + 1 * 4) by lia.
      rewrite Z.div_add by lia. lia.
Qed.

Lemma execute_instruction_rest (instruction : list Z) (s : ShaderCore.t) :
  instruction <> [] ->
  ShaderCore.busy_ (ShaderCore.execute_instruction instruction s) = false
  /\ ShaderCore.instruction_count_ (ShaderCore.execute_instruction instruction s)
     = wrap64 (ShaderCore.instruction_count_ s + 1).
Proof.
  intros H. destruct instruction as [|opcode operands]; [congruence|].
  destruct (execute_instruction_spec s opcode operands) as (_ & H1 & _ & H2 & _).
  split; assumption.
Qed.

Lemma wrap64_add_l (x y : Z) : wrap64 (wrap64 x + y) = wrap64 (x + y).
Proof. unfold wrap64. apply Zplus_mod_idemp_l. Qed.

Lemma wrap64_range (z : Z) : 0 <= wrap64 z < 2 ^ 64.
Proof. unfold wrap64. apply Z.mod_pos_bound. lia. Qed.

Lemma run_instructions_rest (l : list (list Z)) (s : ShaderCore.t) :
  Forall (fun instruction => instruction <> []) l -> core_at_rest s ->
  let s' := fold_left (fun s instruction => ShaderCore.execute_instruction instruction s) l s in
  core_at_rest s'
  /\ ShaderCore.instruction_count_ s'
     = wrap64 (ShaderCore.instruction_count_ s + Z.of_nat (length l)).
Proof.
  intros Hl. revert s. induction Hl as [|ins l Hins _ IH]; intros s [Hb Hc].
  - cbn. split; [split; assumption|]. rewrite Z.add_0_r. symmetry. apply wrap64_small, Hc.
  - cbv zeta. cbn [fold_left].
    destruct (execute_instruction_rest ins s Hins) as [E1 E2].
    destruct (IH (ShaderCore.execute_instruction ins s)) as [I1 I2].
    { split; [exact E1|]. rewrite E2. apply wrap64_range. }
    split; [exact I1|]. rewrite I2, E2, wrap64_add_l. f_equal.
    cbn [length]. lia.
Qed.

Lemma run_threads_rest (program : list Z) (k : nat) (s : ShaderCore.t) :
  core_at_rest s ->
  core_at_rest (Nat.iter k (run_thread program) s)
  /\ ShaderCore.instruction_count_ (Nat.iter k (run_thread program) s)
     = wrap64 (ShaderCore.instruction_count_ s
               + Z.of_nat k * Z.of_nat (length (fetch program))).
Proof.
  intros Hs. induction k as [|k [IH1 IH2]].
  - cbn [Nat.iter]. split; [exact Hs|]. destruct Hs as [_ Hc].
    rewrite Z.mul_0_l, Z.add_0_r. symmetry. apply wrap64_small, Hc.
  - cbn [Nat.iter].
    destruct (fetch_spec (length program) program (Nat.le_refl _)) as [Hf _].
    destruct (run_instructions_rest (fetch program) _ Hf IH1) as [R1 R2].
    split; [exact R1|]. etransitivity; [exact R2|].
    rewrite IH2, wrap64_add_l. f_equal. lia.
Qed.

Lemma wrap64_idem (x : Z) : wrap64 (wrap64 x) = wrap64 x.
Proof. apply wrap64_small, wrap64_range. Qed.

Lemma execute_instruction_cycles (instruction : list Z) (s : ShaderCore.t) :
  let s' := ShaderCore.execute_instruction instruction s in
  wrap64 (ShaderCore.cycle_count_ s')
  = wrap64 (ShaderCore.cycle_count_ s + cycles_of instruction)
  /\ wrap64 (ShaderCore.instruction_count_ s')
     = wrap64 (ShaderCore.instruction_count_ s
               + (match instruction with [] => 0 | _ => 1 end))
  /\ ShaderCore.core_id_ s' = ShaderCore.core_id_ s
  /\ length (ShaderCore.registers_ s') = length (ShaderCore.registers_ s).
Proof.
  destruct instruction as [|opcode operands].
  - cbn. rewrite !Z.add_0_r. repeat split; reflexivity.
  - destruct (execute_instruction_spec s opcode operands)
      as (_ & H1 & H2 & _ & H3 & H4 & _).
    cbv zeta. rewrite H1, H2. cbn [cycles_of].
    split; [|split; [|split; assumption]].
    + unfold memory_penalty.
      destruct (opcode =? 3) eqn:E3; cbn [orb].
      * rewrite wrap64_idem, !wrap64_add_l. f_equal; lia.
      * destruct (opcode =? 4) eqn:E4.
        -- rewrite wrap64_idem, !wrap64_add_l. f_equal; lia.
        -- rewrite wrap64_idem. f_equal; lia.
    + apply wrap64_idem.
Qed.

Lemma wrap64_congr (x y d : Z) : wrap64 x = wrap64 y -> wrap64 (x + d) = wrap64 (y + d).
Proof.
  intros H. rewrite <- (wrap64_add_l x), <- (wrap64_add_l y), H. reflexivity.
Qed.

Lemma run_instructions_cycles (l : list (list Z)) (s : ShaderCore.t) :
  Forall (fun instruction => instruction <> []) l ->
  let s' := fold_left (fun s instruction => ShaderCore.execute_instruction instruction s) l s in
  wrap64 (ShaderCore.cycle_count_ s')
  = wrap64 (ShaderCore.cycle_count_ s
            + foldr (fun instruction acc => cycles_of instruction + acc) 0 l)
  /\ wrap64 (ShaderCore.instruction_count_ s')
     = wrap64 (ShaderCore.instruction_count_ s + Z.of_nat (length l))
  /\ ShaderCore.core_id_ s' = ShaderCore.core_id_ s
  /\ length (ShaderCore.registers_ s') = length (ShaderCore.registers_ s).
Proof.
  intros Hl. revert s. induction Hl as [|ins l Hins _ IH]; intros s.
  - cbn. rewrite !Z.add_0_r. repeat split; reflexivity.
  - cbv zeta. cbn [fold_left foldr length].
    destruct (execute_instruction_cycles ins s) as (E1 & E2 & E3 & E4).
    destruct (IH (ShaderCore.execute_instruction ins s)) as (I1 & I2 & I3 & I4).
    split; [|split; [|split]].
    + rewrite I1. rewrite (wrap64_congr _ _ _ E1). f_equal; lia.
    + rewrite I2. rewrite (wrap64_congr _ _ _ E2).
      destruct ins as [|? ?]; [congruence|]. f_equal; lia.
    + congruence.
    + congruence.
Qed.

Lemma run_thread_wrapped (program : list Z) (s : ShaderCore.t) :
  0 <= ShaderCore.cycle_count_ s < 2 ^ 64 ->
  0 <= ShaderCore.instruction_count_ s < 2 ^ 64 ->
  0 <= ShaderCore.cycle_count_ (run_thread program s) < 2 ^ 64
  /\ 0 <= ShaderCore.instruction_count_ (run_thread program s) < 2 ^ 64.
Proof.
  unfold run_thread. generalize (fetch program). intros l. revert s.
  induction l as [|ins l IH]; intros s Hc Hi; [cbn; split; assumption|].
  cbn [fold_left]. apply IH.
  - destruct ins as [|opcode operands]; [exact Hc|].
    destruct (execute_instruction_spec s opcode operands) as (_ & _ & H2 & _).
    cbv zeta in H2. rewrite H2. destruct (_ || _); apply wrap64_range.
  - destruct ins as [|opcode operands]; [exact Hi|].
    destruct (execute_instruction_spec s opcode operands) as (_ & H1 & _).
    cbv zeta in H1. rewrite H1. apply wrap64_range.
Qed.

(** X28. One thread of a program on a core whose counters are 64-bit values
    executes one instruction for every group of four words, the last group
    being shorter when the length is no multiple of four, and takes one cycle
    for each, plus 10 for each LOAD and 5 for each STORE, on 64-bit values;
    the core keeps its id and its number of registers. *)
Theorem GPUCore_thread_cycle_accounting (program : list Z) (s : ShaderCore.t) :
  0 <= ShaderCore.cycle_count_ s < 2 ^ 64 ->
  0 <= ShaderCore.instruction_count_ s < 2 ^ 64 ->
  let s' := run_thread program s in
  ShaderCore.get_cycle_count s'
  = wrap64 (ShaderCore.cycle_count_ s + program_cycles program)
  /\ ShaderCore.get_instruction_count s'
     = wrap64 (ShaderCore.instruction_count_ s + (Z.of_nat (length program) + 3) / 4)
  /\ ShaderCore.core_id_ s' = ShaderCore.core_id_ s
  /\ length (ShaderCore.registers_ s') = length (ShaderCore.registers_ s).
Proof.
  intros Hc Hi s'.
  destruct (fetch_spec (length program) program (Nat.le_refl _)) as [Hf Hlen].
  destruct (run_instructions_cycles (fetch program) s Hf) as (R1 & R2 & R3 & R4).
  destruct (run_thread_wrapped program s Hc Hi) as [W1 W2].
  fold (run_thread program s) in R1, R2, R3, R4. fold s' in R1, R2, R3, R4, W1, W2.
  unfold ShaderCore.get_cycle_count, ShaderCore.get_instruction_count.
  split; [|split; [|split; assumption]].
  - rewrite <- (wrap64_small _ W1). exact R1.
  - rewrite <- (wrap64_small _ W2), <- Hlen. exact R2.
Qed.

(** X28 at a concrete thread: a LOAD, an ADD and a STORE cut short. *)
Lemma GPUCore_thread_cycle_accounting_witness :
  let s' := run_thread [3; 0; 0; 0; 1; 0; 1; 2; 4; 0] (ShaderCore.new 0) in
  ShaderCore.get_cycle_count s' = 18 /\ ShaderCore.get_instruction_count s' = 3.
Proof.
  destruct (GPUCore_thread_cycle_accounting [3; 0; 0; 0; 1; 0; 1; 2; 4; 0] (ShaderCore.new 0))
    as (H1 & H2 & _); [cbn; lia|cbn; lia|].
  split; [exact H1|exact H2].
Defined.

Lemma instructions_executed_alter (f : ShaderCore.t -> ShaderCore.t) (i : nat)
    (cores : list ShaderCore.t) (s : ShaderCore.t) :
  cores !! i = Some s ->
  instructions_executed (alter f i cores)
  = instructions_executed cores
    + (ShaderCore.instruction_count_ (f s) - ShaderCore.instruction_count_ s).
Proof.
  revert i. induction cores as [|core cores IH]; intros i H; [discriminate|].
  destruct i as [|i].
  - cbn in H. inversion H; subst. cbn. lia.
  - cbn in H. cbn [alter list_alter instructions_executed foldr].
    fold (instructions_executed (alter f i cores)). fold (instructions_executed cores).
    rewrite (IH i H). lia.
Qed.

Lemma instructions_executed_bounds (cores : list ShaderCore.t) (i : nat) (s : ShaderCore.t) :
  Forall core_at_rest cores -> cores !! i = Some s ->
  0 <= ShaderCore.instruction_count_ s <= instructions_executed cores.
Proof.
  intros H. revert i. induction H as [|core cores [_ Hc] Htail IH]; intros i Hi;
    [discriminate|].
  assert (Hpos : 0 <= instructions_executed cores).
  { clear -Htail. induction Htail as [|core cores [_ Hc] _ IH]; [cbn; lia|].
    cbn [instructions_executed foldr]. fold (instructions_executed cores). lia. }
  cbn [instructions_executed foldr]. fold (instructions_executed cores).
  destruct i as [|i].
  - cbn in Hi. inversion Hi; subst. lia.
  - cbn in Hi. specialize (IH i Hi). lia.
Qed.

(** The loop over the cores: the threads [i * tpc .. min ((i + n) * tpc) N)
    are run, each on one core. *)
Lemma dispatch_from_spec (program : list Z) (tpc N : Z) (n : nat) (i : Z)
    (cores : list ShaderCore.t) :
  0 <= i -> 0 <= tpc -> 0 <= N ->
  (i + Z.of_nat n) * tpc < 2 ^ 32 ->
  i + Z.of_nat n <= Z.of_nat (length cores) ->
  Forall core_at_rest cores ->
  let assigned := Z.max 0 (Z.min ((i + Z.of_nat n) * tpc) N - i * tpc) in
  instructions_executed cores + assigned * Z.of_nat (length (fetch program)) < 2 ^ 64 ->
  let cores' := dispatch_from n i tpc N program cores in
  length cores' = length cores
  /\ Forall core_at_rest cores'
  /\ instructions_executed cores'
     = instructions_executed cores + assigned * Z.of_nat (length (fetch program)).
Proof.
  revert i cores. induction n as [|n IH]; intros i cores Hi Htpc HN H32 Hlen Hrest.
  - cbv zeta. intros _. cbn [dispatch_from].
    split; [reflexivity|]. split; [exact Hrest|].
    replace (Z.max 0 (Z.min ((i + Z.of_nat 0) * tpc) N - i * tpc)) with 0 by lia. lia.
  - cbv zeta. intros H64. cbn [dispatch_from].
    set (K := Z.of_nat (length (fetch program))) in *.
    assert (HK : 0 <= K) by (subst K; lia).
    rewrite Nat2Z.inj_succ in *.
    assert (Ha : 0 <= i * tpc) by nia.
    assert (Hb : (i + 1) * tpc = i * tpc + tpc) by lia.
    assert (Hc : (i + Z.succ (Z.of_nat n)) * tpc = (i + 1) * tpc + Z.of_nat n * tpc) by lia.
    assert (Hd : 0 <= Z.of_nat n * tpc) by nia.
    unfold wrap32. rewrite (Z.mod_small (i * tpc)) by lia.
    rewrite (Z.mod_small (i * tpc + tpc)) by lia.
    destruct (N <=? i * tpc) eqn:E.
    + apply Z.leb_le in E. split; [reflexivity|]. split; [exact Hrest|].
      replace (Z.max 0 (Z.min ((i + Z.succ (Z.of_nat n)) * tpc) N - i * tpc)) with 0 by lia.
      lia.
    + apply Z.leb_gt in E.
      set (k := Z.min (i * tpc + tpc) N - i * tpc).
      assert (Hk : 0 <= k) by (subst k; lia).
      destruct (lookup_lt_is_Some_2 cores (Z.to_nat i)) as [s Hs]; [lia|].
      pose proof (proj1 (Forall_lookup _ cores) Hrest _ _ Hs) as Hs_rest.
      destruct (run_threads_rest program (Z.to_nat k) s Hs_rest) as [R1 R2].
      rewrite Z2Nat.id in R2 by exact Hk.
      pose proof (instructions_executed_bounds cores _ s Hrest Hs) as Hbound.
      set (assigned := Z.max 0 (Z.min ((i + Z.succ (Z.of_nat n)) * tpc) N - i * tpc)) in *.
      set (assigned' := Z.max 0 (Z.min ((i + 1 + Z.of_nat n) * tpc) N - (i + 1) * tpc)).
      assert (Hsplit : assigned = k + assigned').
      { subst assigned assigned' k. rewrite Hc, Hb.
        replace ((i + 1 + Z.of_nat n) * tpc) with (i * tpc + tpc + Z.of_nat n * tpc) by lia.
        lia. }
      assert (Hass' : 0 <= assigned') by (subst assigned'; lia).
      rewrite wrap64_small in R2 by nia.
      set (cores1 := alter (Nat.iter (Z.to_nat k) (run_thread program)) (Z.to_nat i) cores).
      assert (Htotal1 : instructions_executed cores1 = instructions_executed cores + k * K).
      { subst cores1. rewrite (instructions_executed_alter _ _ _ s Hs), R2. lia. }
      destruct (IH (i + 1) cores1) as (I1 & I2 & I3).
      * lia.
      * exact Htpc.
      * exact HN.
      * lia.
      * subst cores1. rewrite length_alter. lia.
      * subst cores1. apply Forall_alter; [exact Hrest|].
        intros s' Hs' _. rewrite Hs in Hs'. inversion Hs'; subst s'. exact R1.
      * fold assigned'. rewrite Htotal1. nia.
      * fold assigned' in I3. split; [|split].
        -- rewrite I1. subst cores1. apply length_alter.
        -- exact I2.
        -- rewrite I3, Htotal1, Hsplit. lia.
Qed.

Lemma dispatch_from_rest (program : list Z) (tpc N : Z) (n : nat) (i : Z)
    (cores : list ShaderCore.t) :
  Forall core_at_rest cores ->
  length (dispatch_from n i tpc N program cores) = length cores
  /\ Forall core_at_rest (dispatch_from n i tpc N program cores).
Proof.
  revert i cores. induction n as [|n IH]; intros i cores H; [split; [reflexivity|exact H]|].
  cbn [dispatch_from]. destruct (_ <=? _); [split; [reflexivity|exact H]|].
  set (cores1 := alter _ _ cores).
  assert (H1 : Forall core_at_rest cores1).
  { subst cores1. apply Forall_alter; [exact H|].
    intros s _ Hs. apply run_threads_rest, Hs. }
  destruct (IH (i + 1) cores1 H1) as [I1 I2].
  split; [|exact I2]. rewrite I1. subst cores1. apply length_alter.
Qed.

(** What every operation of a [GPUCore] keeps. *)
Lemma cores_rest_step (n : Z) (g : t) (o : op) :
  num_cores_ g = n /\ length (shader_cores_ g) = Z.to_nat n
  /\ Forall core_at_rest (shader_cores_ g) ->
  num_cores_ (step g o) = n /\ length (shader_cores_ (step g o)) = Z.to_nat n
  /\ Forall core_at_rest (shader_cores_ (step g o)).
Proof.
  intros (Hn & Hl & Hr). destruct o as [memory perf_monitor|start finish program N|];
    cbn [step].
  - split; [exact Hn|]. split; [exact Hl|exact Hr].
  - unfold dispatch_compute. destruct (initialized_ g); cbn [negb];
      [|split; [exact Hn|split; [exact Hl|exact Hr]]].
    cbn [num_cores_ shader_cores_ set_perf_monitor set_shader_cores].
    destruct (dispatch_from_rest program
                (wrap32 (N + num_cores_ g - 1) / num_cores_ g) N
                (Z.to_nat (num_cores_ g)) 0 (shader_cores_ g) Hr) as [D1 D2].
    split; [exact Hn|]. split; [rewrite D1; exact Hl|exact D2].
  - split; [exact Hn|]. split; [exact Hl|exact Hr].
Qed.

Lemma cores_rest_run (n : Z) (ops : list op) (g : t) :
  num_cores_ g = n /\ length (shader_cores_ g) = Z.to_nat n
  /\ Forall core_at_rest (shader_cores_ g) ->
  num_cores_ (run g ops) = n /\ length (shader_cores_ (run g ops)) = Z.to_nat n
  /\ Forall core_at_rest (shader_cores_ (run g ops)).
Proof.
  revert g. induction ops as [|o ops IH]; intros g H; [exact H|].
  apply IH, cores_rest_step, H.
Qed.

Lemma cores_rest_new (n : Z) :
  num_cores_ (new n) = n /\ length (shader_cores_ (new n)) = Z.to_nat n
  /\ Forall core_at_rest (shader_cores_ (new n)).
Proof.
  unfold new. cbn [num_cores_ shader_cores_].
  split; [reflexivity|]. split; [rewrite length_fmap, length_seq; reflexivity|].
  apply Forall_fmap, Forall_forall. intros i _. split; [reflexivity|cbn; lia].
Qed.

(** X29. In every state a sequence of [initialize], [dispatch_compute] and
    [wait_for_completion] reaches from the constructor, no core is busy:
    [is_idle] is true and [get_active_cores] is 0; the number of cores is the
    one the constructor was given. *)
Theorem GPUCore_is_idle_between_calls (num_shader_cores : Z) (ops : list op) :
  let g := run (new num_shader_cores) ops in
  is_idle g = true
  /\ get_active_cores g = 0
  /\ num_cores_ g = num_shader_cores
  /\ length (shader_cores_ g) = Z.to_nat num_shader_cores.
Proof.
  intros g.
  destruct (cores_rest_run num_shader_cores ops (new num_shader_cores)
              (cores_rest_new num_shader_cores)) as (H1 & H2 & H3).
  fold g in H1, H2, H3.
  assert (Hbusy : Forall (fun core => ShaderCore.busy_ core = false) (shader_cores_ g)).
  { eapply Forall_impl; [exact H3|]. intros core [Hb _]. exact Hb. }
  split; [|split; [|split; assumption]].
  - unfold is_idle. apply forallb_forall. intros core Hin.
    apply list_elem_of_In in Hin. unfold ShaderCore.is_busy.
    rewrite (proj1 (Forall_forall _ _) Hbusy core Hin). reflexivity.
  - unfold get_active_cores.
    replace (filter _ (shader_cores_ g)) with (@nil ShaderCore.t); [reflexivity|].
    symmetry. clear -Hbusy. induction Hbusy as [|core cores Hb _ IH]; [reflexivity|].
    rewrite filter_cons. unfold ShaderCore.is_busy. rewrite Hb.
    destruct (decide (false = true)); [discriminate|exact IH].
Qed.

(** X30. [dispatch_compute] runs every thread exactly once: on an
    initialised core with at least one shader core, when
    [num_threads + num_cores - 1] fits 32 bits and no counter overflows, the
    instruction counts of the cores grow in total by [num_threads] times the
    number of instructions of the program, which is the length of the program
    divided by four, rounded up. *)
Theorem GPUCore_dispatch_runs_every_thread_once (num_shader_cores : Z) (ops : list op)
    (start finish : Z) (program : list Z) (num_threads : Z) :
  let g := run (new num_shader_cores) ops in
  let per_thread := Z.of_nat (length (fetch program)) in
  initialized_ g = true ->
  0 < num_shader_cores -> 0 <= num_threads ->
  num_threads + num_shader_cores - 1 < 2 ^ 32 ->
  instructions_executed (shader_cores_ g) + num_threads * per_thread < 2 ^ 64 ->
  let g' := dispatch_compute start finish program num_threads g in
  instructions_executed (shader_cores_ g')
  = instructions_executed (shader_cores_ g) + num_threads * per_thread
  /\ per_thread = (Z.of_nat (length program) + 3) / 4.
Proof.
  intros g per_thread Hinit HC HN H32 H64 g'.
  destruct (cores_rest_run num_shader_cores ops (new num_shader_cores)
              (cores_rest_new num_shader_cores)) as (H1 & H2 & H3).
  fold g in H1, H2, H3.
  split; [|apply (fetch_spec (length program) program (Nat.le_refl _))].
  subst g'. unfold dispatch_compute. rewrite Hinit. cbn [negb].
  cbn [num_cores_ shader_cores_ set_perf_monitor set_shader_cores].
  rewrite H1. unfold wrap32 at 1. rewrite Z.mod_small by lia.
  set (tpc := (num_threads + num_shader_cores - 1) / num_shader_cores).
  pose proof (Z.div_mod (num_threads + num_shader_cores - 1) num_shader_cores ltac:(lia))
    as Hd.
  pose proof (Z.mod_pos_bound (num_threads + num_shader_cores - 1) num_shader_cores HC) as Hm.
  fold tpc in Hd.
  assert (Htpc : 0 <= tpc) by (subst tpc; apply Z.div_pos; lia).
  assert (Hcover : num_threads <= num_shader_cores * tpc) by lia.
  destruct (dispatch_from_spec program tpc num_threads (Z.to_nat num_shader_cores) 0
              (shader_cores_ g)) as (_ & _ & D).
  - lia.
  - exact Htpc.
  - exact HN.
  - rewrite Z2Nat.id by lia. lia.
  - rewrite H2. lia.
  - exact H3.
  - rewrite Z2Nat.id by lia.
    replace (Z.max 0 (Z.min ((0 + num_shader_cores) * tpc) num_threads - 0 * tpc))
      with num_threads by lia.
    exact H64.
  - rewrite D. rewrite Z2Nat.id by lia.
    replace (Z.max 0 (Z.min ((0 + num_shader_cores) * tpc) num_threads - 0 * tpc))
      with num_threads by lia.
    reflexivity.
Qed.

(** X30 at a concrete dispatch: ten threads of a two-instruction program on
    four cores. *)
Lemma GPUCore_dispatch_runs_every_thread_once_witness :
  let g := run (new 4) [Initialize MemoryHierarchy.new None] in
  let g' := dispatch_compute 0 0 [1; 0; 1; 2; 3; 0] 10 g in
  instructions_executed (shader_cores_ g') = 20.
Proof.
  destruct (GPUCore_dispatch_runs_every_thread_once 4 [Initialize MemoryHierarchy.new None]
              0 0 [1; 0; 1; 2; 3; 0] 10) as [H _].
  - reflexivity.
  - lia.
  - lia.
  - lia.
  - vm_compute. reflexivity.
  - exact H.
Defined.

End GPUCoreDispatch.
